(** * The ADC side of the hub (hub/adc.go): handshake, registry, routing

    A shallow embedding of [ServeADC]'s three stages and of the ADC router.
    Go code is written as a program over primitive operations (registry
    lock, registry maps, the wire, the peer's cached record); the programs
    are run by [exec] against a [World] that holds the hub's state, the
    scripted behaviour of the network and a log of what was done. *)

From Stdlib Require Import NArith List Lia.
From stdpp Require Import base option numbers list strings gmap sets relations.

Local Open Scope string_scope.
Local Open Scope N_scope.

(** ** Data model *)

(** [adc.SID] (four bytes), [adc.CID] and [adc.PID] (24 bytes, a Tiger
    hash) are read as numbers. *)
Abbreviation SID := N (only parsing).
Abbreviation CID := N (only parsing).
Abbreviation PID := N (only parsing).

(** [adc.ModFeatures]: [map[Feature]bool]. *)
Abbreviation ModFeatures := (gmap string bool) (only parsing).

Definition FeaBASE : string := "BASE".
Definition FeaBAS0 : string := "BAS0".
Definition FeaTIGR : string := "TIGR".
Definition FeaPING : string := "PING".

(** Go [error] values met in this file.  [errNickTaken] is declared in
    hub.go; [ErrTransport] stands for what a failed read, write or flush
    returns. *)
Inductive error : Type :=
| io_EOF
| errNickTaken
| errors_New (msg : string)
| fmt_Errorf (msg : string)
| ErrTransport.

Definition Error (e : error) : string :=
  match e with
  | io_EOF => "EOF"
  | errNickTaken => "nick taken"
  | errors_New m => m
  | fmt_Errorf m => m
  | ErrTransport => "transport error"
  end.

(** [adc.User]; [Pid] is a pointer in Go ([u.Pid = nil]). *)
Record User : Type := mkUser {
  Id : CID;
  Pid : option PID;
  Name : string;
  Application : string;
  Version : string;
  Ip4 : string
}.

(** The zero value of [adc.User]. *)
Definition User0 : User := mkUser 0 None "" "" "" "".

Definition set_Pid (p : option PID) (u : User) : User :=
  mkUser (Id u) p (Name u) (Application u) (Version u) (Ip4 u).

Definition set_Ip4 (ip : string) (u : User) : User :=
  mkUser (Id u) (Pid u) (Name u) (Application u) (Version u) ip.

Inductive Severity : Type := Success | Recoverable | Fatal.

(** [adc.Message] values written by the hub. *)
Inductive Message : Type :=
| Supported (Features : ModFeatures)
| SIDAssign (s : SID)
| HubInfo (name version desc : string)
| Status (Sev : Severity) (Code : N) (Msg : string)
| UserInf (u : User)
| ChatMessage (Text : string)
| Disconnect (s : SID).

(** Command names, [(adc.Supported{}).Cmd()] and [(adc.User{}).Cmd()]. *)
Definition Cmd_Supported : string := "SUP".
Definition Cmd_User : string := "INF".

(** Packets as they come off the wire: command name and raw payload. *)
Record BasePacket : Type := mkBase { bName : string; bData : string }.
Record BroadcastPacket : Type :=
  mkBroadcast { bcID : SID; bcName : string; bcData : string }.
(** [adc.EchoPacket] has the layout of [adc.DirectPacket]: line 74 converts
    one into the other. *)
Record DirectPacket : Type :=
  mkDirect { dID : SID; dTarg : SID; dName : string; dData : string }.

Inductive Packet : Type :=
| PInfo (b : BasePacket)
| PHub (b : BasePacket)
| PBroadcast (b : BroadcastPacket)
| PDirect (d : DirectPacket)
| PEcho (d : DirectPacket).

(** [*adc.Conn]: the handle and the remote address it reports. *)
Record Conn : Type := mkConn { conn_id : N; RemoteAddr : string }.

(** [*adcPeer]: the fields fixed at construction; [ref] stands for the
    pointer, the mutable [user] field lives in the [World]. *)
Record adcPeer : Type := mkPeer {
  addr : string;
  sid : SID;
  conn : Conn;
  fea : ModFeatures;
  ref : N
}.

Record Software : Type := mkSoftware { soft_Name : string; soft_Vers : string }.

(** A peer of the sibling protocol, seen through the [Peer] interface. *)
Record otherPeer : Type := mkOther {
  o_sid : SID;
  o_name : string;
  o_addr : string;
  o_soft : Software
}.

(** The [Peer] interface: the type assertion to an ADC peer succeeds on
    [PeerADC] only. *)
Inductive Peer : Type :=
| PeerADC (p : adcPeer)
| PeerOther (q : otherPeer).

Definition Peer_SID (p : Peer) : SID :=
  match p with PeerADC a => sid a | PeerOther q => o_sid q end.

Definition isADC (p : Peer) : option adcPeer :=
  match p with PeerADC a => Some a | PeerOther _ => None end.

(** [h.peers]: the three indices and the two reservation sets. *)
Record Registry : Type := mkRegistry {
  bySID : gmap N Peer;
  byCID : gmap N adcPeer;
  byName : gmap string Peer;
  logging : gset string;
  loggingCID : gset N
}.

Definition Registry0 : Registry := mkRegistry ∅ ∅ ∅ ∅ ∅.

(** Modelled from the spec: [listPeers], which hub.go defines, is the
    snapshot of the admitted peer list, the values of [bySID]. *)
Definition listPeers (r : Registry) : list Peer :=
  (map_to_list (bySID r)).*2.

(** Reads of the registry. *)
Inductive query : Type -> Type :=
| InLogging (n : string) : query bool
| InByName (n : string) : query bool
| InLoggingCID (c : CID) : query bool
| InByCID (c : CID) : query bool
| ListPeers : query (list Peer)
| LookupSID (s : SID) : query (option Peer).

Definition ask {X} (q : query X) (r : Registry) : X :=
  match q in query X return X with
  | InLogging n => bool_decide (n ∈ logging r)
  | InByName n => bool_decide (is_Some (byName r !! n))
  | InLoggingCID c => bool_decide (c ∈ loggingCID r)
  | InByCID c => bool_decide (is_Some (byCID r !! c))
  | ListPeers => listPeers r
  | LookupSID s => bySID r !! s
  end.

(** Writes to the registry. *)
Inductive mutation : Type :=
| AddLogging (n : string)
| AddLoggingCID (c : CID)
| DelLogging (n : string)
| DelLoggingCID (c : CID)
| SetBySID (s : SID) (p : Peer)
| SetByCID (c : CID) (p : adcPeer)
| SetByName (n : string) (p : Peer).

Definition apply_mutation (m : mutation) (r : Registry) : Registry :=
  match m with
  | AddLogging n =>
      mkRegistry (bySID r) (byCID r) (byName r) ({[n]} ∪ logging r) (loggingCID r)
  | AddLoggingCID c =>
      mkRegistry (bySID r) (byCID r) (byName r) (logging r) ({[c]} ∪ loggingCID r)
  | DelLogging n =>
      mkRegistry (bySID r) (byCID r) (byName r) (logging r ∖ {[n]}) (loggingCID r)
  | DelLoggingCID c =>
      mkRegistry (bySID r) (byCID r) (byName r) (logging r) (loggingCID r ∖ {[c]})
  | SetBySID s p =>
      mkRegistry (<[s := p]> (bySID r)) (byCID r) (byName r) (logging r) (loggingCID r)
  | SetByCID c p =>
      mkRegistry (bySID r) (<[c := p]> (byCID r)) (byName r) (logging r) (loggingCID r)
  | SetByName n p =>
      mkRegistry (bySID r) (byCID r) (<[n := p]> (byName r)) (logging r) (loggingCID r)
  end.

(** What can be asked of a connection that writes. *)
Inductive wire_op : Type :=
| WritePacket (p : Packet)
| WriteInfoMsg (m : Message)
| WriteBroadcast (id : SID) (m : Message)
| WriteDirect (from to : SID) (m : Message)
| Flush.

(** Calls on a peer of the sibling protocol. *)
Inductive other_call : Type :=
| OPeersJoin (peers : list Peer)
| OChatMsg (from : Peer) (text : string).

(** A [go] statement of the serving loop, with its evaluated arguments. *)
Inductive task : Type :=
| TBroadcast (p : BroadcastPacket) (from : Peer) (peers : option (list Peer))
| TDirect (p : DirectPacket).

(** Lines handed to [log.Printf]. *)
Inductive logline : Type :=
| LogPacket (s : SID) (p : Packet)
| LogParseError (e : error).

(** The log of what a run did. *)
Inductive event : Type :=
| EvLock
| EvUnlock
| EvRLock
| EvRUnlock
| EvLoad {X : Type} (q : query X)
| EvStore (m : mutation)
| EvRead (c : Conn)
| EvWire (c : Conn) (o : wire_op) (ok : bool)
| EvOther (q : otherPeer) (call : other_call)
| EvGo (t : task)
| EvLog (l : logline).

(** [sync.RWMutex]. *)
Record RWMutex : Type := mkMutex { writer : bool; readers : nat }.

Definition unlocked : RWMutex := mkMutex false 0.

(** ** The world a connection's goroutine runs in *)

Record World : Type := mkWorld {
  peers : Registry;                          (* h.peers maps *)
  mu : RWMutex;                              (* h.peers.RWMutex *)
  lastSID : N;                               (* SID allocator *)
  nextRef : N;                               (* next fresh pointer *)
  users : gmap N User;                       (* peer.user, by ref *)
  inbox : gmap N (list (error + Packet));    (* what each Conn will read *)
  faults : list bool;                        (* true: the next write fails *)
  env : list (Registry -> Registry);         (* what others do between locks *)
  trace : list event
}.

Definition set_peers (r : Registry) (w : World) : World :=
  mkWorld r (mu w) (lastSID w) (nextRef w) (users w) (inbox w) (faults w) (env w) (trace w).
Definition set_mu (m : RWMutex) (w : World) : World :=
  mkWorld (peers w) m (lastSID w) (nextRef w) (users w) (inbox w) (faults w) (env w) (trace w).
Definition set_lastSID (n : N) (w : World) : World :=
  mkWorld (peers w) (mu w) n (nextRef w) (users w) (inbox w) (faults w) (env w) (trace w).
Definition set_nextRef (n : N) (w : World) : World :=
  mkWorld (peers w) (mu w) (lastSID w) n (users w) (inbox w) (faults w) (env w) (trace w).
Definition set_users (u : gmap N User) (w : World) : World :=
  mkWorld (peers w) (mu w) (lastSID w) (nextRef w) u (inbox w) (faults w) (env w) (trace w).
Definition set_inbox (i : gmap N (list (error + Packet))) (w : World) : World :=
  mkWorld (peers w) (mu w) (lastSID w) (nextRef w) (users w) i (faults w) (env w) (trace w).
Definition set_faults (f : list bool) (w : World) : World :=
  mkWorld (peers w) (mu w) (lastSID w) (nextRef w) (users w) (inbox w) f (env w) (trace w).
Definition set_env (e : list (Registry -> Registry)) (w : World) : World :=
  mkWorld (peers w) (mu w) (lastSID w) (nextRef w) (users w) (inbox w) (faults w) e (trace w).
Definition emit (e : event) (w : World) : World :=
  mkWorld (peers w) (mu w) (lastSID w) (nextRef w) (users w) (inbox w) (faults w) (env w)
          (trace w ++ [e]).

(** The registry a goroutine finds when it gets the lock: other goroutines
    may have run their own critical sections since it last held it. *)
Definition found (w : World) : Registry :=
  match env w with
  | [] => peers w
  | f :: _ => f (peers w)
  end.

Definition interfere (w : World) : World :=
  set_env (tail (env w)) (set_peers (found w) w).

(** [peer.user]; a peer that was never assigned one holds the zero value. *)
Definition user_of (w : World) (p : adcPeer) : User :=
  default User0 (users w !! ref p).

(** ** Primitive operations

    Time is not modelled: [ReadPacket] is told only whether it has a
    deadline.  A read that times out returns an error; a read without
    deadline on a connection that delivers nothing does not return. *)

Inductive op : Type -> Type :=
| Lock : op unit
| Unlock : op unit
| RLock : op unit
| RUnlock : op unit
| Load {X : Type} (q : query X) : op X
| Store (m : mutation) : op unit
| ReadPacket (c : Conn) (deadline : bool) : op (error + Packet)
| Wire (c : Conn) (o : wire_op) : op (option error)
| NextSID : op SID
| NewPeer (a : string) (s : SID) (c : Conn) (f : ModFeatures) : op adcPeer
| GetUser (p : adcPeer) : op User
| SetUser (p : adcPeer) (u : User) : op unit
| CallOther (q : otherPeer) (call : other_call) : op unit
| Go (t : task) : op unit
| Log (l : logline) : op unit
| Panic : op Empty_set.

Inductive stepres (X : Type) : Type :=
| Stepped (x : X) (w : World)
| Blocked
| Crashed.
Arguments Stepped {X} x w.
Arguments Blocked {X}.
Arguments Crashed {X}.

(** What a write or a flush returns under the script of faults. *)
Definition wire_result (fs : list bool) : option error :=
  if hd false fs then Some ErrTransport else None.

Definition is_free (m : RWMutex) : bool :=
  negb (writer m) && Nat.eqb (readers m) 0.

Definition step {X} (e : op X) (w : World) : stepres X :=
  match e in op X return stepres X with
  | Lock =>
      if is_free (mu w)
      then Stepped tt (emit EvLock (set_mu (mkMutex true 0) (interfere w)))
      else Blocked
  | Unlock =>
      if writer (mu w)
      then Stepped tt (emit EvUnlock (set_mu (mkMutex false (readers (mu w))) w))
      else Crashed
  | RLock =>
      if writer (mu w) then Blocked
      else if Nat.eqb (readers (mu w)) 0
      then Stepped tt (emit EvRLock (set_mu (mkMutex false 1) (interfere w)))
      else Stepped tt (emit EvRLock (set_mu (mkMutex false (S (readers (mu w)))) w))
  | RUnlock =>
      match readers (mu w) with
      | O => Crashed
      | S n => Stepped tt (emit EvRUnlock (set_mu (mkMutex (writer (mu w)) n) w))
      end
  | Load q => Stepped (ask q (peers w)) (emit (EvLoad q) w)
  | Store m => Stepped tt (emit (EvStore m) (set_peers (apply_mutation m (peers w)) w))
  | ReadPacket c deadline =>
      match inbox w !! conn_id c with
      | Some (x :: rest) =>
          Stepped x (emit (EvRead c) (set_inbox (<[conn_id c := rest]> (inbox w)) w))
      | _ =>
          if deadline then Stepped (inl ErrTransport) (emit (EvRead c) w)
          else Blocked
      end
  | Wire c o =>
      Stepped (wire_result (faults w))
              (emit (EvWire c o (negb (hd false (faults w)))) (set_faults (tail (faults w)) w))
  | NextSID => Stepped (lastSID w + 1) (set_lastSID (lastSID w + 1) w)
  | NewPeer a s c f =>
      Stepped (mkPeer a s c f (nextRef w)) (set_nextRef (nextRef w + 1) w)
  | GetUser p => Stepped (user_of w p) w
  | SetUser p u => Stepped tt (set_users (<[ref p := u]> (users w)) w)
  | CallOther q call => Stepped tt (emit (EvOther q call) w)
  | Go t => Stepped tt (emit (EvGo t) w)
  | Log l => Stepped tt (emit (EvLog l) w)
  | Panic => Crashed
  end.

(** ** Programs *)

Inductive prog (A : Type) : Type :=
| Ret (a : A)
| Vis {X : Type} (e : op X) (k : X -> prog A).
Arguments Ret {A} a.
Arguments Vis {A X} e k.

Fixpoint bind {A B} (p : prog A) (f : A -> prog B) : prog B :=
  match p with
  | Ret a => f a
  | Vis e k => Vis e (fun x => bind (k x) f)
  end.

Declare Scope prog_scope.
Delimit Scope prog_scope with prog.
Notation "x <~ e ;; k" := (Vis e (fun x => k))
  (at level 62, e at next level, right associativity) : prog_scope.
Notation "e ~;; k" := (Vis e (fun _ => k))
  (at level 62, right associativity) : prog_scope.
Notation "x <- p ;; k" := (bind p (fun x => k))
  (at level 62, p at next level, right associativity) : prog_scope.
Local Open Scope prog_scope.

(** How a goroutine ends: it returns, it waits for good (for the lock, or
    for a packet on a read without deadline), or it panics. *)
Inductive outcome (A : Type) : Type :=
| Done (a : A)
| Deadlock
| Panicked.
Arguments Done {A} a.
Arguments Deadlock {A}.
Arguments Panicked {A}.

(** One goroutine run to its end. *)
Fixpoint exec {A} (p : prog A) (w : World) : outcome A * World :=
  match p with
  | Ret a => (Done a, w)
  | Vis e k =>
      match step e w with
      | Stepped x w' => exec (k x) w'
      | Blocked => (Deadlock, w)
      | Crashed => (Panicked, w)
      end
  end.

(** ** What the [adc] and [tiger] packages provide

    The wire codec and the Tiger hash are outside this file; the hub code
    is read against any implementation of them. *)
Class Codec : Type := {
  PidHash : PID -> CID;
  HashBytes : string -> CID;
  UnmarshalSupported : string -> error + ModFeatures;
  UnmarshalUser : string -> error + User;
  Decode : string -> string -> error + Message
}.

(** Modelled from the spec: [IsSet] of [adc.ModFeatures], which the adc
    package defines; a feature is present when the map holds it as true. *)
Definition IsSet (f : ModFeatures) (k : string) : bool :=
  match f !! k with
  | Some true => true
  | _ => false
  end.

(** Modelled from the spec: [Intersect] of [adc.ModFeatures], which the adc
    package defines; the features present on both sides. *)
Definition Intersect (f g : ModFeatures) : ModFeatures :=
  intersection_with (fun a b => if a && b then Some true else None) f g.

(** [h.info]. *)
Record Hub : Type := mkHub {
  info_Name : string;
  info_Version : string;
  info_Desc : string
}.

Definition hubFeatures : ModFeatures :=
  <[FeaBASE := true]> (<[FeaBAS0 := true]> (<[FeaTIGR := true]> (<[FeaPING := true]> ∅))).

(** ** The hub's code *)

(** Modelled from the spec: a read of the registry under the shared lock,
    as hub.go's [Peers] and [bySID] do it. *)
Definition locked_read {X} (q : query X) : prog X :=
  RLock ~;; x <~ Load q;; RUnlock ~;; Ret x.

(** Modelled from the spec: [h.Peers()], the lock-held snapshot. *)
Definition Peers : prog (list Peer) := locked_read ListPeers.

(** Modelled from the spec: [h.bySID(sid)]. *)
Definition lookupSID (s : SID) : prog (option Peer) := locked_read (LookupSID s).

(** Lines 363-369. *)
Definition sendInfo (p : adcPeer) (m : Message) : prog (option error) :=
  err <~ Wire (conn p) (WriteInfoMsg m);;
  match err with
  | Some e => Ret (Some e)
  | None => Vis (Wire (conn p) Flush) Ret
  end.

(** Lines 371-375. *)
Definition sendError (p : adcPeer) (sev : Severity) (code : N) (err : error)
  : prog (option error) :=
  sendInfo p (Status sev code (Error err)).

(** Lines 348-353; the per-peer lock guards this one read and is left out. *)
Definition Info (p : adcPeer) : prog User := Vis (GetUser p) Ret.

(** Lines 432-438. *)
Definition ChatMsg (p : adcPeer) (from : Peer) (text : string) : prog (option error) :=
  err <~ Wire (conn p) (WriteBroadcast (Peer_SID from) (ChatMessage text));;
  match err with
  | Some e => Ret (Some e)
  | None => Vis (Wire (conn p) Flush) Ret
  end.

Section Hub.
Context {codec : Codec}.

(** Lines 398-419. *)
Fixpoint PeersJoin (p : adcPeer) (peers : list Peer) : prog (option error) :=
  match peers with
  | [] => Vis (Wire (conn p) Flush) Ret
  | peer :: rest =>
      u <- match peer with
           | PeerADC p2 => Info p2
           | PeerOther q =>
               Ret (mkUser (HashBytes (o_addr q)) None (o_name q)
                           (soft_Name (o_soft q)) (soft_Vers (o_soft q)) "")
           end;;
      err <~ Wire (conn p) (WriteBroadcast (Peer_SID peer) (UserInf u));;
      match err with
      | Some e => Ret (Some e)
      | None => PeersJoin p rest
      end
  end.

(** Method calls through the [Peer] interface. *)
Definition Peer_PeersJoin (p : Peer) (peers : list Peer) : prog (option error) :=
  match p with
  | PeerADC a => PeersJoin a peers
  | PeerOther q => CallOther q (OPeersJoin peers) ~;; Ret None
  end.

Definition Peer_ChatMsg (p : Peer) (from : Peer) (text : string) : prog (option error) :=
  match p with
  | PeerADC a => ChatMsg a from text
  | PeerOther q => CallOther q (OChatMsg from text) ~;; Ret None
  end.

(** Modelled from the spec: [broadcastUserJoin], which hub.go defines,
    sends the new peer's INF to every peer of the snapshot. *)
Fixpoint broadcastUserJoin (peer : Peer) (notify : list Peer) : prog unit :=
  match notify with
  | [] => Ret tt
  | p :: rest => _ <- Peer_PeersJoin p [peer];; broadcastUserJoin peer rest
  end.

(** Modelled from the spec: [broadcastChat], which hub.go defines, calls
    [ChatMsg] on every peer of the list. *)
Fixpoint broadcastChat (from : Peer) (text : string) (notify : list Peer) : prog unit :=
  match notify with
  | [] => Ret tt
  | p :: rest => _ <- Peer_ChatMsg p from text;; broadcastChat from text rest
  end.

(** Lines 292-299: the loop of [adcBroadcast]. *)
Fixpoint fanout (p : BroadcastPacket) (peers : list Peer) (nmdc : list Peer)
  : prog (list Peer) :=
  match peers with
  | [] => Ret nmdc
  | peer :: rest =>
      match peer with
      | PeerADC p2 =>
          Wire (conn p2) (WritePacket (PBroadcast p)) ~;;
          Wire (conn p2) Flush ~;;
          fanout p rest nmdc
      | PeerOther _ => fanout p rest (nmdc ++ [peer])
      end
  end.

(** Lines 287-313. *)
Definition adcBroadcast (p : BroadcastPacket) (from : Peer) (peers : option (list Peer))
  : prog unit :=
  peers <- match peers with
           | None => Peers
           | Some l => Ret l
           end;;
  nmdc <- fanout p peers [];;
  match nmdc with
  | [] => Ret tt
  | _ :: _ =>
      match Decode (bcName p) (bcData p) with
      | inl err => Log (LogParseError err) ~;; Ret tt
      | inr (ChatMessage text) => broadcastChat from text nmdc
      | inr _ => Ret tt
      end
  end.

(** Lines 315-326. *)
Definition adcDirect (p : DirectPacket) : prog unit :=
  peer <- lookupSID (dTarg p);;
  match peer with
  | None => Ret tt
  | Some (PeerADC p2) =>
      Wire (conn p2) (WritePacket (PDirect p)) ~;;
      Wire (conn p2) Flush ~;;
      Ret tt
  | Some (PeerOther _) => Ret tt
  end.

(** The body of a goroutine started by the serving loop. *)
Definition run_task (t : task) : prog unit :=
  match t with
  | TBroadcast p from peers => adcBroadcast p from peers
  | TDirect p => adcDirect p
  end.

(** Lines 46-84.  The Go loop has no bound; [fuel] bounds the number of
    iterations and [None] reports that it ran out.  The read of line 48
    has no deadline. *)
Fixpoint adcServePeer (fuel : nat) (peer : adcPeer) : prog (option (option error)) :=
  match fuel with
  | O => Ret None
  | S fuel =>
      r <~ ReadPacket (conn peer) false;;
      match r with
      | inl io_EOF => Ret (Some None)
      | inl err => Ret (Some (Some err))
      | inr p =>
          let next := Log (LogPacket (sid peer) p) ~;; adcServePeer fuel peer in
          match p with
          | PBroadcast b =>
              if decide (sid peer ≠ bcID b)
              then Ret (Some (Some (fmt_Errorf "malformed broadcast")))
              else
                l <- Peers;;
                Go (TBroadcast b (PeerADC peer) (Some l)) ~;;
                next
          | PEcho e =>
              if decide (sid peer ≠ dID e)
              then Ret (Some (Some (fmt_Errorf "malformed echo packet")))
              else
                err <~ Wire (conn peer) (WritePacket (PEcho e));;
                match err with
                | Some x => Ret (Some (Some x))
                | None =>
                    err <~ Wire (conn peer) Flush;;
                    match err with
                    | Some x => Ret (Some (Some x))
                    | None => Go (TDirect e) ~;; next
                    end
                end
          | PDirect d =>
              if decide (sid peer ≠ dID d)
              then Ret (Some (Some (fmt_Errorf "malformed direct packet")))
              else Go (TDirect d) ~;; next
          | _ => next
          end
      end
  end.

(** Lines 86-147; the arguments of the format strings are dropped. *)
Definition adcStageProtocol (c : Conn) : prog (error + adcPeer) :=
  r <~ ReadPacket c true;;
  match r with
  | inl err => Ret (inl err)
  | inr (PHub hp) =>
      if decide (bName hp ≠ Cmd_Supported)
      then Ret (inl (fmt_Errorf "expected support message"))
      else
        match UnmarshalSupported (bData hp) with
        | inl err => Ret (inl err)
        | inr sup =>
            let mutual := Intersect hubFeatures sup in
            if negb (IsSet mutual FeaBASE) && negb (IsSet mutual FeaBAS0)
            then Ret (inl (fmt_Errorf "client does not support BASE"))
            else if negb (IsSet mutual FeaTIGR)
            then Ret (inl (fmt_Errorf "client does not support TIGR"))
            else
              err <~ Wire c (WriteInfoMsg (Supported hubFeatures));;
              match err with
              | Some e => Ret (inl e)
              | None =>
                  s <~ NextSID;;
                  err <~ Wire c (WriteInfoMsg (SIDAssign s));;
                  match err with
                  | Some e => Ret (inl e)
                  | None =>
                      err <~ Wire c Flush;;
                      match err with
                      | Some e => Ret (inl e)
                      | None =>
                          peer <~ NewPeer (RemoteAddr c) s c mutual;;
                          Ret (inr peer)
                      end
                  end
              end
        end
  | inr _ => Ret (inl (fmt_Errorf "expected hub messagge"))
  end.

(** Lines 222-227: the closure [unbind]. *)
Definition unbind (u : User) : prog unit :=
  Lock ~;;
  Store (DelLogging (Name u)) ~;;
  Store (DelLoggingCID (Id u)) ~;;
  Unlock ~;;
  Ret tt.

(** Lines 178-195: the look under the shared lock. *)
Definition identityPeek (peer : adcPeer) (u : User) : prog (option error) :=
  RLock ~;;
  sameName1 <~ Load (InLogging (Name u));;
  sameName2 <~ Load (InByName (Name u));;
  sameCID1 <~ Load (InLoggingCID (Id u));;
  sameCID2 <~ Load (InByCID (Id u));;
  RUnlock ~;;
  if sameName1 || sameName2 then
    _ <- sendError peer Fatal 22 errNickTaken;;
    Ret (Some errNickTaken)
  else if sameCID1 || sameCID2 then
    _ <- sendError peer Fatal 24 (errors_New "CID taken");;
    Ret (Some (errors_New "CID taken"))
  else Ret None.

(** Lines 197-220: nick and CID are bound under the exclusive lock. *)
Definition identityBind (peer : adcPeer) (u : User) : prog (option error) :=
  Lock ~;;
  sameName1 <~ Load (InLogging (Name u));;
  sameName2 <~ Load (InByName (Name u));;
  if sameName1 || sameName2 then
    Unlock ~;;
    _ <- sendError peer Fatal 22 errNickTaken;;
    Ret (Some errNickTaken)
  else
    sameCID1 <~ Load (InLoggingCID (Id u));;
    sameCID2 <~ Load (InByCID (Id u));;
    if sameCID1 || sameCID2 then
      Unlock ~;;
      _ <- sendError peer Fatal 24 (errors_New "CID taken");;
      Ret (Some (errors_New "CID taken"))
    else
      Store (AddLogging (Name u)) ~;;
      Store (AddLoggingCID (Id u)) ~;;
      Unlock ~;;
      Ret None.

(** Lines 266-279: the user is accepted on the hub. *)
Definition identityAccept (peer : adcPeer) (u : User) : prog (list Peer) :=
  Lock ~;;
  pu <~ GetUser peer;;
  Store (DelLogging (Name pu)) ~;;
  Store (DelLoggingCID (Id u)) ~;;
  list <~ Load ListPeers;;
  Store (SetBySID (sid peer) (PeerADC peer)) ~;;
  Store (SetByCID (Id u) peer) ~;;
  Store (SetByName (Name u) (PeerADC peer)) ~;;
  Unlock ~;;
  Ret list.

(** Lines 229-285: what follows the binding of nick and CID. *)
Definition identityWelcome (h : Hub) (peer : adcPeer) (u0 : User) : prog (option error) :=
  let u := if decide (Ip4 u0 = "") then set_Ip4 (addr peer) u0 else u0 in
  SetUser peer u ~;;
  err <~ Wire (conn peer)
           (WriteInfoMsg (HubInfo (info_Name h) (info_Version h) (info_Desc h)));;
  match err with
  | Some e => _ <- unbind u;; Ret (Some e)
  | None =>
      _ <~ Wire (conn peer) (WriteInfoMsg (Status Success 0 "powered by Gophers"));;
      l <- Peers;;
      err <- PeersJoin peer l;;
      match err with
      | Some e => _ <- unbind u;; Ret (Some e)
      | None =>
          err <- PeersJoin peer [PeerADC peer];;
          match err with
          | Some e => _ <- unbind u;; Ret (Some e)
          | None =>
              list <- identityAccept peer u;;
              _ <- broadcastUserJoin (PeerADC peer) list;;
              Ret None
          end
      end
  end.

(** Lines 149-285; the arguments of the format strings are dropped.  A
    record without PD leaves [u.Pid] nil, and [u.Pid.Hash()] dereferences
    it. *)
Definition adcStageIdentity (h : Hub) (peer : adcPeer) : prog (option error) :=
  r <~ ReadPacket (conn peer) true;;
  match r with
  | inl err => Ret (Some err)
  | inr (PBroadcast b) =>
      if decide (bcName b ≠ Cmd_User)
      then Ret (Some (fmt_Errorf "expected user info message"))
      else
        match UnmarshalUser (bcData b) with
        | inl err => Ret (Some err)
        | inr u =>
            match Pid u with
            | None => Vis Panic (fun x : Empty_set => match x with end)
            | Some pid =>
                if decide (Id u ≠ PidHash pid) then
                  _ <- sendError peer Fatal 27 (errors_New "invalid pid supplied");;
                  Ret (Some (errors_New "invalid pid supplied"))
                else
                  let u := set_Pid None u in
                  if decide (Name u = "") then
                    _ <- sendError peer Fatal 21 (errors_New "invalid nick");;
                    Ret (Some (errors_New "invalid nick"))
                  else
                    err <- identityPeek peer u;;
                    match err with
                    | Some e => Ret (Some e)
                    | None =>
                        err <- identityBind peer u;;
                        match err with
                        | Some e => Ret (Some e)
                        | None => identityWelcome h peer u
                        end
                    end
            end
        end
  | inr _ => Ret (Some (fmt_Errorf "expected user info broadcast"))
  end.

End Hub.

(** ** Vocabulary of the statements *)

(** The events of a sequence of writes on one connection that stops at the
    first failure. *)
Fixpoint attempts (c : Conn) (ops : list wire_op) (fs : list bool) : list event :=
  match ops with
  | [] => []
  | o :: ops' =>
      if hd false fs then [EvWire c o false]
      else EvWire c o true :: attempts c ops' (tail fs)
  end.

(** What an operation can answer, whatever the world. *)
Definition may_answer {X} (e : op X) : X -> Prop :=
  match e in op X return X -> Prop with
  | Wire _ _ => fun x => x = None \/ x = Some ErrTransport
  | _ => fun _ => True
  end.

(** Every value the program can return satisfies [P]. *)
Fixpoint returns {A} (P : A -> Prop) (p : prog A) : Prop :=
  match p with
  | Ret a => P a
  | Vis e k => forall x, may_answer e x -> returns P (k x)
  end.

(** Every operation the program can reach satisfies [ok]. *)
Fixpoint uses {A} (ok : forall X, op X -> bool) (p : prog A) : Prop :=
  match p with
  | Ret _ => True
  | Vis e k => ok _ e = true /\ forall x, uses ok (k x)
  end.

Definition not_SetUser {X} (e : op X) : bool :=
  match e with SetUser _ _ => false | _ => true end.

Definition not_lock {X} (e : op X) : bool :=
  match e with Lock | Unlock | RLock | RUnlock => false | _ => true end.

Definition errInvalidPid : error := errors_New "invalid pid supplied".
Definition errCIDTaken : error := errors_New "CID taken".

Definition transport_or_nil (r : option error) : Prop :=
  r = None \/ r = Some ErrTransport.

Definition not_invalid_pid (r : option error) : Prop := r <> Some errInvalidPid.

(** The record line 233 stores, from the record that passed the checks. *)
Definition with_addr (a : string) (u : User) : User :=
  if decide (Ip4 u = "") then set_Ip4 a u else u.

Definition nameTaken (r : Registry) (u : User) : Prop :=
  Name u ∈ logging r \/ is_Some (byName r !! Name u).

Definition cidTaken (r : Registry) (u : User) : Prop :=
  Id u ∈ loggingCID r \/ is_Some (byCID r !! Id u).

(** The registry with nick and CID of [u] reserved. *)
Definition reserved (u : User) (r : Registry) : Registry :=
  mkRegistry (bySID r) (byCID r) (byName r)
             ({[Name u]} ∪ logging r) ({[Id u]} ∪ loggingCID r).

(** The events of [sendError] with a fatal status. *)
Definition status_events (p : adcPeer) (code : N) (e : error) (fs : list bool)
  : list event :=
  attempts (conn p) [WriteInfoMsg (Status Fatal code (Error e)); Flush] fs.

(** The events a run added to the log. *)
Definition since (w w' : World) : list event :=
  drop (length (trace w)) (trace w').

(** The registry after lines 266-279 have run on [r]: [pu] is the record
    cached on the peer, [u] the record the stage holds. *)
Definition accepted (peer : adcPeer) (u pu : User) (r : Registry) : Registry :=
  mkRegistry (<[sid peer := PeerADC peer]> (bySID r))
             (<[Id u := peer]> (byCID r))
             (<[Name u := PeerADC peer]> (byName r))
             (logging r ∖ {[Name pu]})
             (loggingCID r ∖ {[Id u]}).

(** The peer is in none of the three indices, or in all three under its
    own keys. *)
Definition in_no_index (p : adcPeer) (r : Registry) : Prop :=
  (forall s, bySID r !! s <> Some (PeerADC p)) /\
  (forall c, byCID r !! c <> Some p) /\
  (forall n, byName r !! n <> Some (PeerADC p)).

Definition in_all_indices (p : adcPeer) (u : User) (r : Registry) : Prop :=
  bySID r !! sid p = Some (PeerADC p) /\
  byCID r !! Id u = Some p /\
  byName r !! Name u = Some (PeerADC p).

(** *** Goroutines side by side *)

(** One step of a goroutine; [None] when it has returned, waits for the
    lock or has crashed. *)
Definition tstep {A} (p : prog A) (w : World) : option (prog A * World) :=
  match p with
  | Ret _ => None
  | Vis e k =>
      match step e w with
      | Stepped x w' => Some (k x, w')
      | _ => None
      end
  end.

(** Two goroutines on one world: at each step one of them moves. *)
Inductive par_step {A B} : prog A * prog B * World -> prog A * prog B * World -> Prop :=
| par_left (p p' : prog A) (q : prog B) (w w' : World) :
    tstep p w = Some (p', w') -> par_step (p, q, w) (p', q, w')
| par_right (p : prog A) (q q' : prog B) (w w' : World) :
    tstep q w = Some (q', w') -> par_step (p, q, w) (p, q', w').

Definition is_unlock {X} (e : op X) : bool :=
  match e with Unlock => true | _ => false end.

Definition is_ret {A} (p : prog A) : Prop :=
  match p with Ret _ => True | Vis _ _ => False end.

(** A program that holds the exclusive lock: it touches no lock until the
    [Unlock] after which it returns. *)
Fixpoint critical {A} (p : prog A) : Prop :=
  match p with
  | Ret _ => False
  | Vis e k =>
      (is_unlock e = true /\ forall x, is_ret (k x)) \/
      (not_lock e = true /\ forall x, critical (k x))
  end.

(** Where a [locked_read] stands, given what it may have seen. *)
Definition reader_at {X} (q : query X) (seen : X -> Prop) (t : prog X) (w : World) : Prop :=
  (t = locked_read q /\ mu w = unlocked) \/
  (t = (x <~ Load q;; RUnlock ~;; Ret x) /\ mu w = mkMutex false 1) \/
  (exists x, t = (RUnlock ~;; Ret x) /\ mu w = mkMutex false 1 /\ seen x) \/
  (exists x, t = Ret x /\ mu w = unlocked /\ seen x).

(** What holds while a critical section and a locked read share the world:
    the section has not started, is under way, or is over. *)
Definition atomic_inv {A X} (q : query X) (w0 : World) (r1 : Registry)
    (body : unit -> prog A) (s : prog A * prog X * World) : Prop :=
  let '(p, t, w) := s in
  env w = [] /\
  ((p = Vis Lock body /\ peers w = peers w0 /\ users w = users w0 /\
    reader_at q (fun x => x = ask q (peers w0)) t w) \/
   (critical p /\ peers (snd (exec p w)) = r1 /\ mu w = mkMutex true 0 /\
    (t = locked_read q \/ t = Ret (ask q (peers w0)))) \/
   (is_ret p /\ peers w = r1 /\
    reader_at q (fun x => x = ask q (peers w0) \/ x = ask q r1) t w)).

Definition errNoBASE : error := fmt_Errorf "client does not support BASE".
Definition errNoTIGR : error := fmt_Errorf "client does not support TIGR".

(** None of the first [n] writes fails. *)
Definition writes_ok (n : nat) (fs : list bool) : bool :=
  forallb negb (take n fs).

(** What was asked of the connections, whether or not it succeeded. *)
Definition wire_attempt (e : event) : option (Conn * wire_op) :=
  match e with
  | EvWire c o _ => Some (c, o)
  | _ => None
  end.

Definition wire_attempts (evs : list event) : list (Conn * wire_op) :=
  omap wire_attempt evs.

(** A broadcast packet written and flushed to each ADC peer of a list. *)
Definition deliveries (b : BroadcastPacket) (l : list Peer) : list (Conn * wire_op) :=
  flat_map (fun q => match q with
                     | PeerADC a => [(conn a, WritePacket (PBroadcast b)); (conn a, Flush)]
                     | PeerOther _ => []
                     end) l.

(** The peers of the sibling protocol in a list. *)
Definition others (l : list Peer) : list otherPeer :=
  omap (fun q => match q with PeerADC _ => None | PeerOther o => Some o end) l.

(** The events of the loop of [adcBroadcast]. *)
Fixpoint fanout_events (b : BroadcastPacket) (l : list Peer) (fs : list bool) : list event :=
  match l with
  | [] => []
  | PeerADC a :: rest =>
      EvWire (conn a) (WritePacket (PBroadcast b)) (negb (hd false fs)) ::
      EvWire (conn a) Flush (negb (hd false (tail fs))) ::
      fanout_events b rest (tail (tail fs))
  | PeerOther _ :: rest => fanout_events b rest fs
  end.

(** The packets the serving loop routes. *)
Definition is_routed (p : Packet) : bool :=
  match p with
  | PBroadcast _ | PEcho _ | PDirect _ => true
  | PInfo _ | PHub _ => false
  end.

(** Why an iteration of the serving loop returned [r], from what the
    connection delivered; on a connection that delivers nothing it does not
    return. *)
Definition stop_cause (peer : adcPeer) (w : World) (r : option error) : Prop :=
  match inbox w !! conn_id (conn peer) with
  | None | Some [] => False
  | Some (inl io_EOF :: _) => r = None
  | Some (inl e :: _) => r = Some e
  | Some (inr (PBroadcast b) :: _) =>
      sid peer <> bcID b /\ r = Some (fmt_Errorf "malformed broadcast")
  | Some (inr (PEcho d) :: _) =>
      (sid peer <> dID d /\ r = Some (fmt_Errorf "malformed echo packet")) \/
      (sid peer = dID d /\ writes_ok 2 (faults w) = false /\ r = Some ErrTransport)
  | Some (inr (PDirect d) :: _) =>
      sid peer <> dID d /\ r = Some (fmt_Errorf "malformed direct packet")
  | Some (inr (PInfo _) :: _) | Some (inr (PHub _) :: _) => False
  end.

(** Operations that always go through and leave lock and registry alone. *)
Definition never_stuck {X} (e : op X) : bool :=
  match e with
  | Lock | Unlock | RLock | RUnlock | Panic | Store _ => false
  | ReadPacket _ deadline => deadline
  | _ => true
  end.

(** ** A small hub to run the code on

    A stand-in codec: the hash of a PID is its successor, and the payloads
    understood are the few listed here. *)
Definition ex_user (s : string) : error + User :=
  if decide (s = "alice") then inr (mkUser 8 (Some 7) "alice" "" "" "")
  else if decide (s = "bob") then inr (mkUser 12 (Some 11) "bob" "dc" "1.0" "10.0.0.2")
  else if decide (s = "mallory") then inr (mkUser 8 (Some 3) "mallory" "" "" "")
  else inl (fmt_Errorf "cannot unmarshal user").

Definition ex_features (s : string) : error + gmap string bool :=
  if decide (s = "ADBASE ADTIGR")
  then inr (<[FeaBASE := true]> (<[FeaTIGR := true]> ∅))
  else if decide (s = "ADBASE") then inr (<[FeaBASE := true]> ∅)
  else if decide (s = "ADTIGR") then inr (<[FeaTIGR := true]> ∅)
  else inl (fmt_Errorf "cannot unmarshal features").

Definition ex_decode (name data : string) : error + Message :=
  if decide (name = "MSG") then inr (ChatMessage data)
  else inl (fmt_Errorf "cannot decode").

Definition ex_codec : Codec :=
  Build_Codec (fun p => p + 1) (fun s => N.of_nat (String.length s))
              ex_features ex_user ex_decode.

Definition ex_hub : Hub := mkHub "GoTestHub" "0.1" "Hybrid hub".
Definition ex_conn : Conn := mkConn 1 "10.0.0.1:4111".
Definition ex_peer : adcPeer :=
  mkPeer "10.0.0.1:4111" 1 ex_conn (<[FeaBASE := true]> (<[FeaTIGR := true]> ∅)) 0.

(** An empty hub whose lock is free, where [ex_conn] will deliver [pkts]
    and the writes fail as [fs] says. *)
Definition ex_world (pkts : list (error + Packet)) (fs : list bool) : World :=
  mkWorld Registry0 unlocked 1 1 ∅ (<[1 := pkts]> ∅) fs [] [].

Definition inf_packet (s : SID) (data : string) : error + Packet :=
  inr (PBroadcast (mkBroadcast s Cmd_User data)).

Definition ex_alice : User := mkUser 8 None "alice" "" "" "10.0.0.1:4111".

(** The small hub on some registry. *)
Definition ex_world_in (r : Registry) (pkts : list (error + Packet)) (fs : list bool)
  : World :=
  mkWorld r unlocked 1 1 (<[0 := ex_alice]> ∅) (<[1 := pkts]> ∅) fs [] [].

(** The registry once alice is admitted, and while she is only reserved. *)
Definition ex_admitted : Registry := accepted ex_peer ex_alice ex_alice Registry0.
Definition ex_reserved : Registry := reserved ex_alice Registry0.

Definition ex_hello : BroadcastPacket := mkBroadcast 1 "MSG" "hello".

(** ** The rest of the hub, and the pinger *)

(** The originator SID a routed packet carries. *)
Definition packet_sid (p : Packet) : option SID :=
  match p with
  | PBroadcast b => Some (bcID b)
  | PDirect d | PEcho d => Some (dID d)
  | PInfo _ | PHub _ => None
  end.

(** Lines 421-430. *)
Fixpoint PeersLeave (p : adcPeer) (peers : list Peer) : prog (option error) :=
  match peers with
  | [] => Vis (Wire (conn p) Flush) Ret
  | peer :: rest =>
      err <~ Wire (conn p) (WriteInfoMsg (Disconnect (Peer_SID peer)));;
      match err with
      | Some e => Ret (Some e)
      | None => PeersLeave p rest
      end
  end.

(** What a run of writes that stops at the first failure returns. *)
Definition writes_result (n : nat) (fs : list bool) : option error :=
  if writes_ok n fs then None else Some ErrTransport.

(** What [PeersJoin] and [PeersLeave] ask of the connection, in order. *)
Definition leave_ops (peers : list Peer) : list wire_op :=
  ((fun peer => WriteInfoMsg (Disconnect (Peer_SID peer))) <$> peers) ++ [Flush].

(** The record [PeersJoin] sends for a peer: the cached one of an ADC
    peer, a synthesized one otherwise. *)
Definition join_info {codec : Codec} (w : World) (peer : Peer) : User :=
  match peer with
  | PeerADC a => user_of w a
  | PeerOther q =>
      mkUser (HashBytes (o_addr q)) None (o_name q)
             (soft_Name (o_soft q)) (soft_Vers (o_soft q)) ""
  end.

Definition join_ops {codec : Codec} (w : World) (peers : list Peer) : list wire_op :=
  ((fun peer => WriteBroadcast (Peer_SID peer) (UserInf (join_info w peer))) <$> peers)
  ++ [Flush].

(** What the next [ReadPacket] with a deadline returns on a connection. *)
Definition next_read (w : World) (c : Conn) : error + Packet :=
  match inbox w !! conn_id c with
  | Some (x :: _) => x
  | _ => inl ErrTransport
  end.

(** The user record the Identity stage gets out of its first read, if the
    read gives a user-info broadcast that unmarshals. *)
Definition first_user {codec : Codec} (x : error + Packet) : option User :=
  match x with
  | inr (PBroadcast b) =>
      if decide (bcName b = Cmd_User)
      then match UnmarshalUser (bcData b) with
           | inr u => Some u
           | inl _ => None
           end
      else None
  | _ => None
  end.

(** The registry with the reservations of nick and CID of [u] dropped. *)
Definition released (u : User) (r : Registry) : Registry :=
  mkRegistry (bySID r) (byCID r) (byName r)
             (logging r ∖ {[Name u]}) (loggingCID r ∖ {[Id u]}).

(** The registry with the peer in the three indices. *)
Definition indexed (peer : adcPeer) (u : User) (r : Registry) : Registry :=
  mkRegistry (<[sid peer := PeerADC peer]> (bySID r))
             (<[Id u := peer]> (byCID r))
             (<[Name u := PeerADC peer]> (byName r))
             (logging r) (loggingCID r).

(** No nick and no CID is both reserved and indexed. *)
Definition reservations_apart (r : Registry) : Prop :=
  (forall n, n ∈ logging r -> byName r !! n = None) /\
  (forall c, c ∈ loggingCID r -> byCID r !! c = None).

(** The features the Protocol stage gets out of its first read, if the read
    gives a SUP hub packet that unmarshals. *)
Definition first_features {codec : Codec} (x : error + Packet) : option (gmap string bool) :=
  match x with
  | inr (PHub hp) =>
      if decide (bName hp = Cmd_Supported)
      then match UnmarshalSupported (bData hp) with
           | inr sup => Some sup
           | inl _ => None
           end
      else None
  | _ => None
  end.

(** User records the hub marshals onto a wire, and records it caches, with
    no PID in them.  A packet written as it came ([WritePacket]: the
    fan-out, the direct delivery, the echo) is the client's text, not a
    record the hub marshals, and nothing is said of it. *)
Definition message_pid_free (m : Message) : Prop :=
  match m with
  | UserInf u => Pid u = None
  | _ => True
  end.

Definition wire_marshals_no_pid (o : wire_op) : Prop :=
  match o with
  | WriteInfoMsg m | WriteBroadcast _ m | WriteDirect _ _ m => message_pid_free m
  | WritePacket _ | Flush => True
  end.

Definition marshals_no_pid (e : event) : Prop :=
  match e with
  | EvWire _ o _ => wire_marshals_no_pid o
  | _ => True
  end.

Definition no_pid_cached (w : World) : Prop :=
  forall k u, users w !! k = Some u -> Pid u = None.

Definition op_pid_free {X} (e : op X) : Prop :=
  match e with
  | SetUser _ u => Pid u = None
  | Wire _ o => wire_marshals_no_pid o
  | _ => True
  end.

Definition answer_pid_free {X} (e : op X) : X -> Prop :=
  match e in op X return X -> Prop with
  | GetUser _ => fun u => Pid u = None
  | _ => fun _ => True
  end.

(** A program that caches no PID and marshals none, as long as it reads
    none from the cache. *)
Fixpoint pid_free {A} (p : prog A) : Prop :=
  match p with
  | Ret _ => True
  | Vis e k => op_pid_free e /\ forall x, answer_pid_free e x -> pid_free (k x)
  end.

(** No user record marshalled past the events of [w0] carries a PID, and
    no cached record holds one. *)
Definition pid_free_since (w0 w : World) : Prop :=
  no_pid_cached w /\
  exists evs, trace w = (trace w0 ++ evs)%list /\ Forall marshals_no_pid evs.

(** *** Closing a peer

    [Close] needs what the programs above never touch: the flag
    [p.closed], the closing of a connection and the deletion of registry
    entries.  The hub's state is extended with them and [Close] and
    [ServeADC] pass it along. *)
Record Hubstate : Type := mkHubstate {
  world : World;
  closed : gset N;                        (* p.closed, by ref *)
  wire_closes : list Conn;                (* calls of conn.Close(), oldest first *)
  close_faults : list bool;               (* true: the next conn.Close() fails *)
  leaves : list (otherPeer * list Peer)   (* PeersLeave on sibling-protocol peers *)
}.

Definition with_world (w : World) (s : Hubstate) : Hubstate :=
  mkHubstate w (closed s) (wire_closes s) (close_faults s) (leaves s).

(** [conn.Close()]. *)
Definition conn_Close (c : Conn) (s : Hubstate) : option error * Hubstate :=
  (wire_result (close_faults s),
   mkHubstate (world s) (closed s) (wire_closes s ++ [c]) (tail (close_faults s))
              (leaves s)).

(** Lines 388-390: the three deletions. *)
Definition removed (p : adcPeer) (u : User) (r : Registry) : Registry :=
  mkRegistry (delete (sid p) (bySID r)) (delete (Id u) (byCID r))
             (delete (Name u) (byName r)) (logging r) (loggingCID r).

(** [PeersLeave] through the [Peer] interface; the caller drops the error. *)
Definition Peer_PeersLeave (q : Peer) (peers : list Peer) (s : Hubstate) : Hubstate :=
  match q with
  | PeerADC a => with_world (snd (exec (PeersLeave a peers) (world s))) s
  | PeerOther o =>
      mkHubstate (world s) (closed s) (wire_closes s) (close_faults s)
                 (leaves s ++ [(o, peers)])
  end.

(** Modelled from the spec: [broadcastUserLeave], which hub.go defines,
    sends the leave notification for the peer to every peer of the
    snapshot. *)
Fixpoint broadcastUserLeave (peer : Peer) (notify : list Peer) (s : Hubstate) : Hubstate :=
  match notify with
  | [] => s
  | q :: rest => broadcastUserLeave peer rest (Peer_PeersLeave q [peer] s)
  end.

(** Lines 377-396; the per-peer lock is left out, as in [Info]. *)
Definition Close (p : adcPeer) (s : Hubstate) : outcome (option error) * Hubstate :=
  if decide (ref p ∈ closed s) then (Done None, s)
  else
    let (err, s0) := conn_Close (conn p) s in
    let s1 := mkHubstate (world s0) ({[ref p]} ∪ closed s0) (wire_closes s0)
                         (close_faults s0) (leaves s0) in
    let u := user_of (world s1) p in
    match step Lock (world s1) with
    | Stepped _ w1 =>
        let w2 := set_peers (removed p u (peers w1)) w1 in
        let notify := listPeers (peers w2) in
        match step Unlock w2 with
        | Stepped _ w3 =>
            (Done err, broadcastUserLeave (PeerADC p) notify (with_world w3 s1))
        | Blocked => (Deadlock, with_world w2 s1)
        | Crashed => (Panicked, with_world w2 s1)
        end
    | Blocked => (Deadlock, s1)
    | Crashed => (Panicked, s1)
    end.

(** Lines 448-454. *)
Definition HubChatMsg (p : adcPeer) (text : string) : prog (option error) :=
  err <~ Wire (conn p) (WriteInfoMsg (ChatMessage text));;
  match err with
  | Some e => Ret (Some e)
  | None => Vis (Wire (conn p) Flush) Ret
  end.

(** Modelled from the spec: [sendMOTD], which hub.go defines, sends one
    hub chat message, the text being the operator's. *)
Definition sendMOTD (motd : string) (peer : adcPeer) : prog (option error) :=
  HubChatMsg peer motd.

Section Serve.
Context {codec : Codec}.

(** Lines 39-43: what [ServeADC] does once the peer is registered. *)
Definition serving (fuel : nat) (motd : string) (peer : adcPeer)
  : prog (option (option error)) :=
  err <- sendMOTD motd peer;;
  match err with
  | Some e => Ret (Some (Some e))
  | None => adcServePeer fuel peer
  end.

(** Lines 21-44.  [nc] is what [adc.NewConn] returned; the result is
    [None] when the fuel of the serving loop ran out, in which case nothing
    deferred has run.  Deferred calls run last in, first out, also when
    the goroutine panics. *)
Definition ServeADC (fuel : nat) (h : Hub) (motd : string) (nc : error + Conn)
    (s : Hubstate) : outcome (option (option error)) * Hubstate :=
  match nc with
  | inl err => (Done (Some (Some err)), s)
  | inr c =>
      match exec (adcStageProtocol c) (world s) with
      | (Done (inl err), w1) =>
          (Done (Some (Some err)), snd (conn_Close c (with_world w1 s)))
      | (Done (inr peer), w1) =>
          match exec (adcStageIdentity h peer) w1 with
          | (Done (Some err), w2) =>
              (Done (Some (Some err)), snd (conn_Close c (with_world w2 s)))
          | (Done None, w2) =>
              match exec (serving fuel motd peer) w2 with
              | (Done None, w3) => (Done None, with_world w3 s)
              | (Done (Some r), w3) =>
                  match Close peer (with_world w3 s) with
                  | (Done _, s4) => (Done (Some r), snd (conn_Close c s4))
                  | (Deadlock, s4) => (Deadlock, s4)
                  | (Panicked, s4) => (Panicked, snd (conn_Close c s4))
                  end
              | (Deadlock, w3) => (Deadlock, with_world w3 s)
              | (Panicked, w3) =>
                  (Panicked,
                   snd (conn_Close c (snd (Close peer (with_world w3 s)))))
              end
          | (Deadlock, w2) => (Deadlock, with_world w2 s)
          | (Panicked, w2) => (Panicked, snd (conn_Close c (with_world w2 s)))
          end
      | (Deadlock, w1) => (Deadlock, with_world w1 s)
      | (Panicked, w1) => (Panicked, snd (conn_Close c (with_world w1 s)))
      end
  end.

End Serve.

(** Every SID in [bySID] has been handed out by the allocator. *)
Definition sids_allocated (w : World) : Prop :=
  forall s p, bySID (peers w) !! s = Some p -> s <= lastSID w.

(** An example state: the small hub with nothing closed yet. *)
Definition ex_state (w : World) : Hubstate := mkHubstate w ∅ [] [] [].

(** The leave notice for [peer] on the connection of [a]. *)
Definition leave_notice (peer : Peer) (a : adcPeer) : Conn * wire_op :=
  (conn a, WriteInfoMsg (Disconnect (Peer_SID peer))).

(** What [broadcastUserLeave] asks of the sibling-protocol peers. *)
Definition foreign_leaves (peer : Peer) (notify : list Peer)
  : list (otherPeer * list Peer) :=
  omap (fun q => match q with
                 | PeerOther o => Some (o, [peer])
                 | PeerADC _ => None
                 end) notify.

(** Closed peers are objects that were allocated. *)
Definition closed_allocated (s : Hubstate) : Prop :=
  forall r, r ∈ closed s -> r < nextRef (world s).

(** What sending the leave notices does to the state: only the log and the
    script of faults move. *)
Definition same_hub (w w' : World) : Prop :=
  peers w' = peers w /\ mu w' = mu w /\ users w' = users w /\ env w' = env w /\
  lastSID w' = lastSID w /\ nextRef w' = nextRef w.

(** ** The pinger (package dc, ping.go)

    [Ping] asks a hub for its description.  The context argument is
    dropped: cancellation is not modelled.  A nil slice and an empty one
    are both the empty list. *)
Module Dc.

(** Lines 75-79. *)
Record Software : Type := mkSoftware {
  sw_Name : string;
  sw_Vers : string;
  sw_Ext : list string
}.

(** Lines 68-72; [Share] is a [uint64]. *)
Record HubUser : Type := mkHubUser {
  hu_Name : string;
  hu_Client : option Software;
  hu_Share : N
}.

(** Lines 59-66; [Uptime] is a [time.Duration]. *)
Record HubInfo : Type := mkHubInfo {
  hi_Name : string;
  hi_Desc : string;
  hi_Server : option Software;
  hi_Addr : list string;
  hi_Uptime : Z;
  hi_Users : list HubUser
}.

(** What [nmdc.Ping] returns, as far as lines 31-51 read it. *)
Record NmdcSoftware : Type := mkNmdcSoftware { ns_Name : string; ns_Vers : string }.

Record NmdcUser : Type := mkNmdcUser {
  nu_Name : string;
  nu_ShareSize : N;
  nu_Client : string;
  nu_Version : string
}.

Record NmdcHub : Type := mkNmdcHub {
  nh_Name : string;
  nh_Topic : string;
  nh_Server : NmdcSoftware;
  nh_Ext : list string;
  nh_Users : list NmdcUser
}.

(** [strings.Index]: the byte offset of the first occurrence, or -1. *)
Definition Index (s sep : string) : Z :=
  match String.index 0 sep s with
  | Some n => Z.of_nat n
  | None => (-1)%Z
  end.

(** [s[:n]]; [None] when the bound is out of range, where Go panics. *)
Definition slice_to (s : string) (n : Z) : option string :=
  if decide (0 <= n <= Z.of_nat (String.length s))%Z
  then Some (String.substring 0 (Z.to_nat n) s)
  else None.

(** Lines 43-50: one [HubUser] per user of the hub. *)
Definition hub_user (u : NmdcUser) : HubUser :=
  mkHubUser (nu_Name u) (Some (mkSoftware (nu_Client u) (nu_Version u) []))
            (nu_ShareSize u).

(** Lines 40-51: the loop appends to a slice that starts empty. *)
Definition append_users (users : list NmdcUser) : list HubUser :=
  fold_left (fun acc u => (acc ++ [hub_user u])%list) users [].

(** Lines 31-51. *)
Definition hub_info (addr : string) (hub : NmdcHub) : HubInfo :=
  mkHubInfo (nh_Name hub) (nh_Topic hub)
            (Some (mkSoftware (ns_Name (nh_Server hub)) (ns_Vers (nh_Server hub))
                              (nh_Ext hub)))
            [addr] 0%Z (append_users (nh_Users hub)).

Section Ping.

(** [Probe], the two schema constants and [nmdc.Ping] are defined outside
    ping.go, [%q] formats with [strconv.Quote]. *)
Variable Probe : string -> error + string.
Variable nmdc_Ping : string -> error + NmdcHub.
Variables nmdcSchema nmdcsSchema : string.
Variable Quote : string -> string.

Definition errUnsupported (addr : string) : error :=
  fmt_Errorf ("unsupported protocol: " ++ Quote addr).

(** Lines 15-23: the address the switch looks at, and the offset of its
    scheme separator. *)
Definition resolve (addr : string) : error + (string * Z) :=
  let i := Index addr "://" in
  if decide (i < 0)%Z
  then match Probe addr with
       | inl err => inl err
       | inr s => inr (s, Index s "://")
       end
  else inr (addr, i).

(** Lines 13-57. *)
Definition Ping (addr : string) : outcome (error + HubInfo) :=
  match resolve addr with
  | inl err => Done (inl err)
  | inr (addr, i) =>
      match slice_to addr (i + 3) with
      | None => Panicked
      | Some scheme =>
          if decide (scheme = nmdcSchema \/ scheme = nmdcsSchema)
          then match nmdc_Ping addr with
               | inl err => Done (inl err)
               | inr hub => Done (inr (hub_info addr hub))
               end
          else Done (inl (errUnsupported addr))
      end
  end.

End Ping.

End Dc.

(** ** More of the small hub *)

(** A codec whose every user record has an empty nick. *)
Definition ex_codec_anon : Codec :=
  Build_Codec (fun p => p + 1) (fun s => N.of_nat (String.length s))
              ex_features (fun _ => inr (mkUser 8 (Some 7) "" "" "" "")) ex_decode.

(** The remote IP address of a transport: the string form of a TCP
    address reads host:port, and the IP is the host, the text before the
    colon. *)
Fixpoint remote_ip (a : string) : string :=
  match a with
  | EmptyString => EmptyString
  | String c rest =>
      if decide (String c EmptyString = ":") then EmptyString
      else String c (remote_ip rest)
  end.

(** A codec whose every user record comes without PD. *)
Definition ex_codec_bare : Codec :=
  Build_Codec (fun p => p + 1) (fun s => N.of_nat (String.length s))
              ex_features (fun _ => inr (mkUser 9 None "carol" "" "" "")) ex_decode.

(** A second connection, its peer and its user. *)
Definition ex_conn2 : Conn := mkConn 2 "10.0.0.2:4111".
Definition ex_peer2 : adcPeer := mkPeer "10.0.0.2:4111" 2 ex_conn2 ∅ 1.
Definition ex_bob : User := mkUser 12 None "bob" "dc" "1.0" "10.0.0.2".

(** Alice and bob both admitted, and the hub they are on. *)
Definition ex_both : Registry := accepted ex_peer2 ex_bob ex_bob ex_admitted.
Definition ex_world_both : World :=
  mkWorld ex_both unlocked 2 2 (<[1 := ex_bob]> (<[0 := ex_alice]> ∅)) ∅ [] [] [].

(** A fresh hub on which a client is about to say SUP and INF and hang
    up. *)
Definition ex_session : list (error + Packet) :=
  [inr (PHub (mkBase Cmd_Supported "ADBASE ADTIGR")); inf_packet 2 "alice";
   inl io_EOF].

(** What the pinger is run against: no prober, and one NMDC hub with two
    users that answers on every address. *)
Definition ex_nmdc_hub : Dc.NmdcHub :=
  Dc.mkNmdcHub "TestHub" "topic" (Dc.mkNmdcSoftware "PtokaX" "0.5") ["NoHello"]
               [Dc.mkNmdcUser "alice" 1024 "dc" "1.0"; Dc.mkNmdcUser "bob" 0 "" ""].
Definition ex_no_probe (addr : string) : error + string := inl ErrTransport.
Definition ex_probe_short (addr : string) : error + string := inr "x".
Definition ex_nmdc_ping (addr : string) : error + Dc.NmdcHub := inr ex_nmdc_hub.
Definition ex_nmdc_down (addr : string) : error + Dc.NmdcHub := inl io_EOF.
Definition ex_ping (probe : string -> error + string)
    (ping : string -> error + Dc.NmdcHub) (addr : string)
  : outcome (error + Dc.HubInfo) :=
  Dc.Ping probe ping "nmdc://" "nmdcs://" (fun s => s) addr.

(** What was asked of the peers of the sibling protocol. *)
Definition foreign_call (e : event) : option (otherPeer * other_call) :=
  match e with
  | EvOther q c => Some (q, c)
  | _ => None
  end.

Definition foreign_calls (evs : list event) : list (otherPeer * other_call) :=
  omap foreign_call evs.

(** ** Basic facts about running programs *)

Lemma exec_bind {A B} (p : prog A) (f : A -> prog B) (w : World) :
  exec (bind p f) w =
  match exec p w with
  | (Done a, w') => exec (f a) w'
  | (Deadlock, w') => (Deadlock, w')
  | (Panicked, w') => (Panicked, w')
  end.
Proof.
  revert w; induction p as [a|X e k IH]; intros w; simpl; [done|].
  destruct (step e w); auto.
Qed.

Lemma step_may_answer {X} (e : op X) (w w' : World) (x : X) :
  step e w = Stepped x w' -> may_answer e x.
Proof.
  destruct e; simpl; try done.
  intros [= <- _]. unfold wire_result. destruct (hd false (faults w)); auto.
Qed.

Lemma returns_exec {A} (P : A -> Prop) (p : prog A) :
  returns P p -> forall w a w', exec p w = (Done a, w') -> P a.
Proof.
  induction p as [a|X e k IH]; simpl; intros Hr w a' w' He.
  - by injection He as <- _.
  - destruct (step e w) as [x w1| |] eqn:Hs; try done.
    eapply IH; [|exact He]. apply Hr. eapply step_may_answer, Hs.
Qed.

Lemma returns_bind {A B} (Q : A -> Prop) (P : B -> Prop) (p : prog A) (f : A -> prog B) :
  returns Q p -> (forall a, Q a -> returns P (f a)) -> returns P (bind p f).
Proof.
  induction p as [a|X e k IH]; simpl; intros Hq Hf; [auto|].
  intros x Hx. apply IH; auto.
Qed.

Lemma returns_any {A} (p : prog A) : returns (fun _ => True) p.
Proof. induction p; simpl; auto. Qed.

Lemma uses_bind {A B} ok (p : prog A) (f : A -> prog B) :
  uses ok p -> (forall a, uses ok (f a)) -> uses ok (bind p f).
Proof.
  induction p as [a|X e k IH]; simpl; intros Hp Hf; [auto|].
  destruct Hp as [He Hk]. split; [done|]. intros x. apply IH; auto.
Qed.

Lemma exec_users {A} (p : prog A) (w : World) :
  uses (@not_SetUser) p -> users (snd (exec p w)) = users w.
Proof.
  revert w; induction p as [a|X e k IH]; simpl; intros w Hu; [done|].
  destruct Hu as [He Hk].
  destruct (step e w) as [x w1| |] eqn:Hs; try done.
  rewrite IH by auto.
  destruct e; simpl in *; try done;
    repeat match type of Hs with
           | context [if ?b then _ else _] => destruct b
           | context [match ?b with _ => _ end] => destruct b
           end; by inversion Hs.
Qed.

Ltac uses_tac :=
  repeat match goal with
  | |- uses _ (Ret _) => exact I
  | |- uses _ (Vis _ _) => cbn [uses]
  | |- _ /\ _ => split
  | |- forall _, _ => intros ?
  | |- _ = true => reflexivity
  | |- True => exact I
  | |- uses _ (bind _ _) => apply uses_bind; [|intros ?]
  | |- uses _ (if ?b then _ else _) => destruct b
  | |- uses _ (match ?x with _ => _ end) => destruct x
  end.

(** ** The Identity stage *)

Lemma since_app (w w' : World) (evs : list event) :
  trace w' = (trace w ++ evs)%list -> since w w' = evs.
Proof. intros E. unfold since. by rewrite E, drop_app_length. Qed.

Lemma orb_decide (P Q : Prop) `{Decision P, Decision Q} :
  bool_decide P || bool_decide Q = true <-> P \/ Q.
Proof. by rewrite orb_true_iff, !bool_decide_eq_true. Qed.

Lemma returns_weaken {A} (P Q : A -> Prop) (p : prog A) :
  (forall a, P a -> Q a) -> returns P p -> returns Q p.
Proof. induction p; simpl; auto. Qed.

Lemma returns_then {A B} (p : prog A) (b : B) (P : B -> Prop) :
  P b -> returns P (_ <- p;; Ret b).
Proof. intros HP. eapply returns_bind; [apply returns_any|]. by intros. Qed.

Lemma exec_sendError_then {A} p sev code e (a : A) w :
  let r := exec (_ <- sendError p sev code e;; Ret a) w in
  fst r = Done a /\ peers (snd r) = peers w /\ mu (snd r) = mu w /\
  trace (snd r) =
    (trace w ++ attempts (conn p) [WriteInfoMsg (Status sev code (Error e)); Flush]
                         (faults w))%list.
Proof.
  unfold sendError, sendInfo. cbn [bind exec step]. unfold wire_result.
  destruct (faults w) as [|[] [|[] fs]]; cbn; rewrite <- ?app_assoc; done.
Qed.

Section Identity.
Context {codec : Codec}.

Lemma returns_PeersJoin p l : returns transport_or_nil (PeersJoin p l).
Proof.
  induction l as [|q l IH]; simpl.
  - intros x Hx; exact Hx.
  - destruct q; simpl; intros x Hx; [intros y [-> | ->]|destruct Hx as [-> | ->]];
      simpl; auto; by right.
Qed.

Lemma returns_identityPeek p u : returns not_invalid_pid (identityPeek p u).
Proof.
  unfold identityPeek. cbn [returns]. intros _ _ a _ b _ c _ d _ _ _.
  destruct (a || b); [by apply returns_then|].
  destruct (c || d); [by apply returns_then|]. done.
Qed.

Lemma returns_identityBind p u : returns not_invalid_pid (identityBind p u).
Proof.
  unfold identityBind. cbn [returns]. intros _ _ a _ b _.
  destruct (a || b).
  { cbn [returns]. intros _ _. by apply returns_then. }
  cbn [returns]. intros c _ d _.
  destruct (c || d).
  { cbn [returns]. intros _ _. by apply returns_then. }
  cbn [returns]. by intros.
Qed.

Lemma returns_identityWelcome h p u : returns transport_or_nil (identityWelcome h p u).
Proof.
  unfold identityWelcome. cbn [returns]. intros _ _ x [-> | ->].
  2:{ apply returns_then. by right. }
  intros _ _.
  eapply returns_bind; [apply returns_any|intros l _].
  eapply returns_bind; [apply returns_PeersJoin|intros ? [-> | ->]].
  2:{ apply returns_then. by right. }
  eapply returns_bind; [apply returns_PeersJoin|intros ? [-> | ->]].
  2:{ apply returns_then. by right. }
  eapply returns_bind; [apply returns_any|intros ? _].
  eapply returns_bind; [apply returns_any|intros ? _].
  by left.
Qed.

(** The PID check on a record that supplies a PID: the stage fails with
    "invalid pid supplied" exactly when the Tiger hash of the PID differs
    from the claimed CID; in that case the fatal status 27 is what the hub
    tries to send, the registry is as it was and no lock was taken. *)
Lemma identity_pid_gate (h : Hub) (peer : adcPeer) (w : World)
    (b : BroadcastPacket) (rest : list (error + Packet)) (u : User) (pid : PID) :
  inbox w !! conn_id (conn peer) = Some (inr (PBroadcast b) :: rest) ->
  bcName b = Cmd_User ->
  UnmarshalUser (bcData b) = inr u ->
  Pid u = Some pid ->
  let r := exec (adcStageIdentity h peer) w in
  (fst r = Done (Some errInvalidPid) <-> PidHash pid <> Id u) /\
  (PidHash pid <> Id u ->
     peers (snd r) = peers w /\ mu (snd r) = mu w /\
     trace (snd r) =
       (trace w ++ EvRead (conn peer) :: status_events peer 27 errInvalidPid (faults w))%list).
Proof.
  intros Hin Hcmd Hun Hpid r.
  assert (Hbad : PidHash pid <> Id u ->
     fst r = Done (Some errInvalidPid) /\
     peers (snd r) = peers w /\ mu (snd r) = mu w /\
     trace (snd r) =
       (trace w ++ EvRead (conn peer) :: status_events peer 27 errInvalidPid (faults w))%list).
  { intros Hne. subst r. unfold adcStageIdentity. cbn [exec step]. rewrite Hin.
    cbn [exec]. destruct (decide (bcName b <> Cmd_User)) as [?|_]; [done|].
    rewrite Hun, Hpid.
    destruct (decide (Id u <> PidHash pid)) as [_|Heq]; [|by destruct Heq].
    edestruct (exec_sendError_then (A:=option error)) as (-> & -> & -> & ->).
    cbn. rewrite <- !app_assoc. done. }
  split; [split|]; [|apply Hbad|apply Hbad].
  intros Hr Heq. subst r.
  unfold adcStageIdentity in Hr. cbn [exec step] in Hr. rewrite Hin in Hr.
  cbn [exec] in Hr.
  destruct (decide (bcName b <> Cmd_User)) as [?|_]; [done|].
  rewrite Hun, Hpid in Hr.
  destruct (decide (Id u <> PidHash pid)) as [Hne|_]; [by destruct Hne|].
  destruct (exec _ _) as [[a| |] w'] eqn:He in Hr; try done.
  cbn [fst] in Hr. injection Hr as ->.
  match type of He with exec ?p _ = _ =>
    assert (Hret : returns not_invalid_pid p) end.
  { destruct (decide (Name (set_Pid None u) = "")).
    { by apply returns_then. }
    eapply returns_bind; [apply returns_identityPeek|intros [e|] He1]; [exact He1|].
    eapply returns_bind; [apply returns_identityBind|intros [e|] He2]; [exact He2|].
    eapply returns_weaken; [|apply returns_identityWelcome].
    by intros a [-> | ->]. }
  by apply (returns_exec _ _ Hret _ _ _ He).
Qed.

(** The PID check on a record that supplies none: line 166 calls [Hash] on
    the nil [u.Pid], and the goroutine panics having done nothing but read
    the packet. *)
Lemma identity_nil_pid (h : Hub) (peer : adcPeer) (w : World)
    (b : BroadcastPacket) (rest : list (error + Packet)) (u : User) :
  inbox w !! conn_id (conn peer) = Some (inr (PBroadcast b) :: rest) ->
  bcName b = Cmd_User ->
  UnmarshalUser (bcData b) = inr u ->
  Pid u = None ->
  let r := exec (adcStageIdentity h peer) w in
  fst r = Panicked /\
  trace (snd r) = (trace w ++ [EvRead (conn peer)])%list /\
  peers (snd r) = peers w /\ mu (snd r) = mu w /\ faults (snd r) = faults w.
Proof.
  intros Hin Hcmd Hun Hpid r. subst r. unfold adcStageIdentity. cbn [exec step].
  rewrite Hin. cbn [exec].
  destruct (decide (bcName b <> Cmd_User)) as [?|_]; [done|].
  rewrite Hun, Hpid. cbn. done.
Qed.

Lemma PeersJoin_no_SetUser p l : uses (@not_SetUser) (PeersJoin p l).
Proof.
  induction l as [|q l IH]; cbn [PeersJoin]; [by uses_tac|].
  destruct q; unfold Info; cbn [bind]; uses_tac; done.
Qed.

Lemma broadcastUserJoin_no_SetUser p l : uses (@not_SetUser) (broadcastUserJoin p l).
Proof.
  induction l as [|q l IH]; cbn [broadcastUserJoin]; [by uses_tac|].
  apply uses_bind; [|done].
  destruct q; cbn [Peer_PeersJoin]; [apply PeersJoin_no_SetUser|by uses_tac].
Qed.

Lemma identityWelcome_users h peer u w :
  users (snd (exec (identityWelcome h peer u) w)) =
  <[ref peer := with_addr (addr peer) u]> (users w).
Proof.
  unfold identityWelcome. fold (with_addr (addr peer) u).
  cbn [exec step]. rewrite exec_users; [done|].
  unfold unbind, Peers, locked_read, identityAccept.
  uses_tac; try apply PeersJoin_no_SetUser; try apply broadcastUserJoin_no_SetUser.
Qed.

(** A stage that returns nil has read a user-info broadcast and has stored
    the decoded record, PID cleared and address filled. *)
Lemma stage_done (h : Hub) (peer : adcPeer) (w : World) :
  fst (exec (adcStageIdentity h peer) w) = Done None ->
  exists b rest u,
    inbox w !! conn_id (conn peer) = Some (inr (PBroadcast b) :: rest) /\
    bcName b = Cmd_User /\
    UnmarshalUser (bcData b) = inr u /\
    user_of (snd (exec (adcStageIdentity h peer) w)) peer =
      with_addr (addr peer) (set_Pid None u).
Proof.
  unfold adcStageIdentity. cbn [exec step].
  destruct (inbox w !! conn_id (conn peer)) as [[|[e|p] rest]|] eqn:Hin;
    cbn [exec fst]; try done.
  destruct p as [?|?|b|?|?]; cbn [exec fst]; try done.
  destruct (decide (bcName b <> Cmd_User)) as [?|Hcmd]; cbn [exec fst]; [done|].
  apply dec_stable in Hcmd.
  destruct (UnmarshalUser (bcData b)) as [e|u] eqn:Hun; cbn [exec fst]; [done|].
  destruct (Pid u) as [pid|]; [|done].
  destruct (decide (Id u <> PidHash pid)).
  { rewrite exec_bind. destruct (exec (sendError _ _ _ _) _) as [[?| |] ?]; done. }
  destruct (decide (Name (set_Pid None u) = "")).
  { rewrite exec_bind. destruct (exec (sendError _ _ _ _) _) as [[?| |] ?]; done. }
  rewrite exec_bind.
  destruct (exec (identityPeek _ _) _) as [[[?|]| |] w1]; try done.
  rewrite exec_bind.
  destruct (exec (identityBind _ _) _) as [[[?|]| |] w2]; try done.
  intros _. exists b, rest, u. repeat split; try done.
  unfold user_of. by rewrite identityWelcome_users, lookup_insert_eq.
Qed.

Lemma fanout_no_SetUser b l nmdc : uses (@not_SetUser) (fanout b l nmdc).
Proof.
  revert nmdc; induction l as [|[a|o] l IH]; intros nmdc; cbn [fanout];
    uses_tac; apply IH.
Qed.

Lemma broadcastChat_no_SetUser from text l :
  uses (@not_SetUser) (broadcastChat from text l).
Proof.
  induction l as [|q l IH]; cbn [broadcastChat]; [by uses_tac|].
  apply uses_bind; [|done].
  destruct q; cbn [Peer_ChatMsg]; unfold ChatMsg; uses_tac.
Qed.

Lemma run_task_no_SetUser t : uses (@not_SetUser) (run_task t).
Proof.
  destruct t as [b from l|d]; cbn [run_task].
  - unfold adcBroadcast. apply uses_bind.
    { destruct l; unfold Peers, locked_read; uses_tac. }
    intros l'. apply uses_bind; [apply fanout_no_SetUser|].
    intros nmdc. uses_tac. apply broadcastChat_no_SetUser.
  - unfold adcDirect, lookupSID, locked_read. cbn [bind]. uses_tac.
Qed.

Lemma adcServePeer_no_SetUser fuel peer : uses (@not_SetUser) (adcServePeer fuel peer).
Proof.
  induction fuel as [|fuel IH]; cbn [adcServePeer]; [by uses_tac|].
  unfold Peers, locked_read. cbn [bind]. uses_tac; apply IH.
Qed.

(** C4: when the Identity stage completes, the record cached on the peer
    holds no PID, and neither the serving loop nor the goroutines it starts
    put one back. *)
Theorem pid_not_retained (h : Hub) (peer : adcPeer) (w : World) :
  fst (exec (adcStageIdentity h peer) w) = Done None ->
  let w' := snd (exec (adcStageIdentity h peer) w) in
  Pid (user_of w' peer) = None /\
  (forall fuel, Pid (user_of (snd (exec (adcServePeer fuel peer) w')) peer) = None) /\
  (forall t, Pid (user_of (snd (exec (run_task t) w')) peer) = None).
Proof.
  intros Hd w'.
  assert (Hnow : Pid (user_of w' peer) = None).
  { subst w'. destruct (stage_done _ _ _ Hd) as (b & rest & u & _ & _ & _ & ->).
    unfold with_addr. by destruct (decide _). }
  split; [done|]. unfold user_of in *.
  split; [intros fuel|intros t]; rewrite exec_users; auto.
  - apply adcServePeer_no_SetUser.
  - apply run_task_no_SetUser.
Qed.

(** Lines 229-233: when the Identity stage completes, the cached record is
    the client's with the PID cleared, and with the IPv4 field set to what
    [peer.addr.String()] gives, the whole remote address, if the client
    left it empty; a non-empty IPv4 field is kept. *)
Lemma ip4_filled_from_transport (h : Hub) (peer : adcPeer) (w : World)
    (b : BroadcastPacket) (rest : list (error + Packet)) (u : User) :
  inbox w !! conn_id (conn peer) = Some (inr (PBroadcast b) :: rest) ->
  UnmarshalUser (bcData b) = inr u ->
  fst (exec (adcStageIdentity h peer) w) = Done None ->
  user_of (snd (exec (adcStageIdentity h peer) w)) peer =
    mkUser (Id u) None (Name u) (Application u) (Version u)
           (if decide (Ip4 u = "") then addr peer else Ip4 u).
Proof.
  intros Hin Hun Hd.
  destruct (stage_done _ _ _ Hd) as (b' & rest' & u' & Hin' & _ & Hun' & ->).
  rewrite Hin in Hin'. injection Hin' as <- <-.
  rewrite Hun in Hun'. injection Hun' as <-.
  unfold with_addr. cbn [Ip4 set_Pid]. by destruct (decide (Ip4 u = "")).
Qed.

End Identity.

(** *** The Identity stage on the small hub *)

Lemma identity_pid_gate_witness :
  fst (exec (adcStageIdentity (codec:=ex_codec) ex_hub ex_peer)
            (ex_world [inf_packet 1 "mallory"] [true])) =
  Done (Some errInvalidPid).
Proof.
  apply (identity_pid_gate (codec:=ex_codec) ex_hub ex_peer
           (ex_world [inf_packet 1 "mallory"] [true])
           (mkBroadcast 1 Cmd_User "mallory") []
           (mkUser 8 (Some 3) "mallory" "" "" "") 3);
    [reflexivity|reflexivity|reflexivity|reflexivity|vm_compute; discriminate].
Defined.

(** C1 fails on the code: carol's user-info broadcast carries a CID and no
    PD, so no PID hashes to the CID she claims and the claim has the hub
    send the fatal status 27 and return an error.  The stage does neither:
    it panics at line 166, having read the packet and written nothing. *)
Theorem missing_pid_panics :
  let carol := mkUser 9 None "carol" "" "" "" in
  let w := ex_world [inf_packet 1 "carol"] [] in
  let r := exec (adcStageIdentity (codec:=ex_codec_bare) ex_hub ex_peer) w in
  UnmarshalUser (Codec:=ex_codec_bare) "carol" = inr carol /\
  fst r = Panicked /\
  trace (snd r) = [EvRead ex_conn] /\
  wire_attempts (trace (snd r)) = [] /\
  peers (snd r) = Registry0.
Proof.
  intros carol w r.
  destruct (identity_nil_pid (codec:=ex_codec_bare) ex_hub ex_peer w
              (mkBroadcast 1 Cmd_User "carol") [] carol
              eq_refl eq_refl eq_refl eq_refl) as (H1 & H2 & H3 & _).
  fold r in H1, H2, H3. rewrite H2, H3. by repeat split.
Qed.

Lemma pid_not_retained_witness :
  Pid (user_of (snd (exec (adcStageIdentity (codec:=ex_codec) ex_hub ex_peer)
                          (ex_world [inf_packet 1 "alice"] []))) ex_peer) = None.
Proof.
  refine (proj1 (pid_not_retained (codec:=ex_codec) ex_hub ex_peer
                   (ex_world [inf_packet 1 "alice"] []) _)).
  vm_compute. reflexivity.
Defined.

Lemma ip4_filled_from_transport_witness :
  user_of (snd (exec (adcStageIdentity (codec:=ex_codec) ex_hub ex_peer)
                     (ex_world [inf_packet 1 "alice"] []))) ex_peer =
  mkUser 8 None "alice" "" "" "10.0.0.1:4111".
Proof.
  apply (ip4_filled_from_transport (codec:=ex_codec) ex_hub ex_peer
           (ex_world [inf_packet 1 "alice"] [])
           (mkBroadcast 1 Cmd_User "alice") []
           (mkUser 8 (Some 7) "alice" "" "" ""));
    [reflexivity|reflexivity|vm_compute; reflexivity].
Defined.

(** C8 fails on the code: alice's record comes without IPv4 field, over a
    connection from 10.0.0.1, port 4111.  The stage completes and the field
    cached on the peer is "10.0.0.1:4111": line 230 takes the whole remote
    address, host and port, where the claim has the remote IP. *)
Theorem ip4_gets_host_and_port :
  let alice := mkUser 8 (Some 7) "alice" "" "" "" in
  let w := ex_world [inf_packet 1 "alice"] [] in
  let r := exec (adcStageIdentity (codec:=ex_codec) ex_hub ex_peer) w in
  UnmarshalUser (Codec:=ex_codec) "alice" = inr alice /\
  Ip4 alice = "" /\
  addr ex_peer = RemoteAddr (conn ex_peer) /\
  remote_ip (addr ex_peer) = "10.0.0.1" /\
  fst r = Done None /\
  Ip4 (user_of (snd r) ex_peer) = "10.0.0.1:4111" /\
  Ip4 (user_of (snd r) ex_peer) <> remote_ip (addr ex_peer).
Proof.
  intros alice w r.
  assert (Hd : fst r = Done None) by (vm_compute; reflexivity).
  pose proof (ip4_filled_from_transport (codec:=ex_codec) ex_hub ex_peer w
                (mkBroadcast 1 Cmd_User "alice") [] alice eq_refl eq_refl Hd) as Hu.
  fold r in Hu. rewrite Hu. cbn [Ip4].
  repeat split; try reflexivity; try exact Hd. vm_compute. discriminate.
Qed.

(** C7 fails on the code: the write of the success status fails (second
    write of the run), its error is overwritten by the next assignment, and
    the stage returns nil with the peer admitted. *)
Theorem status_write_error_dropped :
  let w := ex_world [inf_packet 1 "alice"] [false; true] in
  let r := exec (adcStageIdentity (codec:=ex_codec) ex_hub ex_peer) w in
  fst r = Done None /\
  trace (snd r) !! 16%nat =
    Some (EvWire ex_conn (WriteInfoMsg (Status Success 0 "powered by Gophers")) false) /\
  bySID (peers (snd r)) !! 1 = Some (PeerADC ex_peer) /\
  logging (peers (snd r)) = ∅.
Proof.
  vm_compute. repeat split; reflexivity.
Qed.

(** ** Uniqueness of nick and CID *)

Section Uniqueness.
Context {codec : Codec}.

(** The look under the shared lock, case by case. *)
Lemma identityPeek_cases (peer : adcPeer) (u : User) (w : World) :
  is_free (mu w) = true ->
  let r := exec (identityPeek peer u) w in
  let r0 := found w in
  let looked := [EvRLock; EvLoad (InLogging (Name u)); EvLoad (InByName (Name u));
                 EvLoad (InLoggingCID (Id u)); EvLoad (InByCID (Id u)); EvRUnlock] in
  peers (snd r) = r0 /\ mu (snd r) = unlocked /\
  (nameTaken r0 u ->
     fst r = Done (Some errNickTaken) /\
     trace (snd r) = (trace w ++ looked ++ status_events peer 22 errNickTaken (faults w))%list) /\
  (~ nameTaken r0 u -> cidTaken r0 u ->
     fst r = Done (Some errCIDTaken) /\
     trace (snd r) = (trace w ++ looked ++ status_events peer 24 errCIDTaken (faults w))%list) /\
  (~ nameTaken r0 u -> ~ cidTaken r0 u ->
     fst r = Done None /\ trace (snd r) = (trace w ++ looked)%list).
Proof.
  intros Hfree r r0 looked. subst r looked. unfold identityPeek. cbn [exec step].
  unfold is_free in Hfree. apply andb_true_iff in Hfree as [Hw Hr].
  apply negb_true_iff in Hw. rewrite Hw, Hr.
  cbn [exec step ask]. cbn [peers mu readers writer emit set_mu interfere set_env set_peers].
  fold r0.
  destruct (bool_decide (Name u ∈ logging r0) || bool_decide (is_Some (byName r0 !! Name u)))
    eqn:Hn.
  { apply orb_decide in Hn.
    edestruct (exec_sendError_then (A:=option error)) as (-> & -> & -> & ->).
    cbn. rewrite <- !app_assoc. done. }
  assert (~ nameTaken r0 u) as Hnn.
  { intros Hx. apply (proj2 (orb_decide _ _)) in Hx. congruence. }
  destruct (bool_decide (Id u ∈ loggingCID r0) || bool_decide (is_Some (byCID r0 !! Id u)))
    eqn:Hc.
  { apply orb_decide in Hc.
    edestruct (exec_sendError_then (A:=option error)) as (-> & -> & -> & ->).
    cbn. rewrite <- !app_assoc. done. }
  assert (~ cidTaken r0 u) as Hcn.
  { intros Hx. apply (proj2 (orb_decide _ _)) in Hx. congruence. }
  cbn. rewrite <- !app_assoc. done.
Qed.

(** The binding under the exclusive lock, case by case. *)
Lemma identityBind_cases (peer : adcPeer) (u : User) (w : World) :
  is_free (mu w) = true ->
  let r := exec (identityBind peer u) w in
  let r0 := found w in
  mu (snd r) = unlocked /\
  (nameTaken r0 u ->
     fst r = Done (Some errNickTaken) /\ peers (snd r) = r0 /\
     trace (snd r) =
       (trace w ++
        [EvLock; EvLoad (InLogging (Name u)); EvLoad (InByName (Name u)); EvUnlock] ++
        status_events peer 22 errNickTaken (faults w))%list) /\
  (~ nameTaken r0 u -> cidTaken r0 u ->
     fst r = Done (Some errCIDTaken) /\ peers (snd r) = r0 /\
     trace (snd r) =
       (trace w ++
        [EvLock; EvLoad (InLogging (Name u)); EvLoad (InByName (Name u));
         EvLoad (InLoggingCID (Id u)); EvLoad (InByCID (Id u)); EvUnlock] ++
        status_events peer 24 errCIDTaken (faults w))%list) /\
  (~ nameTaken r0 u -> ~ cidTaken r0 u ->
     fst r = Done None /\ peers (snd r) = reserved u r0 /\
     trace (snd r) =
       (trace w ++
        [EvLock; EvLoad (InLogging (Name u)); EvLoad (InByName (Name u));
         EvLoad (InLoggingCID (Id u)); EvLoad (InByCID (Id u));
         EvStore (AddLogging (Name u)); EvStore (AddLoggingCID (Id u)); EvUnlock])%list).
Proof.
  intros Hfree r r0. subst r. unfold identityBind. cbn [exec step]. rewrite Hfree.
  cbn [exec step ask]. cbn [peers emit set_mu interfere set_env set_peers].
  fold r0.
  destruct (bool_decide (Name u ∈ logging r0) || bool_decide (is_Some (byName r0 !! Name u)))
    eqn:Hn.
  { apply orb_decide in Hn.
    cbn [exec step]. cbn [mu emit set_mu writer].
    edestruct (exec_sendError_then (A:=option error)) as (-> & -> & -> & ->).
    cbn. rewrite <- !app_assoc. done. }
  assert (~ nameTaken r0 u) as Hnn.
  { intros Hx. apply (proj2 (orb_decide _ _)) in Hx. congruence. }
  cbn [exec step ask]. cbn [peers emit set_mu interfere set_env set_peers]. fold r0.
  destruct (bool_decide (Id u ∈ loggingCID r0) || bool_decide (is_Some (byCID r0 !! Id u)))
    eqn:Hc.
  { apply orb_decide in Hc.
    cbn [exec step]. cbn [mu emit set_mu writer].
    edestruct (exec_sendError_then (A:=option error)) as (-> & -> & -> & ->).
    cbn. rewrite <- !app_assoc. done. }
  assert (~ cidTaken r0 u) as Hcn.
  { intros Hx. apply (proj2 (orb_decide _ _)) in Hx. congruence. }
  cbn. rewrite <- !app_assoc. done.
Qed.

(** C3: the commit looks nick and CID up again under the exclusive lock.
    A nick collision makes the hub try to send fatal status 22, a CID
    collision fatal status 24, and in both cases the registry is the one
    found when the lock was taken; with no collision, nick and CID enter
    the two reservation sets between one [Lock] and its [Unlock]. *)
Theorem uniqueness_commit (peer : adcPeer) (u : User) (w : World) :
  is_free (mu w) = true ->
  let r := exec (identityBind peer u) w in
  let r0 := found w in
  (nameTaken r0 u ->
     fst r = Done (Some errNickTaken) /\ peers (snd r) = r0 /\
     since w (snd r) =
       ([EvLock; EvLoad (InLogging (Name u)); EvLoad (InByName (Name u)); EvUnlock] ++
        status_events peer 22 errNickTaken (faults w))%list) /\
  (~ nameTaken r0 u -> cidTaken r0 u ->
     fst r = Done (Some errCIDTaken) /\ peers (snd r) = r0 /\
     since w (snd r) =
       ([EvLock; EvLoad (InLogging (Name u)); EvLoad (InByName (Name u));
         EvLoad (InLoggingCID (Id u)); EvLoad (InByCID (Id u)); EvUnlock] ++
        status_events peer 24 errCIDTaken (faults w))%list) /\
  (~ nameTaken r0 u -> ~ cidTaken r0 u ->
     fst r = Done None /\
     logging (peers (snd r)) = {[Name u]} ∪ logging r0 /\
     loggingCID (peers (snd r)) = {[Id u]} ∪ loggingCID r0 /\
     bySID (peers (snd r)) = bySID r0 /\
     byCID (peers (snd r)) = byCID r0 /\
     byName (peers (snd r)) = byName r0 /\
     since w (snd r) =
       [EvLock; EvLoad (InLogging (Name u)); EvLoad (InByName (Name u));
        EvLoad (InLoggingCID (Id u)); EvLoad (InByCID (Id u));
        EvStore (AddLogging (Name u)); EvStore (AddLoggingCID (Id u)); EvUnlock]).
Proof.
  intros Hfree r r0.
  destruct (identityBind_cases peer u w Hfree) as (_ & H1 & H2 & H3).
  fold r r0 in H1, H2, H3. split; [|split].
  - intros Hn. destruct (H1 Hn) as (? & ? & E). by rewrite (since_app _ _ _ E).
  - intros Hn Hc. destruct (H2 Hn Hc) as (? & ? & E). by rewrite (since_app _ _ _ E).
  - intros Hn Hc. destruct (H3 Hn Hc) as (? & E1 & E).
    rewrite (since_app _ _ _ E), E1. done.
Qed.

(** C9: in the look under the shared lock and in the commit under the
    exclusive lock alike, a taken nick is reported as nick taken (22)
    whether or not the CID is taken too, and CID taken (24) is reported
    only when the nick is free and the CID is taken. *)
Theorem nick_reported_before_cid (peer : adcPeer) (u : User) (w : World) :
  is_free (mu w) = true ->
  let r0 := found w in
  let peek := exec (identityPeek peer u) w in
  let commit := exec (identityBind peer u) w in
  let sta code e ok := EvWire (conn peer) (WriteInfoMsg (Status Fatal code (Error e))) ok in
  (nameTaken r0 u ->
     (fst peek = Done (Some errNickTaken) /\
      sta 22 errNickTaken (negb (hd false (faults w))) ∈ since w (snd peek)) /\
     (fst commit = Done (Some errNickTaken) /\
      sta 22 errNickTaken (negb (hd false (faults w))) ∈ since w (snd commit))) /\
  (forall ok, sta 24 errCIDTaken ok ∈ since w (snd peek) ->
     ~ nameTaken r0 u /\ cidTaken r0 u) /\
  (forall ok, sta 24 errCIDTaken ok ∈ since w (snd commit) ->
     ~ nameTaken r0 u /\ cidTaken r0 u) /\
  (~ nameTaken r0 u -> cidTaken r0 u ->
     sta 24 errCIDTaken (negb (hd false (faults w))) ∈ since w (snd peek)).
Proof.
  intros Hfree r0 peek commit sta.
  destruct (identityPeek_cases peer u w Hfree) as (_ & _ & P1 & P2 & P3).
  destruct (identityBind_cases peer u w Hfree) as (_ & B1 & B2 & B3).
  fold r0 peek in P1, P2, P3. fold r0 commit in B1, B2, B3.
  assert (Hsta : forall code e, sta code e (negb (hd false (faults w))) ∈
                                  status_events peer code e (faults w)).
  { intros code e. unfold status_events, sta. cbn [attempts].
    destruct (hd false (faults w)); apply elem_of_cons; by left. }
  assert (Hno : forall code e ok,
             sta 24 errCIDTaken ok ∈ status_events peer code e (faults w) -> code = 24).
  { intros code e ok. unfold status_events, sta.
    destruct (faults w) as [|[] [|[] ?]]; cbn;
      rewrite ?elem_of_cons, elem_of_nil; intros Hx;
      decompose [or] Hx; try done; congruence. }
  destruct (decide (nameTaken r0 u)) as [Hn|Hn];
    [|destruct (decide (cidTaken r0 u)) as [Hc|Hc]].
  - destruct (P1 Hn) as (Ep & Tp). destruct (B1 Hn) as (Eb & _ & Tb).
    rewrite (since_app _ _ _ Tp), (since_app _ _ _ Tb).
    split; [intros _|split; [|split]]; [| | |done].
    + split; (split; [done|]); rewrite elem_of_app; right; apply Hsta.
    + intros ok. rewrite elem_of_app, !elem_of_cons, elem_of_nil.
      intros [Hx|Hx]; [decompose [or] Hx; done|by apply Hno in Hx].
    + intros ok. rewrite elem_of_app, !elem_of_cons, elem_of_nil.
      intros [Hx|Hx]; [decompose [or] Hx; done|by apply Hno in Hx].
  - destruct (P2 Hn Hc) as (Ep & Tp). destruct (B2 Hn Hc) as (Eb & _ & Tb).
    rewrite (since_app _ _ _ Tp), (since_app _ _ _ Tb).
    split; [done|]. split; [done|]. split; [done|].
    intros _ _. rewrite elem_of_app. right. apply Hsta.
  - destruct (P3 Hn Hc) as (Ep & Tp). destruct (B3 Hn Hc) as (Eb & _ & Tb).
    rewrite (since_app _ _ _ Tp), (since_app _ _ _ Tb).
    split; [done|]. split; [|split; [|done]].
    + intros ok. rewrite !elem_of_cons, elem_of_nil.
      intros Hx. decompose [or] Hx; done.
    + intros ok. rewrite !elem_of_cons, elem_of_nil.
      intros Hx. decompose [or] Hx; done.
Qed.

End Uniqueness.

(** ** Admission *)

Lemma is_free_unlocked m : is_free m = true -> m = unlocked.
Proof.
  destruct m as [[] [|n]]; cbn; try done.
Qed.

Lemma found_quiet w : env w = [] -> found w = peers w.
Proof. unfold found. by intros ->. Qed.

(** Lines 266-279 run alone. *)
Lemma identityAccept_alone (peer : adcPeer) (u : User) (w : World) :
  is_free (mu w) = true ->
  let r := exec (identityAccept peer u) w in
  fst r = Done (listPeers (found w)) /\
  peers (snd r) = accepted peer u (user_of w peer) (found w) /\
  mu (snd r) = unlocked /\
  trace (snd r) =
    (trace w ++
     [EvLock; EvStore (DelLogging (Name (user_of w peer))); EvStore (DelLoggingCID (Id u));
      EvLoad ListPeers;
      EvStore (SetBySID (sid peer) (PeerADC peer)); EvStore (SetByCID (Id u) peer);
      EvStore (SetByName (Name u) (PeerADC peer)); EvUnlock])%list.
Proof.
  intros Hfree r. subst r. unfold identityAccept. cbn [exec step]. rewrite Hfree.
  cbn. rewrite <- !app_assoc. done.
Qed.

Lemma step_not_lock {X} (e : op X) (w w' : World) (x : X) :
  not_lock e = true -> step e w = Stepped x w' -> mu w' = mu w /\ env w' = env w.
Proof.
  destruct e; cbn; try done; intros _;
    repeat match goal with
           | |- context [match ?b with _ => _ end] => destruct b
           end; by intros [= <- <-].
Qed.

Lemma step_unlock {X} (e : op X) (w w' : World) (x : X) :
  is_unlock e = true -> mu w = mkMutex true 0 -> step e w = Stepped x w' ->
  mu w' = unlocked /\ env w' = env w /\ peers w' = peers w.
Proof.
  destruct e; cbn; try done. intros _ ->. cbn. by intros [= <- <-].
Qed.

Lemma reader_step {X} (q : query X) (seen : X -> Prop) (t t' : prog X) (w w' : World) :
  env w = [] -> seen (ask q (peers w)) ->
  reader_at q seen t w -> tstep t w = Some (t', w') ->
  env w' = [] /\ peers w' = peers w /\ users w' = users w /\ reader_at q seen t' w'.
Proof.
  intros Henv Hseen Ht Hs. unfold reader_at in *.
  destruct Ht as [[-> Hm]|[[-> Hm]|[(x & -> & Hm & Hx)|(x & -> & _)]]];
    cbn [tstep step locked_read] in Hs; rewrite ?Hm in Hs; cbn in Hs; [| | |done];
    injection Hs as <- <-; cbn; unfold found; rewrite ?Henv; repeat split; try done.
  - right; left. done.
  - right; right; left. by exists (ask q (peers w)).
  - right; right; right. by exists x.
Qed.

Lemma atomic_inv_step {A X} (q : query X) (w0 : World) (r1 : Registry)
    (body : unit -> prog A) (s s' : prog A * prog X * World) :
  (forall w, env w = [] -> peers w = peers w0 -> users w = users w0 ->
             mu w = unlocked ->
             let w' := emit EvLock (set_mu (mkMutex true 0) (interfere w)) in
             critical (body tt) /\ peers (snd (exec (body tt) w')) = r1) ->
  atomic_inv q w0 r1 body s -> par_step s s' -> atomic_inv q w0 r1 body s'.
Proof.
  intros Hbody Hinv Hstep.
  destruct Hstep as [p p' t w w' Hs|p t t' w w' Hs]; cbn [atomic_inv] in *;
    destruct Hinv as [Henv Hinv].
  - (* the section moves *)
    destruct Hinv as [(-> & Hp & Hu & Ht)|[(Hc & Hr & Hm & Ht)|(Hret & _)]].
    + cbn [tstep step] in Hs.
      destruct (is_free (mu w)) eqn:Hfree; [|done].
      injection Hs as <- <-. apply is_free_unlocked in Hfree.
      destruct (Hbody w Henv Hp Hu Hfree) as [Hc Hr].
      split; [by cbn; rewrite Henv|]. right; left.
      repeat split; try done.
      destruct Ht as [[-> _]|[[_ E]|[(x & _ & E & _)|(x & -> & _ & ->)]]];
        [by left|by rewrite Hfree in E|by rewrite Hfree in E|by right].
    + destruct p as [a|Y e k]; [done|]. cbn [tstep] in Hs.
      cbn [exec] in Hr.
      destruct (step e w) as [x w1| |] eqn:He; try done.
      injection Hs as <- <-.
      destruct Hc as [[Hul Hk]|[Hnl Hk]].
      * destruct (step_unlock _ _ _ _ Hul Hm He) as (Hm' & Henv' & Hp').
        split; [congruence|]. right; right.
        specialize (Hk x). destruct (k x) as [a|]; [|done].
        cbn in Hr. repeat split; try done.
        destruct Ht as [-> | ->]; [by left|].
        right; right; right. eexists; repeat split; eauto.
      * destruct (step_not_lock _ _ _ _ Hnl He) as (Hm' & Henv').
        split; [congruence|]. right; left.
        repeat split; try done. congruence.
    + by destruct p.
  - (* the reader moves *)
    destruct Hinv as [(-> & Hp & Hu & Ht)|[(Hc & Hr & Hm & Ht)|(Hret & Hp & Ht)]].
    + destruct (reader_step q _ _ _ _ _ Henv (f_equal (ask q) Hp) Ht Hs)
        as (Henv' & Hp' & Hu' & Ht').
      split; [done|]. left. repeat split; try done; congruence.
    + destruct Ht as [-> | ->]; cbn [tstep step locked_read] in Hs; [|done].
      by rewrite Hm in Hs.
    + assert (Hseen : ask q (peers w) = ask q (peers w0) \/ ask q (peers w) = ask q r1)
        by (right; by rewrite Hp).
      destruct (reader_step q _ _ _ _ _ Henv Hseen Ht Hs) as (Henv' & Hp' & Hu' & Ht').
      split; [done|]. right; right. repeat split; try done; congruence.
Qed.

Lemma atomic_reach {A X} (q : query X) (w0 : World) (r1 : Registry)
    (body : unit -> prog A) (s : prog A * prog X * World) :
  (forall w, env w = [] -> peers w = peers w0 -> users w = users w0 ->
             mu w = unlocked ->
             let w' := emit EvLock (set_mu (mkMutex true 0) (interfere w)) in
             critical (body tt) /\ peers (snd (exec (body tt) w')) = r1) ->
  env w0 = [] -> mu w0 = unlocked ->
  rtc par_step (Vis Lock body, locked_read q, w0) s ->
  atomic_inv q w0 r1 body s.
Proof.
  intros Hbody Henv Hmu. revert s.
  apply (rtc_ind_r (fun s => atomic_inv q w0 r1 body s)).
  - split; [done|]. left. repeat split; try done. by left.
  - intros s s' _ Hstep IH. eapply atomic_inv_step; eauto.
Qed.

Lemma elem_of_listPeers (p : Peer) (r : Registry) :
  p ∈ listPeers r <-> exists s, bySID r !! s = Some p.
Proof.
  unfold listPeers. rewrite list_elem_of_fmap. split.
  - intros [[s p'] [-> Hin]]. exists s. by apply elem_of_map_to_list in Hin.
  - intros [s Hs]. exists (s, p). split; [done|]. by apply elem_of_map_to_list.
Qed.

(** C2: lines 266-279 take the exclusive lock once and, before releasing
    it, remove the cached nick from [logging] and the CID from
    [loggingCID], take the snapshot and put the peer into [bySID], [byCID]
    and [byName]: the snapshot is that of the registry found, which lacks
    a peer not yet indexed, and the registry left has the peer in all
    three indices.  A read under the shared lock that runs beside it, as
    [Peers] does, sees the registry found or the registry left, never one
    in between. *)
Theorem admission_atomic (peer : adcPeer) (u : User) (w : World) :
  is_free (mu w) = true ->
  let r := exec (identityAccept peer u) w in
  let r0 := found w in
  let r1 := accepted peer u (user_of w peer) r0 in
  since w (snd r) =
    [EvLock; EvStore (DelLogging (Name (user_of w peer))); EvStore (DelLoggingCID (Id u));
     EvLoad ListPeers;
     EvStore (SetBySID (sid peer) (PeerADC peer)); EvStore (SetByCID (Id u) peer);
     EvStore (SetByName (Name u) (PeerADC peer)); EvUnlock] /\
  fst r = Done (listPeers r0) /\
  (in_no_index peer r0 -> PeerADC peer ∉ listPeers r0) /\
  peers (snd r) = r1 /\
  in_all_indices peer u r1 /\
  PeerADC peer ∈ listPeers r1 /\
  (env w = [] ->
   (forall X (q : query X) p' x w',
      rtc par_step (identityAccept peer u, locked_read q, w) (p', Ret x, w') ->
      x = ask q r0 \/ x = ask q r1) /\
   (forall p' l w',
      rtc par_step (identityAccept peer u, Peers, w) (p', Ret l, w') ->
      l = listPeers r0 \/ l = listPeers r1)).
Proof.
  intros Hfree r r0 r1.
  destruct (identityAccept_alone peer u w Hfree) as (Hres & Hp & Hm & Ht).
  fold r r0 in Hres, Hp, Hm, Ht. fold r1 in Hp.
  assert (Hall : in_all_indices peer u r1).
  { unfold in_all_indices, r1, accepted. cbn. by rewrite !lookup_insert_eq. }
  split; [by apply since_app|]. split; [done|]. split.
  { intros (Hs & _) Hin. apply elem_of_listPeers in Hin as [s Hin]. by apply (Hs s). }
  split; [done|]. split; [done|]. split.
  { apply elem_of_listPeers. exists (sid peer). apply Hall. }
  intros Henv.
  assert (Hq : forall X (q : query X) p' x w',
      rtc par_step (identityAccept peer u, locked_read q, w) (p', Ret x, w') ->
      x = ask q r0 \/ x = ask q r1).
  { intros X q p' x w' Hreach.
    assert (Hr0 : r0 = peers w) by (by apply found_quiet).
    apply (atomic_reach q w r1) in Hreach;
      [|clear Hreach|done|by apply is_free_unlocked].
    - rewrite Hr0. destruct Hreach as [_ [(_ & _ & _ & Hrd)|[(_ & _ & _ & Hrd)|(_ & _ & Hrd)]]].
      + destruct Hrd as [[E _]|[[E _]|[(y & E & _)|(y & E & _ & ->)]]];
          try discriminate E. injection E as <-. by left.
      + destruct Hrd as [E|E]; [discriminate E|]. injection E as <-. by left.
      + destruct Hrd as [[E _]|[[E _]|[(y & E & _)|(y & E & _ & Hy)]]];
          try discriminate E. by injection E as <-.
    - intros w1 Henv1 Hp1 Hu1 Hm1 w1'. split.
      + cbn. right. split; [done|]. intros _.
        repeat (right; split; [done|]; intros ?). left. done.
      + subst w1'. cbn. unfold found. rewrite Henv1. cbn.
        unfold r1, accepted, user_of. cbn. rewrite Hr0, Hp1, Hu1. done. }
  split; [exact Hq|]. intros p' l w'. apply (Hq _ ListPeers).
Qed.

(** ** The write of the success status *)

Lemma step_never_stuck {X} (e : op X) (w : World) :
  never_stuck e = true ->
  exists x w', step e w = Stepped x w' /\ mu w' = mu w /\ peers w' = peers w.
Proof.
  destruct e; try discriminate; intros He; cbn [step]; try (by eexists _, _).
  cbn in He. subst deadline.
  destruct (inbox w !! conn_id c) as [[|? ?]|]; by eexists _, _.
Qed.

Lemma exec_never_stuck {A} (p : prog A) (w : World) :
  uses (@never_stuck) p ->
  exists a, fst (exec p w) = Done a /\
            mu (snd (exec p w)) = mu w /\ peers (snd (exec p w)) = peers w.
Proof.
  revert w; induction p as [a|X e k IH]; intros w Hu; cbn [exec]; [by exists a|].
  destruct Hu as [He Hk].
  destruct (step_never_stuck e w He) as (x & w1 & -> & Hm & Hp).
  destruct (IH x w1 (Hk x)) as (a & E1 & E2 & E3). exists a.
  split; [done|]. split; congruence.
Qed.

Section StatusWrite.
Context {codec : Codec}.

Lemma PeersJoin_quiet (p : adcPeer) (l : list Peer) (w : World) :
  faults w = [] ->
  let r := exec (PeersJoin p l) w in
  fst r = Done None /\ faults (snd r) = [] /\ mu (snd r) = mu w.
Proof.
  revert w; induction l as [|q l IH]; intros w Hf; cbn [PeersJoin].
  - cbn [exec step]. unfold wire_result. rewrite Hf. done.
  - destruct q as [a|o]; unfold Info; cbn [bind exec step]; unfold wire_result;
      rewrite Hf; cbn [hd exec];
      match goal with |- context [exec (PeersJoin p l) ?w1] =>
        destruct (IH w1) as (E1 & E2 & E3); [done|]; rewrite E1, E2, E3 end; done.
Qed.

Lemma broadcastUserJoin_returns (p : Peer) (l : list Peer) (w : World) :
  exists a,
    fst (exec (broadcastUserJoin p l) w) = Done a /\
    mu (snd (exec (broadcastUserJoin p l) w)) = mu w /\
    peers (snd (exec (broadcastUserJoin p l) w)) = peers w.
Proof.
  apply exec_never_stuck.
  induction l as [|q l IH]; cbn [broadcastUserJoin]; [by uses_tac|].
  apply uses_bind; [|done].
  destruct q; cbn [Peer_PeersJoin PeersJoin]; unfold Info; cbn [bind]; uses_tac.
Qed.

(** Whenever the write of the success status is the only one that fails,
    the stage goes on as if it had succeeded. *)
Lemma status_error_ignored (h : Hub) (peer : adcPeer) (u : User) (w : World) :
  is_free (mu w) = true ->
  faults w = [false; true] ->
  let r := exec (identityWelcome h peer u) w in
  fst r = Done None /\
  in_all_indices peer (with_addr (addr peer) u) (peers (snd r)).
Proof.
  intros Hfree Hf. apply is_free_unlocked in Hfree.
  unfold identityWelcome. fold (with_addr (addr peer) u).
  cbn [exec step]. unfold wire_result. cbn [faults set_users]. rewrite Hf.
  cbn [hd tail exec step faults emit set_faults].
  unfold Peers, locked_read. cbn [bind exec step]. cbn [mu emit set_faults set_users].
  rewrite Hfree. cbn [writer readers unlocked Nat.eqb exec step].
  cbn [mu readers writer emit set_mu]. rewrite exec_bind.
  match goal with |- context [exec (PeersJoin peer ?l) ?w1] =>
    destruct (PeersJoin_quiet peer l w1) as (E1 & E2 & E3); [done|];
    destruct (exec (PeersJoin peer l) w1) as [o1 w2] end.
  cbn [fst snd] in E1, E2, E3. rewrite E1. rewrite exec_bind.
  destruct (PeersJoin_quiet peer [PeerADC peer] w2) as (F1 & F2 & F3); [done|].
  destruct (exec (PeersJoin peer [PeerADC peer]) w2) as [o2 w3].
  cbn [fst snd] in F1, F2, F3. rewrite F1. rewrite exec_bind.
  assert (Hfree3 : is_free (mu w3) = true) by (by rewrite F3, E3).
  destruct (identityAccept_alone peer (with_addr (addr peer) u) w3 Hfree3)
    as (G1 & G2 & G3 & _).
  destruct (exec (identityAccept peer _) w3) as [o3 w4].
  cbn [fst snd] in G1, G2, G3. rewrite G1. rewrite exec_bind.
  destruct (broadcastUserJoin_returns (PeerADC peer) (listPeers (found w3)) w4)
    as (a & H1 & _ & H3).
  destruct (exec (broadcastUserJoin _ _) w4) as [o4 w5].
  cbn [fst snd] in H1, H3. rewrite H1. cbn [exec fst snd]. split; [done|].
  rewrite H3, G2. unfold in_all_indices, accepted. cbn. by rewrite !lookup_insert_eq.
Qed.
End StatusWrite.

(** ** The Protocol stage *)

Lemma IsSet_Intersect (f g : gmap string bool) (k : string) :
  IsSet (Intersect f g) k = IsSet f k && IsSet g k.
Proof.
  unfold IsSet, Intersect. rewrite lookup_intersection_with.
  destruct (f !! k) as [[]|], (g !! k) as [[]|]; done.
Qed.

Lemma IsSet_hubFeatures (k : string) :
  IsSet hubFeatures k = true <->
  k = FeaBASE \/ k = FeaBAS0 \/ k = FeaTIGR \/ k = FeaPING.
Proof.
  unfold IsSet, hubFeatures.
  destruct (decide (k = FeaBASE)) as [->|?]; [rewrite lookup_insert_eq; split; auto 6|].
  rewrite lookup_insert_ne by done.
  destruct (decide (k = FeaBAS0)) as [->|?]; [rewrite lookup_insert_eq; split; auto 6|].
  rewrite lookup_insert_ne by done.
  destruct (decide (k = FeaTIGR)) as [->|?]; [rewrite lookup_insert_eq; split; auto 6|].
  rewrite lookup_insert_ne by done.
  destruct (decide (k = FeaPING)) as [->|?]; [rewrite lookup_insert_eq; split; auto 6|].
  rewrite lookup_insert_ne by done. rewrite lookup_empty. split; [done|]. tauto.
Qed.

Section Protocol.
Context {codec : Codec}.

(** C5: with [mutual] the features common to the client and to the hub's
    BASE, BAS0, TIGR and PING, the stage fails with one error when neither
    BASE nor BAS0 is in [mutual], with another when TIGR is not, both
    before anything is written or any SID allocated; otherwise it goes on
    to write the hub's SUP and then the assignment of the next SID, and
    returns the peer unless one of the writes fails. *)
Theorem protocol_feature_gate (c : Conn) (w : World)
    (hp : BasePacket) (rest : list (error + Packet)) (sup : gmap string bool) :
  inbox w !! conn_id c = Some (inr (PHub hp) :: rest) ->
  bName hp = Cmd_Supported ->
  UnmarshalSupported (bData hp) = inr sup ->
  let mutual := Intersect hubFeatures sup in
  let r := exec (adcStageProtocol c) w in
  let base := IsSet mutual FeaBASE || IsSet mutual FeaBAS0 in
  let s := lastSID w + 1 in
  (forall k, IsSet mutual k = true <->
             (k = FeaBASE \/ k = FeaBAS0 \/ k = FeaTIGR \/ k = FeaPING) /\ IsSet sup k = true) /\
  errNoBASE <> errNoTIGR /\
  (base = false ->
     fst r = Done (inl errNoBASE) /\ since w (snd r) = [EvRead c] /\
     lastSID (snd r) = lastSID w) /\
  (base = true -> IsSet mutual FeaTIGR = false ->
     fst r = Done (inl errNoTIGR) /\ since w (snd r) = [EvRead c] /\
     lastSID (snd r) = lastSID w) /\
  (base = true -> IsSet mutual FeaTIGR = true ->
     since w (snd r) =
       EvRead c ::
       attempts c [WriteInfoMsg (Supported hubFeatures); WriteInfoMsg (SIDAssign s); Flush]
                (faults w) /\
     (writes_ok 3 (faults w) = true ->
        fst r = Done (inr (mkPeer (RemoteAddr c) s c mutual (nextRef w))) /\
        lastSID w < s /\ lastSID (snd r) = s) /\
     (writes_ok 3 (faults w) = false -> fst r = Done (inl ErrTransport))).
Proof.
  intros Hin Hcmd Hun mutual r base s.
  split.
  { intros k. unfold mutual. rewrite IsSet_Intersect, andb_true_iff, IsSet_hubFeatures. done. }
  split; [done|].
  assert (Hrun : r =
    exec (if negb (IsSet mutual FeaBASE) && negb (IsSet mutual FeaBAS0)
          then Ret (inl errNoBASE)
          else if negb (IsSet mutual FeaTIGR)
          then Ret (inl errNoTIGR)
          else
            err <~ Wire c (WriteInfoMsg (Supported hubFeatures));;
            match err with
            | Some e => Ret (inl e)
            | None =>
                s <~ NextSID;;
                err <~ Wire c (WriteInfoMsg (SIDAssign s));;
                match err with
                | Some e => Ret (inl e)
                | None =>
                    err <~ Wire c Flush;;
                    match err with
                    | Some e => Ret (inl e)
                    | None =>
                        peer <~ NewPeer (RemoteAddr c) s c mutual;;
                        Ret (inr peer)
                    end
                end
            end)
         (emit (EvRead c) (set_inbox (<[conn_id c := rest]> (inbox w)) w))).
  { subst r. unfold adcStageProtocol. cbn [exec step]. rewrite Hin. cbn [exec].
    destruct (decide (bName hp <> Cmd_Supported)) as [?|_]; [done|].
    by rewrite Hun. }
  rewrite Hrun. clear Hrun. subst base.
  destruct (IsSet mutual FeaBASE), (IsSet mutual FeaBAS0), (IsSet mutual FeaTIGR);
    cbn [negb andb orb exec fst snd];
    (split; [intros; try done|split; [intros; try done|intros; try done]]);
    try (repeat split; try done; by apply since_app).
  all: unfold wire_result, writes_ok.
  all: destruct (faults w) as [|[] [|[] [|[] fs]]] eqn:Hf;
    do 4 (cbn [exec step faults emit set_faults set_inbox set_lastSID hd tail];
          rewrite ?Hf);
    cbn; repeat split; try done; try (by apply since_app; cbn; rewrite <- ?app_assoc);
    try (intros; lia).
Qed.
End Protocol.

(** ** Routing *)

Lemma wire_attempts_fanout (b : BroadcastPacket) (l : list Peer) (fs : list bool) :
  wire_attempts (fanout_events b l fs) = deliveries b l.
Proof.
  revert fs; induction l as [|[a|o] l IH]; intros fs; cbn; [done| |apply IH].
  f_equal. f_equal. apply IH.
Qed.

Lemma elem_of_deliveries (b : BroadcastPacket) (a : adcPeer) (l : list Peer) :
  PeerADC a ∈ l ->
  (conn a, WritePacket (PBroadcast b)) ∈ deliveries b l /\
  (conn a, Flush) ∈ deliveries b l.
Proof.
  intros Hin. unfold deliveries.
  split; apply list_elem_of_In, in_flat_map; exists (PeerADC a);
    (split; [by apply list_elem_of_In|]); cbn; auto.
Qed.

Section Routing.
Context {codec : Codec}.

Lemma fanout_run (b : BroadcastPacket) (l nmdc : list Peer) (w : World) :
  let r := exec (fanout b l nmdc) w in
  fst r = Done (nmdc ++ (PeerOther <$> others l))%list /\
  trace (snd r) = (trace w ++ fanout_events b l (faults w))%list.
Proof.
  revert nmdc w; induction l as [|[a|o] l IH]; intros nmdc w; cbn [fanout].
  - cbn. by rewrite !app_nil_r.
  - cbn [exec step]. destruct (IH nmdc
      (emit (EvWire (conn a) Flush (negb (hd false (faults
         (emit (EvWire (conn a) (WritePacket (PBroadcast b)) (negb (hd false (faults w))))
               (set_faults (tail (faults w)) w))))))
        (set_faults (tail (faults (emit (EvWire (conn a) (WritePacket (PBroadcast b))
                                               (negb (hd false (faults w))))
               (set_faults (tail (faults w)) w))))
           (emit (EvWire (conn a) (WritePacket (PBroadcast b)) (negb (hd false (faults w))))
               (set_faults (tail (faults w)) w))))) as [E1 E2].
    cbn in E1, E2 |- *. rewrite E1, E2. rewrite <- !app_assoc. done.
  - destruct (IH (nmdc ++ [PeerOther o])%list w) as [E1 E2].
    cbn. rewrite E1, E2. by rewrite <- app_assoc.
Qed.

Lemma broadcastChat_others (from : Peer) (text : string) (qs : list otherPeer) (w : World) :
  let r := exec (broadcastChat from text (PeerOther <$> qs)) w in
  fst r = Done tt /\
  trace (snd r) = (trace w ++ ((fun q => EvOther q (OChatMsg from text)) <$> qs))%list.
Proof.
  revert w; induction qs as [|q qs IH]; intros w; cbn.
  - by rewrite app_nil_r.
  - destruct (IH (emit (EvOther q (OChatMsg from text)) w)) as [E1 E2].
    cbn in E1, E2. rewrite E1, E2. by rewrite <- app_assoc.
Qed.

Lemma wire_attempts_others (from : Peer) (text : string) (qs : list otherPeer) :
  wire_attempts ((fun q => EvOther q (OChatMsg from text)) <$> qs) = [].
Proof. induction qs; cbn; auto. Qed.

Lemma wire_attempts_app (l1 l2 : list event) :
  wire_attempts (l1 ++ l2) = (wire_attempts l1 ++ wire_attempts l2)%list.
Proof. apply omap_app. Qed.

(** What [adcBroadcast] does when it is given a list: the fan-out to the
    ADC peers, then calls on the peers of the sibling protocol or a log
    line, none of which writes to a connection. *)
Lemma adcBroadcast_run (b : BroadcastPacket) (from : Peer) (l : list Peer) (w : World) :
  let r := exec (adcBroadcast b from (Some l)) w in
  fst r = Done tt /\
  exists rest,
    since w (snd r) = (fanout_events b l (faults w) ++ rest)%list /\
    wire_attempts rest = [].
Proof.
  unfold adcBroadcast. cbn [bind]. rewrite exec_bind.
  destruct (fanout_run b l [] w) as [E1 E2].
  destruct (exec (fanout b l []) w) as [o w1]. cbn [fst snd] in E1, E2.
  rewrite E1. cbn [app].
  destruct (others l) as [|q qs] eqn:Ho; cbn [fmap list_fmap].
  { cbn. split; [done|]. exists []. rewrite app_nil_r. by rewrite (since_app _ _ _ E2). }
  destruct (Decode (bcName b) (bcData b)) as [e|m].
  { cbn. split; [done|]. eexists. split; [|shelve].
    apply since_app. cbn. rewrite E2, <- app_assoc. done. }
  destruct m;
    try (cbn; split; [done|]; exists []; rewrite app_nil_r; by rewrite (since_app _ _ _ E2)).
  destruct (broadcastChat_others from Text (q :: qs) w1) as [E3 E4].
  cbn [fmap list_fmap] in E3, E4.
  split; [done|]. eexists. split.
  - apply since_app. rewrite E4, E2, <- app_assoc. done.
  - apply (wire_attempts_others from Text (q :: qs)).
  Unshelve. done.
Qed.

End Routing.

Section Serving.
Context {codec : Codec}.

Lemma elem_of_fanout_quiet (b : BroadcastPacket) (a : adcPeer) (l : list Peer) :
  PeerADC a ∈ l ->
  EvWire (conn a) (WritePacket (PBroadcast b)) true ∈ fanout_events b l [] /\
  EvWire (conn a) Flush true ∈ fanout_events b l [].
Proof.
  induction l as [|[a'|o] l IH]; intros Hin.
  - by apply elem_of_nil in Hin.
  - cbn. apply elem_of_cons in Hin as [[= ->]|Hin].
    + split; [apply elem_of_cons; by left|].
      apply elem_of_cons; right; apply elem_of_cons; by left.
    + destruct (IH Hin). split; do 2 (apply elem_of_cons; right); done.
  - cbn. apply elem_of_cons in Hin as [?|Hin]; [done|]. by apply IH.
Qed.

(** An iteration of the serving loop on a broadcast that carries the peer's
    own SID. *)
Lemma serve_broadcast (peer : adcPeer) (b : BroadcastPacket)
    (rest : list (error + Packet)) (w : World) :
  inbox w !! conn_id (conn peer) = Some (inr (PBroadcast b) :: rest) ->
  bcID b = sid peer ->
  is_free (mu w) = true ->
  exists w1,
    (forall fuel, exec (adcServePeer (S fuel) peer) w = exec (adcServePeer fuel peer) w1) /\
    since w w1 =
      [EvRead (conn peer); EvRLock; EvLoad ListPeers; EvRUnlock;
       EvGo (TBroadcast b (PeerADC peer) (Some (listPeers (found w))));
       EvLog (LogPacket (sid peer) (PBroadcast b))].
Proof.
  intros Hin Hid Hfree. apply is_free_unlocked in Hfree.
  eexists. split.
  - intros fuel. cbn [adcServePeer exec step]. rewrite Hin. cbn [exec].
    destruct (decide (sid peer <> bcID b)) as [Hne|_]; [by rewrite Hid in Hne|].
    unfold Peers, locked_read. cbn [bind exec step].
    cbn [mu emit set_inbox]. rewrite Hfree. cbn [writer readers unlocked Nat.eqb].
    cbn [exec step]. cbn [mu readers emit set_mu]. reflexivity.
  - apply since_app. cbn. rewrite <- !app_assoc. done.
Qed.

(** C6: when the serving loop of an admitted peer A reads a broadcast
    that carries A's SID, it starts [adcBroadcast] on that packet with the
    snapshot [Peers] returns, and A is in that snapshot; the task asks
    every ADC peer of the snapshot, A among them, to write that very packet
    and to flush, and asks nothing else of any connection. *)
Theorem broadcast_reaches_sender (peer : adcPeer) (b : BroadcastPacket)
    (rest : list (error + Packet)) (w : World) :
  inbox w !! conn_id (conn peer) = Some (inr (PBroadcast b) :: rest) ->
  bcID b = sid peer ->
  is_free (mu w) = true ->
  bySID (found w) !! sid peer = Some (PeerADC peer) ->
  let l := listPeers (found w) in
  let t := TBroadcast b (PeerADC peer) (Some l) in
  (exists w1,
     (forall fuel,
        exec (adcServePeer (S fuel) peer) w = exec (adcServePeer fuel peer) w1) /\
     since w w1 =
       [EvRead (conn peer); EvRLock; EvLoad ListPeers; EvRUnlock; EvGo t;
        EvLog (LogPacket (sid peer) (PBroadcast b))]) /\
  PeerADC peer ∈ l /\
  (forall w2,
     let r := exec (run_task t) w2 in
     fst r = Done tt /\
     wire_attempts (since w2 (snd r)) = deliveries b l /\
     (conn peer, WritePacket (PBroadcast b)) ∈ wire_attempts (since w2 (snd r)) /\
     (conn peer, Flush) ∈ wire_attempts (since w2 (snd r)) /\
     (faults w2 = [] ->
      EvWire (conn peer) (WritePacket (PBroadcast b)) true ∈ since w2 (snd r) /\
      EvWire (conn peer) Flush true ∈ since w2 (snd r))).
Proof.
  intros Hin Hid Hfree Hadm l t.
  assert (Hl : PeerADC peer ∈ l) by (apply elem_of_listPeers; eauto).
  split; [by eapply serve_broadcast|]. split; [done|].
  intros w2 r. subst r t. cbn [run_task].
  destruct (adcBroadcast_run b (PeerADC peer) l w2) as (E1 & tl & E2 & E3).
  destruct (elem_of_deliveries b peer l Hl) as [D1 D2].
  assert (E4 : wire_attempts (since w2 (snd (exec (adcBroadcast b (PeerADC peer) (Some l)) w2)))
               = deliveries b l).
  { by rewrite E2, wire_attempts_app, wire_attempts_fanout, E3, app_nil_r. }
  rewrite E4, E2. do 4 (split; [done|]). intros ->.
  split; apply elem_of_app; left; by apply elem_of_fanout_quiet.
Qed.

(** C10: on a packet that is not a broadcast, an echo or a direct packet
    the serving loop goes on to the next read, having logged the packet and
    done nothing else; an iteration returns only at the end of the stream,
    on a read error, on a broadcast, echo or direct packet whose SID is not
    the peer's, or when writing an echo back fails. *)
Theorem serve_skips_unrouted (peer : adcPeer) (w : World) :
  (forall p rest,
     inbox w !! conn_id (conn peer) = Some (inr p :: rest) ->
     is_routed p = false ->
     exists w1,
       (forall fuel,
          exec (adcServePeer (S fuel) peer) w = exec (adcServePeer fuel peer) w1) /\
       since w w1 = [EvRead (conn peer); EvLog (LogPacket (sid peer) p)] /\
       peers w1 = peers w /\ mu w1 = mu w /\
       inbox w1 = <[conn_id (conn peer) := rest]> (inbox w)) /\
  (forall r, fst (exec (adcServePeer 1 peer) w) = Done (Some r) -> stop_cause peer w r).
Proof.
  split.
  - intros p rest Hin Hp. eexists. split; [|split].
    + intros fuel. cbn [adcServePeer exec step]. rewrite Hin. cbn [exec].
      destruct p; try discriminate Hp; cbn [exec step]; reflexivity.
    + apply since_app. cbn. rewrite <- !app_assoc. done.
    + done.
  - intros r. unfold stop_cause. cbn [adcServePeer exec step].
    destruct (inbox w !! conn_id (conn peer)) as [[|[e|p] rest]|]; cbn [exec fst].
    + by intros [= <-].
    + destruct e; cbn [exec fst]; by intros [= <-].
    + destruct p as [?|?|b|d|d]; cbn [exec step fst]; try done.
      * destruct (decide (sid peer <> bcID b)); [by intros [= <-]|].
        unfold Peers, locked_read. cbn [bind exec step].
        repeat match goal with
               | |- context [if ?c then _ else _] => destruct c
               | |- context [match readers ?m with _ => _ end] => destruct (readers m)
               end; cbn; done.
      * destruct (decide (sid peer <> dID d)); [by intros [= <-]|]. done.
      * destruct (decide (sid peer <> dID d)) as [?|Heq]; [intros [= <-]; by left|].
        apply dec_stable in Heq. cbn [exec step]. unfold wire_result, writes_ok.
        cbn [faults emit set_inbox set_faults].
        destruct (faults w) as [|[] [|[] fs]]; cbn; try done;
          intros [= <-]; right; done.
    + by intros [= <-].
Qed.

(** The loop ends before the fuel does when the connection delivers an
    error or the end of the stream before the fuel runs out. *)
Lemma serve_returns (peer : adcPeer) (fuel : nat) (w : World)
    (pkts : list Packet) (x : error) (rest : list (error + Packet)) :
  is_free (mu w) = true ->
  inbox w !! conn_id (conn peer) = Some ((inr <$> pkts) ++ inl x :: rest)%list ->
  (length pkts < fuel)%nat ->
  exists r, fst (exec (adcServePeer fuel peer) w) = Done (Some r).
Proof.
  revert w pkts; induction fuel as [|fuel IH]; intros w pkts Hfree Hin Hlen; [lia|].
  apply is_free_unlocked in Hfree.
  cbn [adcServePeer exec step]. rewrite Hin.
  destruct pkts as [|p pkts]; cbn [fmap list_fmap app exec fst].
  { destruct x; eexists; reflexivity. }
  cbn in Hlen.
  assert (Hnext : forall w1, mu w1 = unlocked ->
            inbox w1 = <[conn_id (conn peer) := ((inr <$> pkts) ++ inl x :: rest)%list]>
                         (inbox w) ->
            exists r, fst (exec (adcServePeer fuel peer) w1) = Done (Some r)).
  { intros w1 Hm Hi. apply (IH w1 pkts); [by rewrite Hm| |lia].
    by rewrite Hi, lookup_insert_eq. }
  destruct p as [?|?|b|d|d]; cbn [exec step].
  - by apply Hnext.
  - by apply Hnext.
  - destruct (decide (sid peer <> bcID b)); [by eexists|].
    unfold Peers, locked_read. cbn [bind exec step].
    cbn [mu emit set_inbox]. rewrite Hfree. cbn [writer readers unlocked Nat.eqb].
    cbn [exec step]. cbn [mu readers emit set_mu]. cbn [exec step]. by apply Hnext.
  - destruct (decide (sid peer <> dID d)); [by eexists|].
    cbn [exec step]. by apply Hnext.
  - destruct (decide (sid peer <> dID d)); [by eexists|].
    cbn [exec step]. unfold wire_result.
    destruct (hd false _); [by eexists|]. cbn [exec step]. unfold wire_result.
    destruct (hd false _); [by eexists|]. cbn [exec step]. apply Hnext; cbn; done.
Qed.

End Serving.

(** ** The theorems on the small hub *)

Lemma admission_atomic_witness :
  let w := ex_world_in ex_reserved [] [] in
  fst (exec (identityAccept ex_peer ex_alice) w) = Done [] /\
  peers (snd (exec (identityAccept ex_peer ex_alice) w)) =
    accepted ex_peer ex_alice ex_alice ex_reserved /\
  (forall p' l w',
     rtc par_step (identityAccept ex_peer ex_alice, Peers, w) (p', Ret l, w') ->
     l = listPeers ex_reserved \/
     l = listPeers (accepted ex_peer ex_alice ex_alice ex_reserved)).
Proof.
  intros w.
  pose proof (admission_atomic ex_peer ex_alice w eq_refl)
    as (_ & H2 & _ & H4 & _ & _ & H7).
  split; [exact H2|]. split; [exact H4|]. exact (proj2 (H7 eq_refl)).
Defined.

Lemma uniqueness_commit_witness :
  fst (exec (identityBind ex_peer ex_alice) (ex_world_in ex_reserved [] [])) =
    Done (Some errNickTaken) /\
  peers (snd (exec (identityBind ex_peer ex_alice) (ex_world_in ex_reserved [] []))) =
    ex_reserved.
Proof.
  pose proof (uniqueness_commit ex_peer ex_alice (ex_world_in ex_reserved [] []) eq_refl)
    as (H1 & _).
  destruct H1 as (E1 & E2 & _).
  - left. apply (bool_decide_unpack _). vm_compute. exact I.
  - split; [exact E1|exact E2].
Defined.

Lemma nick_reported_before_cid_witness :
  fst (exec (identityPeek ex_peer ex_alice) (ex_world_in ex_reserved [] [])) =
    Done (Some errNickTaken) /\
  fst (exec (identityBind ex_peer ex_alice) (ex_world_in ex_reserved [] [])) =
    Done (Some errNickTaken).
Proof.
  pose proof (nick_reported_before_cid ex_peer ex_alice (ex_world_in ex_reserved [] [])
                eq_refl) as (H1 & _).
  destruct H1 as ((E1 & _) & (E2 & _)).
  - left. apply (bool_decide_unpack _). vm_compute. exact I.
  - split; [exact E1|exact E2].
Defined.

Lemma protocol_feature_gate_witness :
  fst (exec (adcStageProtocol (codec:=ex_codec) ex_conn)
            (ex_world [inr (PHub (mkBase Cmd_Supported "ADBASE"))] [])) =
  Done (inl errNoTIGR).
Proof.
  pose proof (protocol_feature_gate (codec:=ex_codec) ex_conn
                (ex_world [inr (PHub (mkBase Cmd_Supported "ADBASE"))] [])
                (mkBase Cmd_Supported "ADBASE") [] (<[FeaBASE := true]> ∅)
                eq_refl eq_refl eq_refl) as (_ & _ & _ & H4 & _).
  apply H4; vm_compute; reflexivity.
Defined.

Lemma broadcast_reaches_sender_witness :
  PeerADC ex_peer ∈ listPeers ex_admitted /\
  (conn ex_peer, WritePacket (PBroadcast ex_hello)) ∈
    wire_attempts
      (since (ex_world_in ex_admitted [] [])
         (snd (exec (run_task (codec:=ex_codec)
                       (TBroadcast ex_hello (PeerADC ex_peer) (Some (listPeers ex_admitted))))
                    (ex_world_in ex_admitted [] [])))).
Proof.
  pose proof (broadcast_reaches_sender (codec:=ex_codec) ex_peer ex_hello []
                (ex_world_in ex_admitted [inr (PBroadcast ex_hello)] [])
                eq_refl eq_refl eq_refl eq_refl) as (_ & H2 & H3).
  split; [exact H2|].
  exact (proj1 (proj2 (proj2 (H3 (ex_world_in ex_admitted [] []))))).
Defined.

(** ** More on routing *)

(** X1 (lines 315-326): a direct packet is written, and flushed, to the
    connection of the ADC peer registered under its target SID and to no
    other; when the target is absent or is a peer of the sibling protocol
    nothing is written.  The registry is only read. *)
Theorem direct_to_target_only (d : DirectPacket) (w : World) :
  is_free (mu w) = true ->
  let r := exec (adcDirect d) w in
  fst r = Done tt /\ peers (snd r) = found w /\ mu (snd r) = unlocked /\
  wire_attempts (since w (snd r)) =
    match bySID (found w) !! dTarg d with
    | Some (PeerADC a) => [(conn a, WritePacket (PDirect d)); (conn a, Flush)]
    | _ => []
    end.
Proof.
  intros Hfree r. subst r. apply is_free_unlocked in Hfree.
  unfold adcDirect, lookupSID, locked_read. cbn [bind exec step].
  rewrite Hfree. cbn [writer readers unlocked Nat.eqb exec step ask].
  cbn [mu readers emit set_mu peers interfere set_env set_peers].
  destruct (bySID (found w) !! dTarg d) as [[a|o]|]; cbn [exec step];
    (split; [done|]); (split; [done|]); (split; [done|]);
    (erewrite since_app; [|cbn; rewrite <- ?app_assoc; reflexivity]); reflexivity.
Qed.

(** X2 (lines 54-81): a broadcast, echo or direct packet whose originator
    SID is not the SID the hub assigned to the connection ends the serving
    loop with an error; nothing is written, routed or logged, and the
    registry is not even read. *)
Theorem serve_rejects_foreign_sid (peer : adcPeer) (w : World) (p : Packet)
    (rest : list (error + Packet)) (s : SID) (fuel : nat) :
  inbox w !! conn_id (conn peer) = Some (inr p :: rest) ->
  packet_sid p = Some s ->
  s <> sid peer ->
  let r := exec (adcServePeer (S fuel) peer) w in
  (exists msg, fst r = Done (Some (Some (fmt_Errorf msg)))) /\
  since w (snd r) = [EvRead (conn peer)] /\
  peers (snd r) = peers w /\ mu (snd r) = mu w /\ faults (snd r) = faults w.
Proof.
  intros Hin Hs Hne r. subst r. cbn [adcServePeer exec step]. rewrite Hin. cbn [exec].
  destruct p as [?|?|b|d|d]; try discriminate Hs; injection Hs as <-.
  - destruct (decide (sid peer <> bcID b)) as [_|Heq]; [|by destruct Heq].
    cbn. split; [by eexists|]. split; [by apply since_app|done].
  - destruct (decide (sid peer <> dID d)) as [_|Heq]; [|by destruct Heq].
    cbn. split; [by eexists|]. split; [by apply since_app|done].
  - destruct (decide (sid peer <> dID d)) as [_|Heq]; [|by destruct Heq].
    cbn. split; [by eexists|]. split; [by apply since_app|done].
Qed.

(** X3 (lines 63-74): an echo packet that carries the peer's own SID is
    written back to the peer and flushed, and only then handed to
    [adcDirect] as a direct packet; when the write or the flush fails the
    loop returns that error and the target never sees the packet. *)
Theorem serve_echo (peer : adcPeer) (w : World) (e : DirectPacket)
    (rest : list (error + Packet)) :
  inbox w !! conn_id (conn peer) = Some (inr (PEcho e) :: rest) ->
  dID e = sid peer ->
  (writes_ok 2 (faults w) = true ->
   exists w1,
     (forall fuel,
        exec (adcServePeer (S fuel) peer) w = exec (adcServePeer fuel peer) w1) /\
     since w w1 =
       [EvRead (conn peer); EvWire (conn peer) (WritePacket (PEcho e)) true;
        EvWire (conn peer) Flush true; EvGo (TDirect e);
        EvLog (LogPacket (sid peer) (PEcho e))]) /\
  (writes_ok 2 (faults w) = false ->
   forall fuel,
     let r := exec (adcServePeer (S fuel) peer) w in
     fst r = Done (Some (Some ErrTransport)) /\
     since w (snd r) =
       EvRead (conn peer) ::
       attempts (conn peer) [WritePacket (PEcho e); Flush] (faults w)).
Proof.
  intros Hin Hid. unfold writes_ok. split.
  - intros Hok.
    exists (emit (EvLog (LogPacket (sid peer) (PEcho e)))
             (emit (EvGo (TDirect e))
                (emit (EvWire (conn peer) Flush true)
                   (set_faults (tail (tail (faults w)))
                      (emit (EvWire (conn peer) (WritePacket (PEcho e)) true)
                         (set_faults (tail (faults w))
                            (emit (EvRead (conn peer))
                               (set_inbox (<[conn_id (conn peer) := rest]> (inbox w))
                                          w)))))))).
    split.
    + intros fuel. cbn [adcServePeer exec step]. rewrite Hin. cbn [exec].
      destruct (decide (sid peer <> dID e)) as [Hne|_]; [by rewrite Hid in Hne|].
      cbn [exec step]. unfold wire_result. cbn [faults emit set_inbox set_faults].
      destruct (faults w) as [|[] [|[] fs]]; try discriminate Hok;
        cbn [hd tail exec step faults emit set_faults negb]; reflexivity.
    + apply since_app. cbn. rewrite <- ?app_assoc. reflexivity.
  - intros Hbad fuel. cbn [adcServePeer exec step]. rewrite Hin. cbn [exec].
    destruct (decide (sid peer <> dID e)) as [Hne|_]; [by rewrite Hid in Hne|].
    cbn [exec step]. unfold wire_result. cbn [faults emit set_inbox set_faults].
    destruct (faults w) as [|[] [|[] fs]]; try discriminate Hbad;
      cbn [hd tail exec step faults emit set_faults fst snd];
      (split; [reflexivity|]); apply since_app; cbn; rewrite <- ?app_assoc; reflexivity.
Qed.

(** ** Sending lists of peers *)

Lemma writes_ok_step (n : nat) (fs : list bool) :
  writes_ok (S n) fs = negb (hd false fs) && writes_ok n (tail fs).
Proof. unfold writes_ok. destruct fs as [|[] fs]; cbn; [by destruct n|done|done]. Qed.

Lemma PeersLeave_run (p : adcPeer) (l : list Peer) (w : World) :
  let r := exec (PeersLeave p l) w in
  fst r = Done (writes_result (length l + 1) (faults w)) /\
  trace (snd r) = (trace w ++ attempts (conn p) (leave_ops l) (faults w))%list /\
  peers (snd r) = peers w /\ mu (snd r) = mu w /\ users (snd r) = users w.
Proof.
  revert w; induction l as [|q l IH]; intros w; cbn [PeersLeave exec step].
  - unfold writes_result, writes_ok, wire_result, leave_ops. cbn.
    destruct (faults w) as [|[] fs]; cbn; done.
  - unfold writes_result, wire_result. cbn [length Nat.add]. rewrite writes_ok_step.
    unfold leave_ops. cbn [fmap list_fmap app attempts].
    destruct (hd false (faults w)) eqn:Hhd; cbn [negb andb exec fst snd].
    + cbn. done.
    + specialize (IH (emit (EvWire (conn p) (WriteInfoMsg (Disconnect (Peer_SID q))) true)
                           (set_faults (tail (faults w)) w))).
      cbn [faults emit set_faults] in IH. destruct IH as (E1 & E2 & E3 & E4 & E5).
      unfold leave_ops in E2. rewrite E1, E2, E3, E4, E5. cbn.
      rewrite <- app_assoc. done.
Qed.

(** X4 (lines 421-430): [PeersLeave] writes one QUI per listed peer, in the
    order of the list and carrying that peer's SID, and flushes after the
    last; it stops at the first failure, so nothing is flushed after a
    failed write, and returns nil exactly when no write and no flush
    failed.  It touches neither the registry nor its lock. *)
Theorem PeersLeave_writes (p : adcPeer) (l : list Peer) (w : World) :
  let r := exec (PeersLeave p l) w in
  fst r = Done (writes_result (length l + 1) (faults w)) /\
  since w (snd r) = attempts (conn p) (leave_ops l) (faults w) /\
  peers (snd r) = peers w /\ mu (snd r) = mu w /\ users (snd r) = users w.
Proof.
  cbv zeta. destruct (PeersLeave_run p l w) as (H1 & H2 & H3).
  split; [done|]. split; [by apply since_app|done].
Qed.

Section Joins.
Context {codec : Codec}.

Lemma PeersJoin_run (p : adcPeer) (l : list Peer) (w : World) :
  let r := exec (PeersJoin p l) w in
  fst r = Done (writes_result (length l + 1) (faults w)) /\
  trace (snd r) = (trace w ++ attempts (conn p) (join_ops w l) (faults w))%list /\
  peers (snd r) = peers w /\ mu (snd r) = mu w /\ users (snd r) = users w.
Proof.
  cut (forall us, users w = us ->
       let r := exec (PeersJoin p l) w in
       fst r = Done (writes_result (length l + 1) (faults w)) /\
       trace (snd r) = (trace w ++ attempts (conn p) (join_ops w l) (faults w))%list /\
       peers (snd r) = peers w /\ mu (snd r) = mu w /\ users (snd r) = us).
  { cbv zeta. intros Hc. destruct (Hc _ eq_refl) as (H1 & H2 & H3).
    done. }
  revert w; induction l as [|q l IH]; intros w us Hus; cbn [PeersJoin].
  - cbn [exec step]. unfold writes_result, writes_ok, wire_result, join_ops. cbn.
    destruct (faults w) as [|[] fs]; cbn; done.
  - assert (Hrun : exec (u <- match q with
                              | PeerADC p2 => Info p2
                              | PeerOther o =>
                                  Ret (mkUser (HashBytes (o_addr o)) None (o_name o)
                                         (soft_Name (o_soft o)) (soft_Vers (o_soft o)) "")
                              end;;
                         err <~ Wire (conn p) (WriteBroadcast (Peer_SID q) (UserInf u));;
                         match err with
                         | Some e => Ret (Some e)
                         | None => PeersJoin p l
                         end) w =
                   exec (err <~ Wire (conn p)
                                  (WriteBroadcast (Peer_SID q) (UserInf (join_info w q)));;
                         match err with
                         | Some e => Ret (Some e)
                         | None => PeersJoin p l
                         end) w).
    { destruct q; reflexivity. }
    rewrite Hrun. clear Hrun. cbn [exec step].
    unfold writes_result, wire_result. cbn [length Nat.add]. rewrite writes_ok_step.
    unfold join_ops. cbn [fmap list_fmap app attempts].
    destruct (hd false (faults w)) eqn:Hhd; cbn [negb andb exec fst snd].
    + cbn. done.
    + specialize (IH (emit (EvWire (conn p)
                              (WriteBroadcast (Peer_SID q) (UserInf (join_info w q))) true)
                           (set_faults (tail (faults w)) w)) us Hus).
      cbn [faults emit set_faults] in IH. destruct IH as (E1 & E2 & E3 & E4 & E5).
      unfold join_ops in E2. rewrite E1, E2, E3, E4, E5. cbn.
      rewrite <- app_assoc. done.
Qed.

(** X5 (lines 398-419): [PeersJoin] writes one INF broadcast per listed
    peer, in the order of the list, tagged with that peer's SID and
    carrying the record cached on an ADC peer (for a peer of the sibling
    protocol: its name and software, the hash of its address as CID, no
    PID), and flushes after the last; it stops at the first failure and
    returns nil exactly when no write and no flush failed. *)
Theorem PeersJoin_writes (p : adcPeer) (l : list Peer) (w : World) :
  let r := exec (PeersJoin p l) w in
  fst r = Done (writes_result (length l + 1) (faults w)) /\
  since w (snd r) = attempts (conn p) (join_ops w l) (faults w) /\
  peers (snd r) = peers w /\ mu (snd r) = mu w /\ users (snd r) = users w.
Proof.
  cbv zeta. destruct (PeersJoin_run p l w) as (H1 & H2 & H3).
  split; [done|]. split; [by apply since_app|done].
Qed.

End Joins.

(** ** More on the Identity stage *)

Lemma step_env_quiet {X} (e : op X) (w w' : World) (x : X) :
  env w = [] -> step e w = Stepped x w' -> env w' = [].
Proof.
  intros Henv. destruct e; cbn [step];
    repeat match goal with
           | |- context [if ?b then _ else _] => destruct b
           | |- context [match ?b with _ => _ end] => destruct b
           end; try done; intros [= <- <-]; cbn; by rewrite ?Henv.
Qed.

Lemma exec_env_quiet {A} (p : prog A) (w : World) :
  env w = [] -> env (snd (exec p w)) = [].
Proof.
  revert w; induction p as [a|X e k IH]; intros w Henv; cbn [exec]; [done|].
  destruct (step e w) as [x w1| |] eqn:Hs; try done.
  apply IH. eapply step_env_quiet; eauto.
Qed.

Section IdentityMore.
Context {codec : Codec}.

(** X6 (lines 152-165): when the first read of the Identity stage fails, or
    gives anything but a user-info broadcast that unmarshals, the stage
    returns an error at once: nothing is written to the client, no lock is
    taken, and registry and cached record are as before. *)
Theorem identity_rejects_malformed (h : Hub) (peer : adcPeer) (w : World) :
  first_user (next_read w (conn peer)) = None ->
  let r := exec (adcStageIdentity h peer) w in
  (exists e, fst r = Done (Some e)) /\
  since w (snd r) = [EvRead (conn peer)] /\
  peers (snd r) = peers w /\ mu (snd r) = mu w /\
  users (snd r) = users w /\ faults (snd r) = faults w.
Proof.
  intros Hfirst r. subst r. unfold first_user, next_read in Hfirst.
  unfold adcStageIdentity. cbn [exec step].
  destruct (inbox w !! conn_id (conn peer)) as [[|[e|p] rest]|]; cbn [exec];
    try (split; [by eexists|]; split; [by apply since_app|done]).
  destruct p as [?|?|b|?|?]; cbn [exec];
    try (split; [by eexists|]; split; [by apply since_app|done]).
  destruct (decide (bcName b <> Cmd_User)) as [?|Hcmd]; cbn [exec];
    [split; [by eexists|]; split; [by apply since_app|done]|].
  apply dec_stable in Hcmd.
  destruct (decide (bcName b = Cmd_User)) as [_|?]; [|done].
  destruct (UnmarshalUser (bcData b)) as [e|u]; [|done].
  cbn [exec]. split; [by eexists|]. split; [by apply since_app|done].
Qed.

(** X7 (lines 172-176): a record whose PID matches its CID but whose nick
    is empty is refused with "invalid nick": the hub tries to send fatal
    status 21 and touches neither the registry nor the cached record. *)
Theorem identity_rejects_empty_nick (h : Hub) (peer : adcPeer) (w : World)
    (u : User) (pid : PID) :
  first_user (next_read w (conn peer)) = Some u ->
  Pid u = Some pid ->
  PidHash pid = Id u ->
  Name u = "" ->
  let r := exec (adcStageIdentity h peer) w in
  fst r = Done (Some (errors_New "invalid nick")) /\
  since w (snd r) =
    EvRead (conn peer) :: status_events peer 21 (errors_New "invalid nick") (faults w) /\
  peers (snd r) = peers w /\ mu (snd r) = mu w /\ users (snd r) = users w.
Proof.
  intros Hfirst Hpid Hhash Hname r. subst r. unfold first_user, next_read in Hfirst.
  unfold adcStageIdentity. cbn [exec step].
  destruct (inbox w !! conn_id (conn peer)) as [[|[e|p] rest]|]; try done.
  destruct p as [?|?|b|?|?]; try done. cbn [exec].
  destruct (decide (bcName b = Cmd_User)) as [Hcmd|?]; [|done].
  destruct (decide (bcName b <> Cmd_User)) as [?|_]; [done|].
  destruct (UnmarshalUser (bcData b)) as [e|u']; [done|]. injection Hfirst as ->.
  rewrite Hpid. destruct (decide (Id u <> PidHash pid)) as [Hne|_]; [by rewrite Hhash in Hne|].
  destruct (decide (Name (set_Pid None u) = "")) as [_|Hne]; [|by destruct Hne].
  unfold sendError, sendInfo, status_events. cbn [bind exec step]. unfold wire_result.
  cbn [faults emit set_inbox set_faults].
  destruct (faults w) as [|[] [|[] fs]]; cbn;
    (split; [done|]); (split; [|done]); apply since_app; cbn;
    rewrite <- ?app_assoc; reflexivity.
Qed.

End IdentityMore.

(** ** What the Identity stage does to the registry *)

Lemma unbind_run (u : User) (w : World) :
  is_free (mu w) = true ->
  let r := exec (unbind u) w in
  fst r = Done tt /\ peers (snd r) = released u (found w) /\ mu (snd r) = unlocked.
Proof.
  intros Hfree. unfold unbind. cbn [exec step]. rewrite Hfree. cbn. done.
Qed.

Lemma reserve_release_set `{Countable K} (x : K) (L : gset K) :
  x ∉ L -> ({[x]} ∪ L) ∖ {[x]} = L.
Proof.
  intros Hx. apply set_eq. intros y.
  rewrite elem_of_difference, elem_of_union, !elem_of_singleton. split.
  - intros [[->|Hy] Hne]; [by destruct Hne|done].
  - intros Hy. split; [by right|]. by intros ->.
Qed.

Lemma released_reserved (u : User) (r : Registry) :
  ~ nameTaken r u -> ~ cidTaken r u -> released u (reserved u r) = r.
Proof.
  unfold nameTaken, cidTaken, released, reserved. intros Hn Hc.
  destruct r as [s c n l lc]. cbn in *.
  f_equal; apply reserve_release_set; tauto.
Qed.

Lemma accepted_reserved (peer : adcPeer) (u : User) (r : Registry) :
  ~ nameTaken r u -> ~ cidTaken r u ->
  accepted peer u u (reserved u r) = indexed peer u r.
Proof.
  unfold nameTaken, cidTaken, accepted, reserved, indexed. intros Hn Hc.
  destruct r as [s c n l lc]. cbn in *.
  f_equal; apply reserve_release_set; tauto.
Qed.

Section RegistryEffect.
Context {codec : Codec}.

(** Lines 229-285 on a hub where no other goroutine moves. *)
Lemma identityWelcome_registry (h : Hub) (peer : adcPeer) (u0 : User) (w : World) :
  env w = [] ->
  is_free (mu w) = true ->
  let u := with_addr (addr peer) u0 in
  let r := exec (identityWelcome h peer u0) w in
  mu (snd r) = unlocked /\
  ((fst r = Done (Some ErrTransport) /\ peers (snd r) = released u (peers w)) \/
   (fst r = Done None /\ peers (snd r) = accepted peer u u (peers w) /\
    user_of (snd r) peer = u)).
Proof.
  intros Henv Hfree u r. subst r. apply is_free_unlocked in Hfree.
  unfold identityWelcome. cbv zeta. fold (with_addr (addr peer) u0). fold u.
  cbn [exec step]. unfold wire_result.
  cbn [faults set_users].
  set (w1 := emit _ (set_faults _ (set_users _ w))).
  assert (Hw1 : env w1 = [] /\ mu w1 = unlocked /\ peers w1 = peers w /\
                users w1 = <[ref peer := u]> (users w)) by done.
  clearbody w1. destruct Hw1 as (Henv1 & Hmu1 & Hp1 & Hu1).
  assert (Hunbind : forall w' e, env w' = [] -> mu w' = unlocked -> peers w' = peers w ->
            let r := exec (_ <- unbind u;; Ret (Some e : option error)) w' in
            mu (snd r) = unlocked /\ fst r = Done (Some e) /\
            peers (snd r) = released u (peers w)).
  { intros w' e He Hm Hp. rewrite exec_bind.
    destruct (unbind_run u w') as (E1 & E2 & E3); [by rewrite Hm|].
    destruct (exec (unbind u) w') as [o w'']. cbn [fst snd] in *. rewrite E1.
    cbn. unfold found in E2. rewrite He, Hp in E2. done. }
  destruct (hd false (faults w)).
  { destruct (Hunbind w1 ErrTransport Henv1 Hmu1 Hp1) as (? & ? & ?). split; [done|]. by left. }
  cbn [exec step]. unfold Peers, locked_read. cbn [bind exec step].
  cbn [mu emit set_faults]. rewrite Hmu1. cbn [writer readers unlocked Nat.eqb exec step].
  cbn [mu readers writer emit set_mu ask peers interfere set_env set_peers].
  unfold found. cbn [env emit set_faults peers]. rewrite Henv1.
  set (w2 := emit EvRUnlock _).
  assert (Hw2 : env w2 = [] /\ mu w2 = unlocked /\ peers w2 = peers w /\
                users w2 = <[ref peer := u]> (users w)).
  { subst w2. cbn. unfold found. cbn. rewrite ?Henv1. cbn. rewrite ?Hp1, ?Hu1. done. }
  clearbody w2. destruct Hw2 as (Henv2 & Hmu2 & Hp2 & Hu2).
  rewrite exec_bind.
  destruct (PeersJoin_run peer (listPeers (peers w1)) w2) as (J1 & _ & J3 & J4 & J5).
  pose proof (exec_env_quiet (PeersJoin peer (listPeers (peers w1))) w2 Henv2) as J6.
  destruct (exec (PeersJoin peer (listPeers (peers w1))) w2) as [o3 w3].
  cbn [fst snd] in J1, J3, J4, J5, J6. rewrite J1.
  unfold writes_result. destruct (writes_ok _ _).
  2:{ destruct (Hunbind w3 ErrTransport) as (? & ? & ?); try congruence.
      split; [done|]. by left. }
  rewrite exec_bind.
  destruct (PeersJoin_run peer [PeerADC peer] w3) as (K1 & _ & K3 & K4 & K5).
  pose proof (exec_env_quiet (PeersJoin peer [PeerADC peer]) w3 J6) as K6.
  destruct (exec (PeersJoin peer [PeerADC peer]) w3) as [o4 w4].
  cbn [fst snd] in K1, K3, K4, K5, K6. rewrite K1.
  unfold writes_result. destruct (writes_ok _ _).
  2:{ destruct (Hunbind w4 ErrTransport) as (? & ? & ?); try congruence.
      split; [done|]. by left. }
  rewrite exec_bind.
  assert (Hfree4 : is_free (mu w4) = true) by (by rewrite K4, J4, Hmu2).
  destruct (identityAccept_alone peer u w4 Hfree4) as (G1 & G2 & G3 & _).
  assert (G4 : users (snd (exec (identityAccept peer u) w4)) = users w4).
  { apply exec_users. unfold identityAccept. uses_tac. }
  destruct (exec (identityAccept peer u) w4) as [o5 w5].
  cbn [fst snd] in G1, G2, G3, G4. rewrite G1. rewrite exec_bind.
  destruct (broadcastUserJoin_returns (PeerADC peer) (listPeers (found w4)) w5)
    as (a & H1 & H2 & H3).
  pose proof (exec_users (broadcastUserJoin (PeerADC peer) (listPeers (found w4))) w5
                (broadcastUserJoin_no_SetUser _ _)) as H4.
  destruct (exec (broadcastUserJoin _ _) w5) as [o6 w6].
  cbn [fst snd] in H1, H2, H3, H4. rewrite H1. cbn [exec fst snd].
  split; [congruence|]. right. split; [done|].
  assert (Hu4 : user_of w4 peer = u).
  { unfold user_of. by rewrite K5, J5, Hu2, lookup_insert_eq. }
  split.
  - rewrite H3, G2, Hu4. unfold found. rewrite K6. congruence.
  - unfold user_of in *. by rewrite H4, G4.
Qed.
End RegistryEffect.

Section RegistryEffect2.
Context {codec : Codec}.

Lemma with_addr_keys (a : string) (u : User) :
  Name (with_addr a u) = Name u /\ Id (with_addr a u) = Id u.
Proof. unfold with_addr. by destruct (decide _). Qed.

Lemma released_with_addr a u r : released (with_addr a u) r = released u r.
Proof. unfold released. by destruct (with_addr_keys a u) as [-> ->]. Qed.

(** The Identity stage on a hub where no other goroutine moves: it fails
    with the registry as it was, or returns nil with the peer indexed. *)
Lemma identity_registry (h : Hub) (peer : adcPeer) (w : World) :
  env w = [] ->
  is_free (mu w) = true ->
  let r := exec (adcStageIdentity h peer) w in
  (fst r = Panicked /\
   exists u0, first_user (next_read w (conn peer)) = Some u0 /\ Pid u0 = None) \/
  (mu (snd r) = unlocked /\
   ((exists e, fst r = Done (Some e) /\ peers (snd r) = peers w) \/
    (exists u0,
       first_user (next_read w (conn peer)) = Some u0 /\
       let u := with_addr (addr peer) (set_Pid None u0) in
       fst r = Done None /\
       user_of (snd r) peer = u /\
       peers (snd r) = indexed peer u (peers w) /\
       ~ nameTaken (peers w) u /\ ~ cidTaken (peers w) u /\ Name u <> ""))).
Proof.
  intros Henv Hfree r. subst r.
  pose proof (is_free_unlocked _ Hfree) as Hmu.
  unfold first_user, next_read, adcStageIdentity. cbn [exec step].
  destruct (inbox w !! conn_id (conn peer)) as [[|[e|p] rest]|]; cbn [exec];
    try (right; split; [done|]; left; by eexists).
  destruct p as [?|?|b|?|?]; cbn [exec];
    try (right; split; [done|]; left; by eexists).
  destruct (decide (bcName b <> Cmd_User)) as [?|Hcmd]; cbn [exec];
    [right; split; [done|]; left; by eexists|].
  apply dec_stable in Hcmd.
  destruct (decide (bcName b = Cmd_User)) as [_|?]; [|done].
  destruct (UnmarshalUser (bcData b)) as [e|u0]; cbn [exec];
    [right; split; [done|]; left; by eexists|].
  set (w1 := emit (EvRead (conn peer)) _).
  assert (Hw1 : env w1 = [] /\ mu w1 = unlocked /\ peers w1 = peers w) by done.
  clearbody w1. destruct Hw1 as (Henv1 & Hmu1 & Hp1).
  destruct (Pid u0) as [pid|] eqn:Hpid; [|left; split; [done|]; by exists u0].
  right.
  destruct (decide (Id u0 <> PidHash pid)).
  { edestruct (exec_sendError_then (A:=option error)) as (-> & -> & -> & _).
    split; [done|]. left. by eexists. }
  destruct (decide (Name (set_Pid None u0) = "")) as [?|Hnick].
  { edestruct (exec_sendError_then (A:=option error)) as (-> & -> & -> & _).
    split; [done|]. left. by eexists. }
  set (u := set_Pid None u0) in *.
  rewrite exec_bind.
  assert (Hfree1 : is_free (mu w1) = true) by (by rewrite Hmu1).
  destruct (identityPeek_cases peer u w1 Hfree1) as (P0 & Pm & P1 & P2 & P3).
  pose proof (exec_env_quiet (identityPeek peer u) w1 Henv1) as Pe.
  rewrite (found_quiet _ Henv1) in P0, P1, P2, P3.
  destruct (exec (identityPeek peer u) w1) as [o2 w2]. cbn [fst snd] in *.
  destruct (decide (nameTaken (peers w1) u)) as [Hn|Hn].
  { destruct (P1 Hn) as [-> _]. cbn [exec fst snd].
    split; [done|]. left. eexists. split; [done|]. congruence. }
  destruct (decide (cidTaken (peers w1) u)) as [Hc|Hc].
  { destruct (P2 Hn Hc) as [-> _]. cbn [exec fst snd].
    split; [done|]. left. eexists. split; [done|]. congruence. }
  destruct (P3 Hn Hc) as [-> _]. rewrite exec_bind.
  assert (Hfree2 : is_free (mu w2) = true) by (by rewrite Pm).
  destruct (identityBind_cases peer u w2 Hfree2) as (Bm & B1 & B2 & B3).
  pose proof (exec_env_quiet (identityBind peer u) w2 Pe) as Be.
  rewrite (found_quiet _ Pe), P0 in B1, B2, B3.
  destruct (exec (identityBind peer u) w2) as [o3 w3]. cbn [fst snd] in *.
  destruct (B3 Hn Hc) as (-> & Bp & _). cbn [exec fst snd].
  assert (Hfree3 : is_free (mu w3) = true) by (by rewrite Bm).
  destruct (identityWelcome_registry h peer u w3 Be Hfree3) as (Wm & W).
  split; [done|].
  destruct W as [(W1 & W2)|(W1 & W2 & W3)].
  - left. eexists. split; [done|].
    rewrite W2, Bp, released_with_addr, released_reserved by done. done.
  - right. exists u0. split; [done|]. fold u.
    destruct (with_addr_keys (addr peer) u) as [Kn Ki].
    split; [done|]. split; [done|]. split.
    + rewrite W2, Bp. rewrite <- Hp1.
      unfold accepted, indexed, reserved, nameTaken, cidTaken in *.
      rewrite Kn, Ki. destruct (peers w1) as [rs rc rn rl rlc]. cbn in *.
      f_equal; apply reserve_release_set; tauto.
    + unfold nameTaken, cidTaken. rewrite Kn, Ki, <- Hp1. done.
Qed.

Lemma identity_done (h : Hub) (peer : adcPeer) (w : World) (o : option error) :
  env w = [] ->
  is_free (mu w) = true ->
  fst (exec (adcStageIdentity h peer) w) = Done o ->
  let w' := snd (exec (adcStageIdentity h peer) w) in
  mu w' = unlocked /\
  match o with
  | Some _ => peers w' = peers w
  | None =>
      peers w' = indexed peer (user_of w' peer) (peers w) /\
      ~ nameTaken (peers w) (user_of w' peer) /\
      ~ cidTaken (peers w) (user_of w' peer) /\
      Name (user_of w' peer) <> ""
  end.
Proof.
  intros Henv Hfree Hres. cbv zeta.
  destruct (identity_registry h peer w Henv Hfree)
    as [[Hp _]|[Hm [(e' & Hn & Hp)|(u0 & _ & Hn & Hu & Hp & Hk)]]].
  - rewrite Hres in Hp. done.
  - split; [done|]. rewrite Hres in Hn. injection Hn as ->. done.
  - split; [done|]. rewrite Hres in Hn. injection Hn as ->. rewrite Hu. done.
Qed.

(** X8 (lines 149-285): on a hub where no other goroutine moves, an
    Identity stage that returns an error leaves the registry exactly as it
    was, whatever the step that failed: the indices are untouched and the
    reservations it may have made are gone. *)
Theorem identity_failure_keeps_registry (h : Hub) (peer : adcPeer) (w : World)
    (e : error) :
  env w = [] ->
  is_free (mu w) = true ->
  fst (exec (adcStageIdentity h peer) w) = Done (Some e) ->
  peers (snd (exec (adcStageIdentity h peer) w)) = peers w /\
  mu (snd (exec (adcStageIdentity h peer) w)) = unlocked.
Proof.
  intros Henv Hfree Hres.
  by destruct (identity_done h peer w (Some e) Henv Hfree Hres) as [Hm Hp].
Qed.

(** X9 (lines 149-285): on a hub where no other goroutine moves, an
    Identity stage that returns nil has added the peer to [bySID] under its
    SID, to [byCID] under the CID and to [byName] under the nick of the
    record it cached, has changed nothing else in the registry, and that
    nick, which is not empty, and that CID were neither reserved nor
    indexed before. *)
Theorem identity_success_indexes (h : Hub) (peer : adcPeer) (w : World) :
  env w = [] ->
  is_free (mu w) = true ->
  fst (exec (adcStageIdentity h peer) w) = Done None ->
  let w' := snd (exec (adcStageIdentity h peer) w) in
  let u := user_of w' peer in
  peers w' = indexed peer u (peers w) /\
  ~ nameTaken (peers w) u /\ ~ cidTaken (peers w) u /\ Name u <> "" /\
  mu w' = unlocked.
Proof.
  intros Henv Hfree Hres w' u. subst u w'.
  by destruct (identity_done h peer w None Henv Hfree Hres) as (Hm & Hp & Hn & Hc & Hk).
Qed.

(** X10 (lines 149-285): on a hub where no other goroutine moves, the
    Identity stage keeps reserved and indexed keys apart: if no nick and no
    CID was both reserved and indexed before it ran, none is after, whether
    it failed or admitted the peer. *)
Theorem identity_keeps_reservations_apart (h : Hub) (peer : adcPeer) (w : World)
    (o : option error) :
  env w = [] ->
  is_free (mu w) = true ->
  fst (exec (adcStageIdentity h peer) w) = Done o ->
  reservations_apart (peers w) ->
  reservations_apart (peers (snd (exec (adcStageIdentity h peer) w))).
Proof.
  intros Henv Hfree Hres Hinv.
  pose proof (identity_done h peer w o Henv Hfree Hres) as [_ Hd]. destruct o as [e|].
  - by rewrite Hd.
  - destruct Hd as (-> & Hn & Hc & _).
    destruct Hinv as [I1 I2]. unfold nameTaken, cidTaken in *.
    split; cbn [indexed logging loggingCID byName byCID]; intros k Hk.
    + rewrite lookup_insert_ne; [by apply I1|]. intros <-. apply Hn. by left.
    + rewrite lookup_insert_ne; [by apply I2|]. intros <-. apply Hc. by left.
Qed.

End RegistryEffect2.

(** ** More on the Protocol stage *)

Section ProtocolMore.
Context {codec : Codec}.

(** X11 (lines 87-102): when the first read of the Protocol stage fails, or
    gives anything but a SUP hub packet that unmarshals, the stage returns
    an error at once: nothing is written, no SID is allocated and no peer
    is created. *)
Theorem protocol_rejects_malformed (c : Conn) (w : World) :
  first_features (next_read w c) = None ->
  let r := exec (adcStageProtocol c) w in
  (exists e, fst r = Done (inl e)) /\
  since w (snd r) = [EvRead c] /\
  lastSID (snd r) = lastSID w /\ nextRef (snd r) = nextRef w /\
  faults (snd r) = faults w.
Proof.
  intros Hfirst r. subst r. unfold first_features, next_read in Hfirst.
  unfold adcStageProtocol. cbn [exec step].
  destruct (inbox w !! conn_id c) as [[|[e|p] rest]|]; cbn [exec];
    try (split; [by eexists|]; split; [by apply since_app|done]).
  destruct p as [?|hp|?|?|?]; cbn [exec];
    try (split; [by eexists|]; split; [by apply since_app|done]).
  destruct (decide (bName hp <> Cmd_Supported)) as [?|Hcmd]; cbn [exec];
    [split; [by eexists|]; split; [by apply since_app|done]|].
  apply dec_stable in Hcmd.
  destruct (decide (bName hp = Cmd_Supported)) as [_|?]; [|done].
  destruct (UnmarshalSupported (bData hp)) as [e|sup]; [|done].
  cbn [exec]. split; [by eexists|]. split; [by apply since_app|done].
Qed.

Lemma adcStageProtocol_never_stuck (c : Conn) : uses (@never_stuck) (adcStageProtocol c).
Proof. unfold adcStageProtocol. uses_tac. Qed.

Lemma protocol_new_peer (c : Conn) (w : World) (peer : adcPeer) :
  let r := exec (adcStageProtocol c) w in
  fst r = Done (inr peer) ->
  conn peer = c /\ addr peer = RemoteAddr c /\
  sid peer = lastSID (snd r) /\ lastSID (snd r) = lastSID w + 1 /\
  ref peer = nextRef w /\ nextRef (snd r) = nextRef w + 1.
Proof.
  cbv zeta. unfold adcStageProtocol. cbn [exec step].
  destruct (inbox w !! conn_id c) as [[|[e|p] rest]|]; cbn [exec fst]; try done.
  - destruct p as [?|hp|?|?|?]; cbn [exec fst]; try done.
    destruct (decide (bName hp <> Cmd_Supported)); cbn [exec fst]; [done|].
    destruct (UnmarshalSupported (bData hp)) as [e|sup]; cbn [exec fst]; [done|].
    destruct (negb _ && negb _); cbn [exec fst]; [done|].
    destruct (negb _); cbn [exec fst]; [done|].
    unfold wire_result.
    destruct (faults w) as [|[] [|[] [|[] fs]]] eqn:Hf;
      do 4 (cbn [exec step faults emit set_faults set_inbox set_lastSID hd tail];
            rewrite ?Hf);
      cbn; try done; intros [= <-]; done.
Qed.

(** X12 (lines 86-147): the Protocol stage always returns, and whatever it
    returns it has left the registry, its lock and the cached records
    alone; the peer it returns on success is a new object on the given
    connection, with the connection's remote address and with the SID the
    allocator has just handed out. *)
Theorem protocol_leaves_registry (c : Conn) (w : World) :
  let r := exec (adcStageProtocol c) w in
  (exists x, fst r = Done x) /\
  peers (snd r) = peers w /\ mu (snd r) = mu w /\ users (snd r) = users w /\
  (forall peer, fst r = Done (inr peer) ->
     conn peer = c /\ addr peer = RemoteAddr c /\
     sid peer = lastSID (snd r) /\ lastSID (snd r) = lastSID w + 1 /\
     ref peer = nextRef w /\ nextRef (snd r) = nextRef w + 1).
Proof.
  intros r. subst r.
  destruct (exec_never_stuck (adcStageProtocol c) w (adcStageProtocol_never_stuck c))
    as (x & Hx & Hm & Hp).
  split; [by exists x|]. split; [done|]. split; [done|]. split.
  { apply exec_users. unfold adcStageProtocol. uses_tac. }
  intros peer. apply protocol_new_peer.
Qed.

End ProtocolMore.

(** ** One nick, one CID *)

Lemma nameTaken_reserved (u1 u2 : User) (r : Registry) :
  Name u2 = Name u1 -> nameTaken (reserved u1 r) u2.
Proof. intros E. left. cbn. rewrite E. apply elem_of_union_l. by apply elem_of_singleton. Qed.

Lemma cidTaken_reserved (u1 u2 : User) (r : Registry) :
  Id u2 = Id u1 -> cidTaken (reserved u1 r) u2.
Proof. intros E. left. cbn. rewrite E. apply elem_of_union_l. by apply elem_of_singleton. Qed.

Lemma nameTaken_accepted (p : adcPeer) (u1 pu u2 : User) (r : Registry) :
  Name u2 = Name u1 -> nameTaken (accepted p u1 pu r) u2.
Proof. intros E. right. cbn. rewrite E, lookup_insert_eq. by eexists. Qed.

Lemma cidTaken_accepted (p : adcPeer) (u1 pu u2 : User) (r : Registry) :
  Id u2 = Id u1 -> cidTaken (accepted p u1 pu r) u2.
Proof. intros E. right. cbn. rewrite E, lookup_insert_eq. by eexists. Qed.

(** Peek and commit on a registry where nick or CID is taken. *)
Lemma taken_is_refused (p : adcPeer) (u : User) (w : World) :
  is_free (mu w) = true ->
  nameTaken (found w) u \/ cidTaken (found w) u ->
  exists e,
    (e = errNickTaken \/ e = errCIDTaken) /\
    (nameTaken (found w) u -> e = errNickTaken) /\
    fst (exec (identityPeek p u) w) = Done (Some e) /\
    fst (exec (identityBind p u) w) = Done (Some e) /\
    peers (snd (exec (identityBind p u) w)) = found w.
Proof.
  intros Hfree Htaken.
  destruct (identityPeek_cases p u w Hfree) as (_ & _ & P1 & P2 & _).
  destruct (identityBind_cases p u w Hfree) as (_ & B1 & B2 & _).
  destruct (decide (nameTaken (found w) u)) as [Hn|Hn].
  - exists errNickTaken. destruct (P1 Hn) as [? _]. destruct (B1 Hn) as (? & ? & _).
    split; [by left|]. done.
  - destruct Htaken as [?|Hc]; [done|]. exists errCIDTaken.
    destruct (P2 Hn Hc) as [? _]. destruct (B2 Hn Hc) as (? & ? & _).
    split; [by right|]. done.
Qed.

(** X13 (lines 178-227, 266-279): once the commit has bound a nick and a
    CID, a later joiner with the same nick or the same CID is refused, by
    the look under the shared lock and by the commit alike, with "nick
    taken" if the nick is the same, and its commit leaves the registry as
    it was; this holds while the first peer is only reserved and still
    after it has been accepted. *)
Theorem second_joiner_refused (p1 p2 : adcPeer) (u1 u2 : User) (w : World) :
  is_free (mu w) = true ->
  env w = [] ->
  fst (exec (identityBind p1 u1) w) = Done None ->
  Name u2 = Name u1 \/ Id u2 = Id u1 ->
  let w1 := snd (exec (identityBind p1 u1) w) in
  let w2 := snd (exec (identityAccept p1 u1) w1) in
  forall w', w' = w1 \/ w' = w2 ->
    exists e,
      (e = errNickTaken \/ e = errCIDTaken) /\
      (Name u2 = Name u1 -> e = errNickTaken) /\
      fst (exec (identityPeek p2 u2) w') = Done (Some e) /\
      fst (exec (identityBind p2 u2) w') = Done (Some e) /\
      peers (snd (exec (identityBind p2 u2) w')) = peers w'.
Proof.
  intros Hfree Henv Hres Hsame w1 w2.
  destruct (identityBind_cases p1 u1 w Hfree) as (Bm & B1 & B2 & B3).
  pose proof (exec_env_quiet (identityBind p1 u1) w Henv) as Be.
  fold w1 in Bm, B1, B2, B3, Be.
  assert (Hp1 : peers w1 = reserved u1 (found w)).
  { destruct (decide (nameTaken (found w) u1)) as [Hn|Hn];
      [destruct (B1 Hn) as [E _]; congruence|].
    destruct (decide (cidTaken (found w) u1)) as [Hc|Hc];
      [destruct (B2 Hn Hc) as [E _]; congruence|].
    by destruct (B3 Hn Hc) as (_ & ? & _). }
  assert (Hfree1 : is_free (mu w1) = true) by (by rewrite Bm).
  destruct (identityAccept_alone p1 u1 w1 Hfree1) as (_ & A2 & A3 & _).
  pose proof (exec_env_quiet (identityAccept p1 u1) w1 Be) as Ae.
  fold w2 in A2, A3, Ae.
  assert (Htaken : forall w', w' = w1 \/ w' = w2 ->
            is_free (mu w') = true /\ found w' = peers w' /\
            (Name u2 = Name u1 -> nameTaken (peers w') u2) /\
            (Id u2 = Id u1 -> cidTaken (peers w') u2)).
  { intros w' [-> | ->].
    - split; [done|]. split; [by apply found_quiet|]. rewrite Hp1.
      split; [apply nameTaken_reserved|apply cidTaken_reserved].
    - split; [by rewrite A3|]. split; [by apply found_quiet|]. rewrite A2.
      split; [apply nameTaken_accepted|apply cidTaken_accepted]. }
  intros w' Hw'. destruct (Htaken w' Hw') as (Hf & Hfound & Hn & Hc).
  destruct (taken_is_refused p2 u2 w' Hf) as (e & He & Hnick & Hpeek & Hbind & Hpeers).
  { rewrite Hfound. destruct Hsame; [left|right]; auto. }
  exists e. rewrite Hfound in Hnick, Hpeers. repeat split; auto.
Qed.

(** X14 (lines 197-227): the closure [unbind] undoes the commit: on a hub
    where no other goroutine moves, a successful commit followed by
    [unbind] leaves the registry exactly as it was before the commit. *)
Theorem bind_unbind_round_trip (p : adcPeer) (u : User) (w : World) :
  is_free (mu w) = true ->
  env w = [] ->
  fst (exec (identityBind p u) w) = Done None ->
  let w1 := snd (exec (identityBind p u) w) in
  fst (exec (unbind u) w1) = Done tt /\
  peers (snd (exec (unbind u) w1)) = peers w /\
  Name u ∈ logging (peers w1) /\ Id u ∈ loggingCID (peers w1).
Proof.
  intros Hfree Henv Hres w1.
  destruct (identityBind_cases p u w Hfree) as (Bm & B1 & B2 & B3).
  pose proof (exec_env_quiet (identityBind p u) w Henv) as Be.
  fold w1 in Bm, B1, B2, B3, Be. rewrite (found_quiet _ Henv) in *.
  destruct (decide (nameTaken (peers w) u)) as [Hn|Hn];
    [destruct (B1 Hn) as [E _]; congruence|].
  destruct (decide (cidTaken (peers w) u)) as [Hc|Hc];
    [destruct (B2 Hn Hc) as [E _]; congruence|].
  destruct (B3 Hn Hc) as (_ & Hp & _).
  destruct (unbind_run u w1) as (U1 & U2 & _); [by rewrite Bm|].
  split; [done|]. rewrite U2, (found_quiet _ Be), Hp.
  split; [by apply released_reserved|].
  cbn. split; apply elem_of_union_l; by apply elem_of_singleton.
Qed.

(** ** No PID leaves the hub *)

Lemma pid_free_bind {A B} (p : prog A) (f : A -> prog B) :
  pid_free p -> (forall a, pid_free (f a)) -> pid_free (bind p f).
Proof.
  induction p as [a|X e k IH]; cbn [bind pid_free]; intros Hp Hf; [auto|].
  destruct Hp as [He Hk]. split; [done|]. intros x Hx. apply IH; auto.
Qed.

Lemma step_pid_free {X} (e : op X) (w0 w w' : World) (x : X) :
  pid_free_since w0 w -> op_pid_free e -> step e w = Stepped x w' ->
  pid_free_since w0 w' /\ answer_pid_free e x.
Proof.
  intros (Hc & evs & Ht & Hev) He.
  assert (Hemit : forall ev w1, trace w1 = trace w -> marshals_no_pid ev ->
            exists evs', trace (emit ev w1) = (trace w0 ++ evs')%list /\
                         Forall marshals_no_pid evs').
  { intros ev w1 E Hok. exists (evs ++ [ev])%list. cbn. rewrite E, Ht, app_assoc.
    split; [done|]. apply Forall_app. split; [done|]. by apply Forall_singleton. }
  assert (Hkeep : exists evs', trace w = (trace w0 ++ evs')%list /\
                               Forall marshals_no_pid evs') by eauto.
  destruct e; cbn [step];
    repeat match goal with
           | |- context [if ?b then _ else _] => destruct b
           | |- context [match ?b with _ => _ end] => destruct b eqn:?
           end; try done; intros [= <- <-]; cbn [answer_pid_free];
    (split; [split; [exact Hc || idtac|try (apply Hemit; done); try exact Hkeep]|try done]).
  - (* GetUser *)
    unfold user_of. destruct (users w !! ref p) as [u|] eqn:Hu; cbn; [by eapply Hc|done].
  - (* SetUser *)
    intros k u'. cbn. destruct (decide (k = ref p)) as [->|Hne].
    + rewrite lookup_insert_eq. by intros [= <-].
    + rewrite lookup_insert_ne by done. apply Hc.
Qed.

Lemma exec_pid_free {A} (p : prog A) (w0 w : World) :
  pid_free_since w0 w -> pid_free p -> pid_free_since w0 (snd (exec p w)).
Proof.
  revert w; induction p as [a|X e k IH]; intros w Hw Hp; cbn [exec]; [done|].
  destruct Hp as [He Hk].
  destruct (step e w) as [x w1| |] eqn:Hs; try done.
  destruct (step_pid_free e w0 w w1 x Hw He Hs) as [Hw1 Hx].
  apply IH; auto.
Qed.

Ltac pid_tac :=
  repeat match goal with
  | |- pid_free (Ret _) => exact I
  | |- pid_free (Vis _ _) => cbn [pid_free]
  | |- pid_free (bind _ _) => apply pid_free_bind; [|intros ?]
  | |- pid_free (if ?b then _ else _) => destruct b
  | |- pid_free (match ?x with _ => _ end) => destruct x
  | |- _ /\ _ => split
  | |- forall _, _ => intros ?
  | |- True => exact I
  | |- op_pid_free _ => cbn in *; first [exact I | assumption | reflexivity]
  end.

Section NoPid.
Context {codec : Codec}.

Lemma PeersJoin_pid_free p l : pid_free (PeersJoin p l).
Proof.
  induction l as [|q l IH]; cbn [PeersJoin]; [by pid_tac|].
  destruct q; unfold Info; cbn [bind]; pid_tac; exact IH.
Qed.

Lemma broadcastUserJoin_pid_free p l : pid_free (broadcastUserJoin p l).
Proof.
  induction l as [|q l IH]; cbn [broadcastUserJoin]; [by pid_tac|].
  apply pid_free_bind; [|done].
  destruct q; cbn [Peer_PeersJoin]; [apply PeersJoin_pid_free|by pid_tac].
Qed.

Lemma broadcastChat_pid_free from text l : pid_free (broadcastChat from text l).
Proof.
  induction l as [|q l IH]; cbn [broadcastChat]; [by pid_tac|].
  apply pid_free_bind; [|done].
  destruct q; cbn [Peer_ChatMsg]; unfold ChatMsg; pid_tac.
Qed.

Lemma fanout_pid_free b l nmdc : pid_free (fanout b l nmdc).
Proof.
  revert nmdc; induction l as [|[a|o] l IH]; intros nmdc; cbn [fanout];
    pid_tac; apply IH.
Qed.

Lemma run_task_pid_free t : pid_free (run_task t).
Proof.
  destruct t as [b from l|d]; cbn [run_task].
  - unfold adcBroadcast. apply pid_free_bind.
    { destruct l; unfold Peers, locked_read; pid_tac. }
    intros l'. apply pid_free_bind; [apply fanout_pid_free|].
    intros nmdc. pid_tac. apply broadcastChat_pid_free.
  - unfold adcDirect, lookupSID, locked_read. cbn [bind]. pid_tac.
Qed.

Lemma adcServePeer_pid_free fuel peer : pid_free (adcServePeer fuel peer).
Proof.
  induction fuel as [|fuel IH]; cbn [adcServePeer]; [by pid_tac|].
  unfold Peers, locked_read. cbn [bind]. pid_tac; apply IH.
Qed.

Lemma identityWelcome_pid_free h peer u :
  Pid u = None -> pid_free (identityWelcome h peer u).
Proof.
  intros Hu. unfold identityWelcome.
  assert (Hu' : Pid (if decide (Ip4 u = "") then set_Ip4 (addr peer) u else u) = None)
    by (by destruct (decide _)).
  revert Hu'. generalize (if decide (Ip4 u = "") then set_Ip4 (addr peer) u else u).
  intros u' Hu'. cbv zeta.
  unfold unbind, Peers, locked_read, identityAccept. cbn [bind].
  pid_tac; try apply PeersJoin_pid_free; try apply broadcastUserJoin_pid_free.
Qed.

Lemma adcStageIdentity_pid_free h peer : pid_free (adcStageIdentity h peer).
Proof.
  unfold adcStageIdentity. cbn [pid_free]. split; [exact I|]. intros r _.
  destruct r as [e|[?|?|b|?|?]]; try exact I.
  destruct (decide _); [exact I|].
  destruct (UnmarshalUser (bcData b)) as [e|u]; [exact I|].
  destruct (Pid u) as [pid|]; [|cbn; split; [exact I|]; by intros []].
  destruct (decide _).
  { unfold sendError, sendInfo. cbn [bind]. pid_tac. }
  destruct (decide _).
  { unfold sendError, sendInfo. cbn [bind]. pid_tac. }
  apply pid_free_bind.
  { unfold identityPeek, sendError, sendInfo. cbn [bind]. pid_tac. }
  intros [e|]; [exact I|].
  apply pid_free_bind.
  { unfold identityBind, sendError, sendInfo. cbn [bind]. pid_tac. }
  intros [e|]; [exact I|].
  by apply identityWelcome_pid_free.
Qed.

Lemma pid_free_run {A} (p : prog A) (w : World) :
  pid_free p -> no_pid_cached w ->
  no_pid_cached (snd (exec p w)) /\ Forall marshals_no_pid (since w (snd (exec p w))).
Proof.
  intros Hp Hw.
  destruct (exec_pid_free p w w) as (Hc & evs & Ht & Hev); [|done|].
  { split; [done|]. exists []. by rewrite app_nil_r. }
  split; [done|]. by rewrite (since_app _ _ _ Ht).
Qed.

(** X15 (lines 46-84, 149-326, 398-419): the hub caches no PID, and no
    user record it marshals itself carries one.  If no cached record holds
    a PID, then after the Identity stage, after the serving loop and after
    any goroutine the loop starts, still none does, and no user record the
    hub has marshalled in the meantime (the INF lines of [PeersJoin] and of
    the join broadcast) carries one.  The packets the hub passes on as
    they came are outside this statement: they go out with whatever the
    client put in them. *)
Theorem hub_marshals_no_pid (h : Hub) (peer : adcPeer) (w : World) :
  no_pid_cached w ->
  (let w' := snd (exec (adcStageIdentity h peer) w) in
   no_pid_cached w' /\ Forall marshals_no_pid (since w w')) /\
  (forall fuel,
     let w' := snd (exec (adcServePeer fuel peer) w) in
     no_pid_cached w' /\ Forall marshals_no_pid (since w w')) /\
  (forall t,
     let w' := snd (exec (run_task t) w) in
     no_pid_cached w' /\ Forall marshals_no_pid (since w w')).
Proof.
  intros Hw. split; [|split]; intros; apply pid_free_run; try done.
  - apply adcStageIdentity_pid_free.
  - apply adcServePeer_pid_free.
  - apply run_task_pid_free.
Qed.

End NoPid.
(** ** Closing a peer *)

Lemma removed_indexed (p : adcPeer) (u : User) (r : Registry) :
  bySID r !! sid p = None -> byCID r !! Id u = None -> byName r !! Name u = None ->
  removed p u (indexed p u r) = r.
Proof.
  intros H1 H2 H3. destruct r as [rs rc rn rl rlc]. unfold removed, indexed. cbn in *.
  f_equal; by apply delete_insert_id.
Qed.

Lemma broadcastUserLeave_run (peer : Peer) (notify : list Peer) (s : Hubstate) :
  let s' := broadcastUserLeave peer notify s in
  same_hub (world s) (world s') /\
  closed s' = closed s /\ wire_closes s' = wire_closes s /\
  close_faults s' = close_faults s /\
  leaves s' = (leaves s ++ foreign_leaves peer notify)%list /\
  exists evs, trace (world s') = (trace (world s) ++ evs)%list /\
    (forall a, PeerADC a ∈ notify -> leave_notice peer a ∈ wire_attempts evs) /\
    (forall c o, (c, o) ∈ wire_attempts evs ->
       exists a, PeerADC a ∈ notify /\ c = conn a /\
                 (o = WriteInfoMsg (Disconnect (Peer_SID peer)) \/ o = Flush)).
Proof.
  revert s; induction notify as [|q l IH]; intros s; cbn [broadcastUserLeave].
  - unfold same_hub, foreign_leaves. cbn. rewrite !app_nil_r.
    repeat split; try done. exists []. rewrite app_nil_r. split; [done|].
    split; [intros a Ha; by apply elem_of_nil in Ha|intros c o Ho; by apply elem_of_nil in Ho].
  - specialize (IH (Peer_PeersLeave q [peer] s)). cbv zeta in IH.
    destruct IH as ((P1 & P2 & P3 & P4 & P5 & P6) & C1 & C2 & C3 & C4 & evs & T & Hin & Hout).
    destruct q as [a|o]; cbn [Peer_PeersLeave with_world world closed wire_closes
                               close_faults leaves] in *.
    + pose proof (PeersLeave_run a [peer] (world s)) as HL. cbv zeta in HL.
      destruct HL as (_ & T0 & L1 & L2 & L3).
      set (w1 := snd (exec (PeersLeave a [peer]) (world s))) in *.
      assert (E1 : env w1 = env (world s) /\ lastSID w1 = lastSID (world s) /\
                   nextRef w1 = nextRef (world s)).
      { subst w1. cbn [PeersLeave exec step]. unfold wire_result.
        destruct (hd false (faults (world s))); cbn [exec step snd]; [done|].
        destruct (hd false _); cbn; done. }
      destruct E1 as (E1 & E2 & E3).
      split; [unfold same_hub; by rewrite P1, P2, P3, P4, P5, P6, L1, L2, L3, E1, E2, E3|].
      do 3 (split; [done|]). split; [by rewrite C4|].
      exists (attempts (conn a) (leave_ops [peer]) (faults (world s)) ++ evs)%list.
      split; [by rewrite T, T0, app_assoc|].
      assert (Hhead : leave_notice peer a ∈
                wire_attempts (attempts (conn a) (leave_ops [peer]) (faults (world s)))).
      { unfold leave_ops, leave_notice. cbn.
        destruct (hd false (faults (world s))); cbn; apply list_elem_of_here. }
      assert (Honly : forall c o,
                (c, o) ∈ wire_attempts (attempts (conn a) (leave_ops [peer]) (faults (world s))) ->
                c = conn a /\ (o = WriteInfoMsg (Disconnect (Peer_SID peer)) \/ o = Flush)).
      { intros c o. unfold leave_ops. cbn.
        destruct (hd false (faults (world s))); cbn.
        - intros [= -> ->]%list_elem_of_singleton. auto.
        - destruct (hd false _); cbn; rewrite !elem_of_cons;
            intros [[= -> ->]|[[= -> ->]|H]]; auto; by apply elem_of_nil in H. }
      unfold wire_attempts in *. split.
      * intros b Hb. rewrite omap_app, elem_of_app.
        apply elem_of_cons in Hb as [[= ->]|Hb]; [by left|right; by apply Hin].
      * intros c o. rewrite omap_app, elem_of_app. intros [H|H].
        -- destruct (Honly c o H) as [-> Ho]. exists a. split; [apply list_elem_of_here|done].
        -- destruct (Hout c o H) as (b & Hb & -> & Ho). exists b.
           split; [by apply list_elem_of_further|done].
    + split; [done|]. do 3 (split; [done|]).
      split; [rewrite C4; cbn [foreign_leaves omap]; by rewrite <- app_assoc|].
      exists evs. split; [done|]. split.
      * intros b Hb. apply elem_of_cons in Hb as [[=]|Hb]. by apply Hin.
      * intros c x H. destruct (Hout c x H) as (b & Hb & -> & Ho). exists b.
        split; [by apply list_elem_of_further|done].
Qed.

Lemma Close_run (p : adcPeer) (s : Hubstate) :
  ref p ∉ closed s ->
  is_free (mu (world s)) = true ->
  let w := world s in
  let r := removed p (user_of w p) (found w) in
  let s' := snd (Close p s) in
  fst (Close p s) = Done (wire_result (close_faults s)) /\
  closed s' = {[ref p]} ∪ closed s /\
  wire_closes s' = (wire_closes s ++ [conn p])%list /\
  close_faults s' = tail (close_faults s) /\
  leaves s' = (leaves s ++ foreign_leaves (PeerADC p) (listPeers r))%list /\
  peers (world s') = r /\ mu (world s') = unlocked /\ users (world s') = users w /\
  env (world s') = tail (env w) /\
  lastSID (world s') = lastSID w /\ nextRef (world s') = nextRef w /\
  exists evs, trace (world s') = (trace w ++ EvLock :: EvUnlock :: evs)%list /\
    (forall a, PeerADC a ∈ listPeers r -> leave_notice (PeerADC p) a ∈ wire_attempts evs) /\
    (forall c o, (c, o) ∈ wire_attempts evs ->
       exists a, PeerADC a ∈ listPeers r /\ c = conn a /\
                 (o = WriteInfoMsg (Disconnect (sid p)) \/ o = Flush)).
Proof.
  intros Hopen Hfree. cbv zeta. unfold Close.
  destruct (decide (ref p ∈ closed s)) as [|_]; [done|].
  unfold conn_Close. cbn [world step]. rewrite Hfree.
  cbn [step mu emit set_mu set_peers interfere set_env writer].
  match goal with
  | |- context [broadcastUserLeave ?a ?b ?c] =>
      pose proof (broadcastUserLeave_run a b c) as HB
  end.
  cbv zeta in HB. cbn [fst snd].
  destruct HB as ((P1 & P2 & P3 & P4 & P5 & P6) & C1 & C2 & C3 & C4 & evs & T & Hin & Hout).
  cbn [with_world world closed wire_closes close_faults leaves peers mu users env
       lastSID nextRef trace emit set_mu set_peers set_env] in *.
  rewrite P1, P2, P3, P4, P5, P6, C1, C2, C3, C4.
  repeat (split; [done|]).
  exists evs. split; [by rewrite T, <- !app_assoc|]. by split.
Qed.

(** X16 (lines 377-396): closing is idempotent.  Once [Close] has returned
    on a peer, whatever it returned, a second [Close] on that peer returns
    nil and does nothing at all: the connection is not closed again, the
    registry and its lock are not touched, nobody is notified. *)
Theorem Close_idempotent (p : adcPeer) (s s' : Hubstate) (o : option error) :
  Close p s = (Done o, s') ->
  Close p s' = (Done None, s').
Proof.
  unfold Close at 1. destruct (decide (ref p ∈ closed s)) as [Hin|Hout].
  - intros [= <- <-]. unfold Close. by rewrite decide_True.
  - unfold conn_Close. cbn [world].
    destruct (step Lock (world s)) as [[] w1| |] eqn:HL; [|done|done].
    destruct (step Unlock _) as [[] w3| |] eqn:HU; [|done|done].
    intros [= <- <-]. unfold Close. rewrite decide_True; [done|].
    match goal with
    | |- context [broadcastUserLeave ?a ?b ?c] =>
        destruct (broadcastUserLeave_run a b c) as (_ & -> & _)
    end.
    cbn. set_solver.
Qed.

(** X17 (lines 377-396): a first [Close] that gets the hub lock closes the
    connection once and returns what that close returned; whether or not
    it failed, the peer is marked closed and its SID, the CID and the nick
    of its cached record are deleted from [bySID], [byCID] and [byName] of
    the registry found under the lock.  Every other key and both
    reservation sets are left as found, and the lock is free again. *)
Theorem Close_removes (p : adcPeer) (s : Hubstate) :
  ref p ∉ closed s ->
  is_free (mu (world s)) = true ->
  let w := world s in
  let u := user_of w p in
  let s' := snd (Close p s) in
  let r' := peers (world s') in
  fst (Close p s) = Done (wire_result (close_faults s)) /\
  ref p ∈ closed s' /\
  wire_closes s' = (wire_closes s ++ [conn p])%list /\
  bySID r' !! sid p = None /\ byCID r' !! Id u = None /\ byName r' !! Name u = None /\
  (forall k, k <> sid p -> bySID r' !! k = bySID (found w) !! k) /\
  (forall k, k <> Id u -> byCID r' !! k = byCID (found w) !! k) /\
  (forall k, k <> Name u -> byName r' !! k = byName (found w) !! k) /\
  logging r' = logging (found w) /\ loggingCID r' = loggingCID (found w) /\
  mu (world s') = unlocked.
Proof.
  intros Hopen Hfree. cbv zeta.
  destruct (Close_run p s Hopen Hfree)
    as (E1 & E2 & E3 & _ & _ & E6 & E7 & _).
  rewrite E1, E2, E3, E6, E7. cbn [removed bySID byCID byName logging loggingCID].
  split; [done|]. split; [apply elem_of_union; left; by apply elem_of_singleton|]. split; [done|].
  rewrite !lookup_delete_eq.
  do 3 (split; [done|]).
  repeat split; try done; intros k Hk; by rewrite lookup_delete_ne.
Qed.

(** X18 (lines 377-396): the leave notices of [Close] go out after the hub
    lock has been released, to the snapshot taken under it after the
    deletions.  Every ADC peer left in [bySID] under another SID is asked
    to write QUI with the closed peer's SID; nothing is written to anyone
    else, and nothing but that QUI and a flush.  The peers of a sibling
    protocol left in [bySID], and they alone, get the call instead. *)
Theorem Close_notifies (p : adcPeer) (s : Hubstate) :
  ref p ∉ closed s ->
  is_free (mu (world s)) = true ->
  let w := world s in
  let s' := snd (Close p s) in
  let remaining q := exists k, k <> sid p /\ bySID (found w) !! k = Some q in
  exists evs,
    since w (world s') = EvLock :: EvUnlock :: evs /\
    (forall a, remaining (PeerADC a) ->
       leave_notice (PeerADC p) a ∈ wire_attempts evs) /\
    (forall c o, (c, o) ∈ wire_attempts evs ->
       exists a, remaining (PeerADC a) /\ c = conn a /\
                 (o = WriteInfoMsg (Disconnect (sid p)) \/ o = Flush)) /\
    (forall q call, (q, call) ∈ drop (length (leaves s)) (leaves s') ->
       remaining (PeerOther q) /\ call = [PeerADC p]) /\
    (forall q, remaining (PeerOther q) ->
       (q, [PeerADC p]) ∈ drop (length (leaves s)) (leaves s')).
Proof.
  intros Hopen Hfree. cbv zeta.
  destruct (Close_run p s Hopen Hfree)
    as (_ & _ & _ & _ & E5 & _ & _ & _ & _ & _ & _ & evs & T & Hin & Hout).
  assert (Hrem : forall q, q ∈ listPeers (removed p (user_of (world s) p) (found (world s)))
                 <-> exists k, k <> sid p /\ bySID (found (world s)) !! k = Some q).
  { intros q. rewrite elem_of_listPeers. cbn [removed bySID]. split.
    - intros [k Hk]. exists k. apply lookup_delete_Some in Hk as [Hne Hk]. by split.
    - intros (k & Hne & Hk). exists k. by apply lookup_delete_Some. }
  exists evs. split; [by apply since_app|]. split; [|split; [|split]].
  - intros a Ha. apply Hin. by apply Hrem.
  - intros c o Ho. destruct (Hout c o Ho) as (a & Ha & Hc & Hop). exists a.
    split; [by apply Hrem|done].
  - intros q call. rewrite E5, drop_app_length. unfold foreign_leaves.
    rewrite list_elem_of_omap. intros ([a|o] & Hq & Heq); [done|].
    injection Heq as <- <-. split; [by apply Hrem|done].
  - intros q Hq. rewrite E5, drop_app_length. unfold foreign_leaves.
    rewrite list_elem_of_omap. exists (PeerOther q). split; [by apply Hrem|done].
Qed.

(** ** A connection from accept to close *)

Section ServeMore.
Context {codec : Codec}.

Lemma serve_frame (peer : adcPeer) (fuel : nat) (w : World) :
  env w = [] -> mu w = unlocked ->
  let r := exec (adcServePeer fuel peer) w in
  fst r <> Panicked /\ peers (snd r) = peers w /\ mu (snd r) = unlocked.
Proof.
  revert w; induction fuel as [|fuel IH]; intros w Henv Hfree; cbv zeta.
  { cbn. done. }
  cbn [adcServePeer exec step].
  assert (Hnext : forall w1, env w1 = [] -> mu w1 = unlocked -> peers w1 = peers w ->
            fst (exec (adcServePeer fuel peer) w1) <> Panicked /\
            peers (snd (exec (adcServePeer fuel peer) w1)) = peers w /\
            mu (snd (exec (adcServePeer fuel peer) w1)) = unlocked).
  { intros w1 He Hm Hp. destruct (IH w1 He Hm) as (H1 & H2 & H3).
    split; [done|]. split; [congruence|done]. }
  destruct (inbox w !! conn_id (conn peer)) as [[|[e|p] rest]|] eqn:Hin; cbn [exec fst snd];
    [done|destruct e; cbn; done| |done].
  destruct p as [?|?|b|d|d]; cbn [exec step].
  - by apply Hnext.
  - by apply Hnext.
  - destruct (decide (sid peer <> bcID b)); [cbn; done|].
    unfold Peers, locked_read. cbn [bind exec step].
    cbn [mu emit set_inbox]. rewrite Hfree. cbn [writer readers unlocked Nat.eqb].
    cbn [exec step]. cbn [mu readers emit set_mu]. cbn [exec step].
    apply Hnext; cbn; unfold found; cbn; rewrite ?Henv; done.
  - destruct (decide (sid peer <> dID d)); [cbn; done|].
    cbn [exec step]. by apply Hnext.
  - destruct (decide (sid peer <> dID d)); [cbn; done|].
    cbn [exec step]. unfold wire_result.
    destruct (hd false _); [cbn; done|]. cbn [exec step]. unfold wire_result.
    destruct (hd false _); [cbn; done|]. cbn [exec step]. apply Hnext; cbn; done.
Qed.

Lemma serving_frame (peer : adcPeer) (motd : string) (fuel : nat) (w : World) :
  env w = [] -> mu w = unlocked ->
  let r := exec (serving fuel motd peer) w in
  fst r <> Panicked /\ peers (snd r) = peers w /\ mu (snd r) = unlocked /\
  users (snd r) = users w /\ env (snd r) = [].
Proof.
  intros Henv Hfree. cbv zeta.
  assert (H : fst (exec (serving fuel motd peer) w) <> Panicked /\
              peers (snd (exec (serving fuel motd peer) w)) = peers w /\
              mu (snd (exec (serving fuel motd peer) w)) = unlocked).
  { unfold serving, sendMOTD, HubChatMsg. cbn [bind exec step]. unfold wire_result.
    destruct (hd false _); [cbn; done|]. cbn [bind exec step]. unfold wire_result.
    destruct (hd false _); [cbn; done|]. cbn [bind exec step].
    match goal with
    | |- context [exec (adcServePeer fuel peer) ?w1] =>
        destruct (serve_frame peer fuel w1) as (H1 & H2 & H3); [done|done|]
    end.
    split; [done|]. split; [by rewrite H2|done]. }
  destruct H as (H1 & H2 & H3). do 3 (split; [done|]). split.
  - apply exec_users. unfold serving, sendMOTD, HubChatMsg. uses_tac.
    apply adcServePeer_no_SetUser.
  - by apply exec_env_quiet.
Qed.

(** X19 (lines 21-44): a connection leaves no trace in the registry.  On
    a hub where no other goroutine moves and whose allocators are ahead of
    the registry, when [ServeADC] returns, whatever it returns and at
    whatever step the session ended, the registry is exactly what it was
    when the connection was accepted and its lock is free.  If a
    connection was set up its last close is that of this connection, and
    the only peer that can have been closed is the one allocated for
    it. *)
Theorem ServeADC_leaves_registry (fuel : nat) (h : Hub) (motd : string)
    (nc : error + Conn) (s : Hubstate) (r : option error) :
  env (world s) = [] ->
  is_free (mu (world s)) = true ->
  sids_allocated (world s) ->
  closed_allocated s ->
  fst (ServeADC fuel h motd nc s) = Done (Some r) ->
  let s' := snd (ServeADC fuel h motd nc s) in
  peers (world s') = peers (world s) /\ mu (world s') = unlocked /\
  (forall c, nc = inr c -> last (wire_closes s') = Some c) /\
  (closed s' = closed s \/ closed s' = {[nextRef (world s)]} ∪ closed s).
Proof.
  intros Henv Hfree Hsids Hclosed. cbv zeta. unfold ServeADC.
  pose proof (is_free_unlocked _ Hfree) as Hmu.
  destruct nc as [err|c]; [intros _; cbn; repeat split; try done; auto|].
  destruct (exec_never_stuck (adcStageProtocol c) (world s)
              (adcStageProtocol_never_stuck c)) as (_ & _ & P2 & P1).
  pose proof (fun peer => protocol_new_peer c (world s) peer) as P4. cbv zeta in P4.
  pose proof (exec_env_quiet (adcStageProtocol c) (world s) Henv) as HE1.
  destruct (exec (adcStageProtocol c) (world s)) as [o1 w1]. cbn [fst snd] in P1, P2, P4, HE1.
  assert (Hlast : forall l : list Conn, last (l ++ [c]) = Some c)
    by (intros l; apply last_snoc).
  destruct o1 as [[err|peer]| |]; [| |done|done].
  { intros _. cbn. rewrite P1, P2, Hmu. repeat split; auto.
    intros c' [= <-]. apply Hlast. }
  destruct (P4 peer eq_refl) as (Q1 & Q2 & Q3 & Q4 & Q5 & Q6).
  assert (Hfree1 : is_free (mu w1) = true) by (by rewrite P2).
  pose proof (fun o => identity_done h peer w1 o HE1 Hfree1) as HD. cbv zeta in HD.
  pose proof (exec_env_quiet (adcStageIdentity h peer) w1 HE1) as HE2.
  destruct (exec (adcStageIdentity h peer) w1) as [o2 w2]. cbn [fst snd] in HD, HE2.
  destruct o2 as [[err|]| |]; [| |done|done].
  { destruct (HD (Some err) eq_refl) as [F2 F1].
    intros _. cbn. rewrite F1, F2, P1. repeat split; auto.
    intros c' [= <-]. apply Hlast. }
  destruct (HD None eq_refl) as (S5 & S1 & S2 & S3 & _). clear HD.
  pose proof (serving_frame peer motd fuel w2 HE2 S5) as HV. cbv zeta in HV.
  destruct (exec (serving fuel motd peer) w2) as [o3 w3]. cbn [fst snd] in HV.
  destruct HV as (_ & V1 & V2 & V3 & V4).
  destruct o3 as [[r'|]| |]; [|done|done|done].
  assert (Hopen : ref peer ∉ closed (with_world w3 s)).
  { cbn. rewrite Q5. intros Hin. apply Hclosed in Hin. lia. }
  assert (Hfree3 : is_free (mu (world (with_world w3 s))) = true) by (cbn; by rewrite V2).
  pose proof (Close_run peer (with_world w3 s) Hopen Hfree3) as HC. cbv zeta in HC.
  destruct (Close peer (with_world w3 s)) as [oc s4]. cbn [fst snd] in HC.
  destruct HC as (C1 & C2 & C3 & _ & _ & C6 & C7 & _). subst oc.
  intros _. cbn [snd conn_Close world wire_closes closed with_world] in *.
  rewrite C6, C7, C2, Q5.
  split; [|split; [done|split; [intros c' [= <-]; apply Hlast|by right]]].
  rewrite found_quiet by done. rewrite V1, S1, <- P1.
  unfold user_of. rewrite V3. fold (user_of w2 peer).
  apply removed_indexed.
  - destruct (bySID (peers w1) !! sid peer) as [q|] eqn:Hq; [|done].
    rewrite P1 in Hq. apply Hsids in Hq. lia.
  - destruct (byCID (peers w1) !! Id (user_of w2 peer)) eqn:Hq; [|done].
    exfalso. apply S3. right. unfold is_Some. eauto.
  - destruct (byName (peers w1) !! Name (user_of w2 peer)) eqn:Hq; [|done].
    exfalso. apply S2. right. unfold is_Some. eauto.
Qed.

End ServeMore.

(** ** The pinger *)

Lemma prefix_length (p s : string) :
  String.prefix p s = true -> (String.length p <= String.length s)%nat.
Proof.
  revert s; induction p as [|a p IH]; intros [|b s]; cbn; try done; try lia.
  destruct (Ascii.ascii_dec a b); [|done]. intros H. apply IH in H. lia.
Qed.

Lemma index_length (p s : string) (n : nat) :
  String.index 0 p s = Some n -> (n + String.length p <= String.length s)%nat.
Proof.
  revert n; induction s as [|b s IH]; intros n; cbn [String.index].
  - destruct p; [|done]. intros [= <-]. cbn. lia.
  - destruct (String.prefix p (String b s)) eqn:Hp.
    + intros [= <-]. apply prefix_length in Hp. cbn in *. lia.
    + destruct (String.index 0 p s) as [m|]; [|done]. intros [= <-].
      specialize (IH m eq_refl). cbn. lia.
Qed.

Lemma append_users_map (l : list Dc.NmdcUser) :
  Dc.append_users l = Dc.hub_user <$> l.
Proof.
  unfold Dc.append_users.
  cut (forall acc, fold_left (fun acc u => acc ++ [Dc.hub_user u])%list l acc
                   = (acc ++ (Dc.hub_user <$> l))%list).
  { intros H. by rewrite H. }
  induction l as [|u l IH]; intros acc; cbn; [by rewrite app_nil_r|].
  by rewrite IH, <- app_assoc.
Qed.

Lemma substring_length (s : string) (n : nat) :
  (n <= String.length s)%nat -> String.length (String.substring 0 n s) = n.
Proof.
  revert n; induction s as [|a s IH]; intros [|n]; cbn; try done; try lia.
  intros H. rewrite IH; lia.
Qed.

Lemma Index_bound (s sep : string) :
  (-1 <= Dc.Index s sep)%Z /\
  (0 <= Dc.Index s sep ->
   Dc.Index s sep + Z.of_nat (String.length sep) <= Z.of_nat (String.length s))%Z.
Proof.
  unfold Dc.Index. destruct (String.index 0 sep s) as [n|] eqn:Hn; [|lia].
  apply index_length in Hn. lia.
Qed.

Section Pinger.
Variable Probe : string -> error + string.
Variable nmdc_Ping : string -> error + Dc.NmdcHub.
Variables nmdcSchema nmdcsSchema : string.
Variable Quote : string -> string.

(** X20 (lines 13-57): an address that carries a scheme separator is never
    probed and never makes [Ping] panic: the result is a value or an
    error, and it is the same whatever [Probe] would have answered. *)
Theorem Ping_with_scheme_skips_probe (addr : string) (Probe' : string -> error + string) :
  (0 <= Dc.Index addr "://")%Z ->
  (exists r, Dc.Ping Probe nmdc_Ping nmdcSchema nmdcsSchema Quote addr = Done r) /\
  Dc.Ping Probe' nmdc_Ping nmdcSchema nmdcsSchema Quote addr =
  Dc.Ping Probe nmdc_Ping nmdcSchema nmdcsSchema Quote addr.
Proof.
  intros Hi. unfold Dc.Ping, Dc.resolve. cbv zeta.
  destruct (decide (Dc.Index addr "://" < 0)%Z) as [|_]; [lia|].
  split; [|done].
  destruct (Index_bound addr "://") as [_ Hb]. specialize (Hb Hi). cbn in Hb.
  unfold Dc.slice_to. destruct (decide _) as [_|Hn]; [|lia].
  destruct (decide _); [destruct (nmdc_Ping addr)|]; eauto.
Qed.

(** X21 (lines 25-56): an address whose scheme, the text up to and
    including the separator, is neither of the two NMDC schemas gets the
    unsupported-protocol error that quotes the address; neither [Probe]
    nor [nmdc.Ping] is asked.  This is what an ADC address gets. *)
Theorem Ping_unsupported_scheme (addr scheme : string)
    (Probe' : string -> error + string) (nmdc_Ping' : string -> error + Dc.NmdcHub) :
  (0 <= Dc.Index addr "://")%Z ->
  Dc.slice_to addr (Dc.Index addr "://" + 3) = Some scheme ->
  scheme <> nmdcSchema -> scheme <> nmdcsSchema ->
  Dc.Ping Probe' nmdc_Ping' nmdcSchema nmdcsSchema Quote addr =
  Done (inl (Dc.errUnsupported Quote addr)).
Proof.
  intros Hi Hs H1 H2. unfold Dc.Ping, Dc.resolve. cbv zeta.
  destruct (decide (Dc.Index addr "://" < 0)%Z) as [|_]; [lia|].
  rewrite Hs. destruct (decide _) as [[?|?]|_]; done.
Qed.

(** X22 (lines 13-57): when [Ping] returns a description, it is that of
    the hub [nmdc.Ping] answered for the target, which is the address
    given if it had a scheme and the address [Probe] found otherwise, and
    whose scheme is one of the two NMDC schemas.  The description lists
    the target as its only address and has one user per user of the hub,
    in the same order, each with name, share size and client taken from
    it; the uptime is left zero. *)
Theorem Ping_converts_hub (addr : string) (info : Dc.HubInfo) :
  Dc.Ping Probe nmdc_Ping nmdcSchema nmdcsSchema Quote addr = Done (inr info) ->
  exists target hub scheme,
    ((0 <= Dc.Index addr "://")%Z /\ target = addr \/
     (Dc.Index addr "://" < 0)%Z /\ Probe addr = inr target) /\
    Dc.slice_to target (Dc.Index target "://" + 3) = Some scheme /\
    (scheme = nmdcSchema \/ scheme = nmdcsSchema) /\
    nmdc_Ping target = inr hub /\
    Dc.hi_Addr info = [target] /\
    Dc.hi_Users info = Dc.hub_user <$> Dc.nh_Users hub /\
    length (Dc.hi_Users info) = length (Dc.nh_Users hub) /\
    Dc.hi_Name info = Dc.nh_Name hub /\ Dc.hi_Desc info = Dc.nh_Topic hub /\
    Dc.hi_Server info =
      Some (Dc.mkSoftware (Dc.ns_Name (Dc.nh_Server hub)) (Dc.ns_Vers (Dc.nh_Server hub))
                          (Dc.nh_Ext hub)) /\
    Dc.hi_Uptime info = 0%Z.
Proof.
  unfold Dc.Ping. destruct (Dc.resolve Probe addr) as [e|[target i]] eqn:Hr; [done|].
  assert (Ht : ((0 <= Dc.Index addr "://")%Z /\ target = addr \/
                (Dc.Index addr "://" < 0)%Z /\ Probe addr = inr target) /\
               i = Dc.Index target "://").
  { unfold Dc.resolve in Hr. cbv zeta in Hr.
    destruct (decide (Dc.Index addr "://" < 0)%Z) as [Hn|Hn].
    - destruct (Probe addr) as [e|s]; [done|]. injection Hr as <- <-. split; [|done].
      right. by split.
    - injection Hr as <- <-. split; [|done]. left. split; [lia|done]. }
  destruct Ht as [Ht ->].
  destruct (Dc.slice_to target _) as [scheme|] eqn:Hs; [|done].
  destruct (decide _) as [Hk|]; [|done].
  destruct (nmdc_Ping target) as [e|hub] eqn:Hn; [done|].
  intros [= <-]. exists target, hub, scheme. cbn.
  rewrite append_users_map, length_fmap. repeat split; done.
Qed.

(** X23 (lines 15-56): when the address has no scheme and the address
    [Probe] answers has none either, the slice taken for the switch is the
    first two bytes of the answer.  An answer shorter than that makes
    [Ping] panic; any other gets the unsupported-protocol error, the
    schemas being longer than two bytes.  [nmdc.Ping] is not asked. *)
Theorem Ping_probe_without_scheme (addr s : string)
    (nmdc_Ping' : string -> error + Dc.NmdcHub) :
  (Dc.Index addr "://" < 0)%Z ->
  Probe addr = inr s ->
  (Dc.Index s "://" < 0)%Z ->
  (2 < String.length nmdcSchema)%nat -> (2 < String.length nmdcsSchema)%nat ->
  Dc.Ping Probe nmdc_Ping' nmdcSchema nmdcsSchema Quote addr =
  if decide (String.length s < 2)%nat then Panicked
  else Done (inl (Dc.errUnsupported Quote s)).
Proof.
  intros Hi Hp Hs H1 H2. unfold Dc.Ping, Dc.resolve. cbv zeta.
  destruct (decide (Dc.Index addr "://" < 0)%Z) as [_|]; [|lia].
  rewrite Hp. destruct (Index_bound s "://") as [Hlo _].
  assert (Hm : Dc.Index s "://" = (-1)%Z) by lia. rewrite Hm.
  unfold Dc.slice_to. change (-1 + 3)%Z with 2%Z.
  destruct (decide (String.length s < 2)%nat) as [Hlen|Hlen].
  - destruct (decide _) as [Hn|_]; [lia|done].
  - destruct (decide _) as [_|Hn]; [|lia].
    change (Z.to_nat 2) with 2%nat.
    assert (Hl : String.length (String.substring 0 2 s) = 2%nat)
      by (apply substring_length; lia).
    destruct (decide _) as [[E|E]|_]; [| |done]; rewrite E in Hl; lia.
Qed.

(** X24 (lines 15-30): errors of the two calls are returned as they are:
    that of [Probe] on an address without scheme, and that of [nmdc.Ping]
    on a target with an NMDC scheme. *)
Theorem Ping_returns_errors (addr : string) (e : error) :
  ((Dc.Index addr "://" < 0)%Z /\ Probe addr = inl e) \/
  (exists target i scheme,
     Dc.resolve Probe addr = inr (target, i) /\
     Dc.slice_to target (i + 3) = Some scheme /\
     (scheme = nmdcSchema \/ scheme = nmdcsSchema) /\
     nmdc_Ping target = inl e) ->
  Dc.Ping Probe nmdc_Ping nmdcSchema nmdcsSchema Quote addr = Done (inl e).
Proof.
  intros [[Hi Hp]|(target & i & scheme & Hr & Hs & Hk & Hn)].
  - unfold Dc.Ping, Dc.resolve. cbv zeta.
    destruct (decide (Dc.Index addr "://" < 0)%Z) as [_|]; [|lia]. by rewrite Hp.
  - unfold Dc.Ping. rewrite Hr, Hs.
    destruct (decide _) as [_|]; [|done]. by rewrite Hn.
Qed.

End Pinger.

(** ** More on fan-out and on the serving loop *)

Lemma foreign_calls_fanout (b : BroadcastPacket) (l : list Peer) (fs : list bool) :
  foreign_calls (fanout_events b l fs) = [].
Proof.
  revert fs; induction l as [|[a|o] l IH]; intros fs; cbn; [done|apply IH|apply IH].
Qed.

Lemma foreign_calls_app (l1 l2 : list event) :
  foreign_calls (l1 ++ l2) = (foreign_calls l1 ++ foreign_calls l2)%list.
Proof. apply omap_app. Qed.

Lemma foreign_calls_others (from : Peer) (text : string) (qs : list otherPeer) :
  foreign_calls ((fun q => EvOther q (OChatMsg from text)) <$> qs) =
  (fun q => (q, OChatMsg from text)) <$> qs.
Proof. induction qs as [|q qs IH]; [done|]. cbn. f_equal. apply IH. Qed.

Section RoutingMore.
Context {codec : Codec}.

(** X25 (lines 287-313): a failed write does not stop the fan-out.
    Whatever writes and flushes fail, [adcBroadcast] returns and has asked
    every ADC peer of the list, in the order of the list, to write the
    packet and to flush, and has written to no one else. *)
Theorem broadcast_survives_write_errors (b : BroadcastPacket) (from : Peer)
    (l : list Peer) (w : World) :
  let r := exec (adcBroadcast b from (Some l)) w in
  fst r = Done tt /\
  wire_attempts (since w (snd r)) = deliveries b l.
Proof.
  cbv zeta. destruct (adcBroadcast_run b from l w) as (E1 & rest & E2 & E3).
  split; [done|].
  by rewrite E2, wire_attempts_app, E3, app_nil_r, wire_attempts_fanout.
Qed.

(** X26 (lines 291-312): the peers of the sibling protocol get a broadcast
    only as a chat message.  When the payload decodes to a chat message,
    each of them, in the order of the list, has [ChatMsg] called with the
    sender and the text; when it does not decode, or decodes to anything
    else, none of them is called. *)
Theorem broadcast_translates_chat_only (b : BroadcastPacket) (from : Peer)
    (l : list Peer) (w : World) :
  let r := exec (adcBroadcast b from (Some l)) w in
  foreign_calls (since w (snd r)) =
  match Decode (bcName b) (bcData b) with
  | inr (ChatMessage text) => (fun q => (q, OChatMsg from text)) <$> others l
  | _ => []
  end.
Proof.
  cbv zeta. unfold adcBroadcast. cbn [bind]. rewrite exec_bind.
  destruct (fanout_run b l [] w) as [E1 E2].
  destruct (exec (fanout b l []) w) as [o w1]. cbn [fst snd] in E1, E2.
  rewrite E1. cbn [app].
  destruct (others l) as [|q qs] eqn:Ho; cbn [fmap list_fmap].
  { cbn [exec snd]. rewrite (since_app _ _ _ E2), foreign_calls_fanout.
    destruct (Decode _ _) as [?|[]]; done. }
  destruct (Decode (bcName b) (bcData b)) as [e|m].
  { cbn [exec step snd].
    erewrite since_app; [|cbn; rewrite E2, <- app_assoc; reflexivity].
    by rewrite foreign_calls_app, foreign_calls_fanout. }
  destruct m;
    try (cbn [exec snd]; by rewrite (since_app _ _ _ E2), foreign_calls_fanout).
  destruct (broadcastChat_others from Text (q :: qs) w1) as [E3 E4].
  cbn [fmap list_fmap] in E3, E4.
  erewrite since_app; [|rewrite E4, E2, <- app_assoc; reflexivity].
  rewrite foreign_calls_app, foreign_calls_fanout. cbn [app].
  apply (foreign_calls_others from Text (q :: qs)).
Qed.

Lemma serve_waits (peer : adcPeer) (fuel : nat) (w : World) (pkts : list Packet) :
  is_free (mu w) = true ->
  inbox w !! conn_id (conn peer) = Some (inr <$> pkts) ->
  (length pkts < fuel)%nat ->
  fst (exec (adcServePeer fuel peer) w) = Deadlock \/
  exists e, fst (exec (adcServePeer fuel peer) w) = Done (Some (Some e)).
Proof.
  revert w pkts; induction fuel as [|fuel IH]; intros w pkts Hfree Hin Hlen; [lia|].
  apply is_free_unlocked in Hfree.
  cbn [adcServePeer exec step]. rewrite Hin.
  destruct pkts as [|p pkts]; cbn [fmap list_fmap exec fst]; [by left|].
  cbn in Hlen.
  assert (Hnext : forall w1, mu w1 = unlocked ->
            inbox w1 = <[conn_id (conn peer) := inr <$> pkts]> (inbox w) ->
            fst (exec (adcServePeer fuel peer) w1) = Deadlock \/
            exists e, fst (exec (adcServePeer fuel peer) w1) = Done (Some (Some e))).
  { intros w1 Hm Hi. apply (IH w1 pkts); [by rewrite Hm| |lia].
    by rewrite Hi, lookup_insert_eq. }
  destruct p as [?|?|b|d|d]; cbn [exec step].
  - by apply Hnext.
  - by apply Hnext.
  - destruct (decide (sid peer <> bcID b)); [right; by eexists|].
    unfold Peers, locked_read. cbn [bind exec step].
    cbn [mu emit set_inbox]. rewrite Hfree. cbn [writer readers unlocked Nat.eqb].
    cbn [exec step]. cbn [mu readers emit set_mu]. cbn [exec step]. by apply Hnext.
  - destruct (decide (sid peer <> dID d)); [right; by eexists|].
    cbn [exec step]. by apply Hnext.
  - destruct (decide (sid peer <> dID d)); [right; by eexists|].
    cbn [exec step]. unfold wire_result.
    destruct (hd false _); [right; by eexists|]. cbn [exec step]. unfold wire_result.
    destruct (hd false _); [right; by eexists|]. cbn [exec step]. apply Hnext; cbn; done.
Qed.

(** X27 (lines 46-84): the serving loop ends with the stream, and not
    before.  On a hub whose lock is free and where no other goroutine
    moves, the loop never waits for the lock.  If the connection delivers
    an error or the end of the stream after some packets, the loop has
    returned by then; if it delivers the packets and then stays silent,
    the loop returns an error or waits in the read of line 48, which has no
    deadline: it never returns nil on its own.  Either way it leaves the
    registry as it was and the lock free. *)
Theorem serve_ends_with_stream (peer : adcPeer) (fuel : nat) (w : World)
    (pkts : list Packet) :
  is_free (mu w) = true ->
  env w = [] ->
  (length pkts < fuel)%nat ->
  let r := exec (adcServePeer fuel peer) w in
  (forall x rest,
     inbox w !! conn_id (conn peer) = Some ((inr <$> pkts) ++ inl x :: rest)%list ->
     exists y, fst r = Done (Some y)) /\
  (inbox w !! conn_id (conn peer) = Some (inr <$> pkts) ->
   fst r = Deadlock \/ exists e, fst r = Done (Some (Some e))) /\
  peers (snd r) = peers w /\ mu (snd r) = unlocked.
Proof.
  intros Hfree Henv Hlen. cbv zeta.
  destruct (serve_frame peer fuel w Henv (is_free_unlocked _ Hfree)) as (_ & H2 & H3).
  split; [|split; [|done]].
  - intros x rest Hin. by eapply serve_returns.
  - intros Hin. by eapply serve_waits.
Qed.

End RoutingMore.

(** ** The properties above on the small hub *)

Lemma direct_to_target_only_witness :
  let d := mkDirect 1 1 "MSG" "hi" in
  let w := ex_world_in ex_admitted [] [] in
  wire_attempts (since w (snd (exec (adcDirect d) w))) =
  [(ex_conn, WritePacket (PDirect d)); (ex_conn, Flush)].
Proof.
  intros d w.
  pose proof (direct_to_target_only d w eq_refl) as (_ & _ & _ & H).
  etrans; [exact H|]. vm_compute. reflexivity.
Defined.

Lemma serve_rejects_foreign_sid_witness :
  let p := PBroadcast (mkBroadcast 2 "MSG" "x") in
  let w := ex_world [inr p] [] in
  (exists msg, fst (exec (adcServePeer 1 ex_peer) w) =
               Done (Some (Some (fmt_Errorf msg)))) /\
  peers (snd (exec (adcServePeer 1 ex_peer) w)) = peers w.
Proof.
  intros p w.
  pose proof (serve_rejects_foreign_sid ex_peer w p [] 2 0) as H.
  destruct H as (H1 & _ & H3 & _); [reflexivity|reflexivity|cbn; lia|].
  split; [exact H1|exact H3].
Defined.

Lemma serve_echo_witness :
  let e := mkDirect 1 1 "MSG" "hi" in
  let w := ex_world [inr (PEcho e)] [true] in
  fst (exec (adcServePeer 1 ex_peer) w) =
  Done (Some (Some ErrTransport)).
Proof.
  intros e w.
  pose proof (serve_echo ex_peer w e [] eq_refl eq_refl) as [_ H].
  exact (proj1 (H eq_refl 0%nat)).
Defined.

Lemma identity_rejects_malformed_witness :
  let w := ex_world [inf_packet 1 "garbage"] [] in
  (exists e, fst (exec (adcStageIdentity (codec:=ex_codec) ex_hub ex_peer) w) =
             Done (Some e)) /\
  since w (snd (exec (adcStageIdentity (codec:=ex_codec) ex_hub ex_peer) w)) =
    [EvRead ex_conn].
Proof.
  intros w.
  pose proof (identity_rejects_malformed (codec:=ex_codec) ex_hub ex_peer w eq_refl)
    as (H1 & H2 & _).
  split; [exact H1|exact H2].
Defined.

Lemma identity_rejects_empty_nick_witness :
  fst (exec (adcStageIdentity (codec:=ex_codec_anon) ex_hub ex_peer)
            (ex_world [inf_packet 1 "anon"] [])) =
  Done (Some (errors_New "invalid nick")).
Proof.
  exact (proj1 (identity_rejects_empty_nick (codec:=ex_codec_anon) ex_hub ex_peer
                  (ex_world [inf_packet 1 "anon"] [])
                  (mkUser 8 (Some 7) "" "" "" "") 7
                  eq_refl eq_refl eq_refl eq_refl)).
Defined.

Lemma identity_failure_keeps_registry_witness :
  let w := ex_world_in ex_reserved [inf_packet 1 "alice"] [] in
  peers (snd (exec (adcStageIdentity (codec:=ex_codec) ex_hub ex_peer) w)) = ex_reserved.
Proof.
  intros w.
  refine (proj1 (identity_failure_keeps_registry (codec:=ex_codec) ex_hub ex_peer w
                   errNickTaken eq_refl eq_refl _)).
  vm_compute. reflexivity.
Defined.

Lemma identity_success_indexes_witness :
  let w := ex_world [inf_packet 1 "alice"] [] in
  peers (snd (exec (adcStageIdentity (codec:=ex_codec) ex_hub ex_peer) w)) =
  indexed ex_peer
    (user_of (snd (exec (adcStageIdentity (codec:=ex_codec) ex_hub ex_peer) w)) ex_peer)
    Registry0.
Proof.
  intros w.
  refine (proj1 (identity_success_indexes (codec:=ex_codec) ex_hub ex_peer w
                   eq_refl eq_refl _)).
  vm_compute. reflexivity.
Defined.

Lemma identity_keeps_reservations_apart_witness :
  let w := ex_world [inf_packet 1 "alice"] [] in
  reservations_apart
    (peers (snd (exec (adcStageIdentity (codec:=ex_codec) ex_hub ex_peer) w))).
Proof.
  intros w.
  refine (identity_keeps_reservations_apart (codec:=ex_codec) ex_hub ex_peer w None
            eq_refl eq_refl _ _).
  - vm_compute. reflexivity.
  - split; intros k Hk; cbn in Hk; by apply not_elem_of_empty in Hk.
Defined.

Lemma protocol_rejects_malformed_witness :
  let w := ex_world [inr (PHub (mkBase Cmd_Supported "junk"))] [] in
  (exists e, fst (exec (adcStageProtocol (codec:=ex_codec) ex_conn) w) = Done (inl e)) /\
  lastSID (snd (exec (adcStageProtocol (codec:=ex_codec) ex_conn) w)) = 1.
Proof.
  intros w.
  pose proof (protocol_rejects_malformed (codec:=ex_codec) ex_conn w eq_refl)
    as (H1 & _ & H3 & _).
  split; [exact H1|exact H3].
Defined.

Lemma second_joiner_refused_witness :
  let w := ex_world_in Registry0 [] [] in
  let u2 := mkUser 9 None "alice" "" "" "" in
  fst (exec (identityBind ex_peer2 u2) (snd (exec (identityBind ex_peer ex_alice) w))) =
  Done (Some errNickTaken).
Proof.
  intros w u2.
  pose proof (second_joiner_refused ex_peer ex_peer2 ex_alice u2 w eq_refl eq_refl) as H.
  destruct (H eq_refl (or_introl eq_refl) _ (or_introl eq_refl))
    as (e & _ & He & _ & Hb & _).
  rewrite (He eq_refl) in Hb. exact Hb.
Defined.

Lemma bind_unbind_round_trip_witness :
  let w := ex_world_in Registry0 [] [] in
  peers (snd (exec (unbind ex_alice) (snd (exec (identityBind ex_peer ex_alice) w)))) =
  Registry0.
Proof.
  intros w.
  exact (proj1 (proj2 (bind_unbind_round_trip ex_peer ex_alice w
                         eq_refl eq_refl eq_refl))).
Defined.

Lemma hub_marshals_no_pid_witness :
  let w := ex_world [inf_packet 1 "alice"] [] in
  Forall marshals_no_pid
    (since w (snd (exec (adcStageIdentity (codec:=ex_codec) ex_hub ex_peer) w))).
Proof.
  intros w.
  refine (proj2 (proj1 (hub_marshals_no_pid (codec:=ex_codec) ex_hub ex_peer w _))).
  intros k u Hk. cbn in Hk. by rewrite lookup_empty in Hk.
Defined.

Lemma Close_idempotent_witness :
  let s := ex_state (ex_world_in ex_admitted [] []) in
  Close ex_peer (snd (Close ex_peer s)) = (Done None, snd (Close ex_peer s)).
Proof.
  intros s.
  apply (Close_idempotent ex_peer s (snd (Close ex_peer s)) None).
  vm_compute. reflexivity.
Defined.

Lemma Close_removes_witness :
  let s := ex_state (ex_world_in ex_admitted [] []) in
  fst (Close ex_peer s) = Done None /\
  bySID (peers (world (snd (Close ex_peer s)))) !! 1 = None /\
  wire_closes (snd (Close ex_peer s)) = [ex_conn].
Proof.
  intros s.
  pose proof (Close_removes ex_peer s (not_elem_of_empty _) eq_refl)
    as (H1 & _ & H3 & H4 & _).
  split; [exact H1|]. split; [exact H4|exact H3].
Defined.

Lemma Close_notifies_witness :
  let s := ex_state ex_world_both in
  exists evs,
    since ex_world_both (world (snd (Close ex_peer s))) = EvLock :: EvUnlock :: evs /\
    (ex_conn2, WriteInfoMsg (Disconnect 1)) ∈ wire_attempts evs.
Proof.
  intros s.
  destruct (Close_notifies ex_peer s (not_elem_of_empty _) eq_refl)
    as (evs & H1 & H2 & _).
  exists evs. split; [exact H1|].
  apply (H2 ex_peer2). exists 2. split; [cbn; lia|]. vm_compute. reflexivity.
Defined.

Lemma ServeADC_leaves_registry_witness :
  let s := ex_state (ex_world ex_session []) in
  let s' := snd (ServeADC (codec:=ex_codec) 3 ex_hub "Welcome!" (inr ex_conn) s) in
  peers (world s') = Registry0 /\ last (wire_closes s') = Some ex_conn.
Proof.
  intros s s'.
  assert (Hs : sids_allocated (world s)).
  { intros k p Hk. cbn in Hk. by rewrite lookup_empty in Hk. }
  assert (Hc : closed_allocated s).
  { intros k Hk. cbn in Hk. by apply not_elem_of_empty in Hk. }
  assert (Hr : fst (ServeADC (codec:=ex_codec) 3 ex_hub "Welcome!" (inr ex_conn) s)
               = Done (Some None)) by (vm_compute; reflexivity).
  pose proof (ServeADC_leaves_registry (codec:=ex_codec) 3 ex_hub "Welcome!"
                (inr ex_conn) s None eq_refl eq_refl Hs Hc Hr) as (H1 & _ & H3 & _).
  split; [exact H1|exact (H3 ex_conn eq_refl)].
Defined.

Lemma Ping_with_scheme_skips_probe_witness :
  ex_ping ex_probe_short ex_nmdc_ping "nmdc://hub:411" =
  ex_ping ex_no_probe ex_nmdc_ping "nmdc://hub:411".
Proof.
  refine (proj2 (Ping_with_scheme_skips_probe ex_no_probe ex_nmdc_ping
                   "nmdc://" "nmdcs://" (fun s => s) "nmdc://hub:411" ex_probe_short _)).
  vm_compute. discriminate.
Defined.

Lemma Ping_unsupported_scheme_witness :
  ex_ping ex_no_probe ex_nmdc_ping "adc://hub:411" =
  Done (inl (fmt_Errorf "unsupported protocol: adc://hub:411")).
Proof.
  refine (Ping_unsupported_scheme "nmdc://" "nmdcs://" (fun s => s)
            "adc://hub:411" "adc://" ex_no_probe ex_nmdc_ping _ _ _ _).
  - vm_compute. discriminate.
  - vm_compute. reflexivity.
  - discriminate.
  - discriminate.
Defined.

Lemma Ping_converts_hub_witness :
  let info := Dc.hub_info "nmdcs://hub:411" ex_nmdc_hub in
  ex_ping ex_no_probe ex_nmdc_ping "nmdcs://hub:411" = Done (inr info) /\
  Dc.hi_Addr info = ["nmdcs://hub:411"] /\
  Dc.hi_Users info = Dc.hub_user <$> Dc.nh_Users ex_nmdc_hub.
Proof.
  intros info.
  assert (H : ex_ping ex_no_probe ex_nmdc_ping "nmdcs://hub:411" = Done (inr info))
    by (vm_compute; reflexivity).
  destruct (Ping_converts_hub ex_no_probe ex_nmdc_ping "nmdc://" "nmdcs://" (fun s => s)
              "nmdcs://hub:411" info H)
    as (target & hub & scheme & [[_ Ht]|[Hi _]] & _ & _ & Hn & Ha & Hu & _).
  - cbv [ex_nmdc_ping] in Hn. injection Hn as <-. subst target.
    split; [exact H|]. split; [exact Ha|exact Hu].
  - vm_compute in Hi. discriminate.
Defined.

Lemma Ping_probe_without_scheme_witness :
  ex_ping ex_probe_short ex_nmdc_ping "hub" = Panicked.
Proof.
  refine (Ping_probe_without_scheme ex_probe_short "nmdc://" "nmdcs://" (fun s => s)
            "hub" "x" ex_nmdc_ping _ eq_refl _ _ _).
  - vm_compute. reflexivity.
  - vm_compute. reflexivity.
  - cbn. lia.
  - cbn. lia.
Defined.

Lemma Ping_returns_errors_witness :
  ex_ping ex_no_probe ex_nmdc_ping "hub" = Done (inl ErrTransport).
Proof.
  refine (Ping_returns_errors ex_no_probe ex_nmdc_ping "nmdc://" "nmdcs://" (fun s => s)
            "hub" ErrTransport _).
  left. split; [vm_compute; reflexivity|reflexivity].
Defined.

Lemma serve_ends_with_stream_witness :
  let w := ex_world [inr (PBroadcast ex_hello); inl io_EOF] [] in
  let w' := ex_world [inr (PBroadcast ex_hello)] [] in
  fst (exec (adcServePeer 2 ex_peer) w) = Done (Some None) /\
  fst (exec (adcServePeer 2 ex_peer) w') = Deadlock /\
  peers (snd (exec (adcServePeer 2 ex_peer) w)) = Registry0.
Proof.
  intros w w'.
  assert (Hlen : (length [PBroadcast ex_hello] < 2)%nat) by (cbn; lia).
  destruct (serve_ends_with_stream ex_peer 2 w [PBroadcast ex_hello] eq_refl eq_refl Hlen)
    as (H1 & _ & H3 & _).
  destruct (serve_ends_with_stream ex_peer 2 w' [PBroadcast ex_hello] eq_refl eq_refl Hlen)
    as (_ & H2 & _).
  split; [|split; [|exact H3]].
  - destruct (H1 io_EOF [] eq_refl) as [y Hy]. rewrite Hy. vm_compute in Hy.
    injection Hy as <-. reflexivity.
  - destruct (H2 eq_refl) as [Hd|[e He]]; [exact Hd|]. vm_compute in He. discriminate He.
Defined.
